(** * Access resolution engine of the resource sharing system

    A shallow embedding of [src/services/accessService.js] over the data
    model of [src/models/index.js], and the properties of the forward
    resolver ([getResourceAccessList]), the reverse resolver
    ([getUserResources]) and the grant mutator ([shareResource],
    [unshareResource]).

    The five ElectroDB entities are tables; a table is the list of its
    items in the order in which its index enumerates them.  The engine
    only ever talks to the store through the entity methods [get],
    [scan], [query], [create], [update] and [delete]; each of them is a
    function on the store below.  Every [await] of the source is a
    sequential step, the clock ([new Date().toISOString()]) is an explicit
    argument [now].

    The development has two parts.  The first takes the store for
    well kept: an identifier has one spelling, which is its key, and a
    read returns all it asks for.  The second, the module [Dynamo],
    models the store as ElectroDB and DynamoDB serve it: keys are
    compared after lower-casing while the service keeps the strings it
    was given, and a read returns one page.  The two agree on a
    well-kept store (lemmas [agree_getResourceAccessList],
    [agree_getUserResources] and [agree_reports]); they part on the
    inputs of the theorems of the second part. *)

From Stdlib Require Import String OrderedTypeEx.
From stdpp Require Import base decidable option list sets gmap strings.

(** ** Entities (src/models/index.js) *)

Module User.
Record t := mk {
    userId : string;
    email : string;
    name : string;
    createdAt : string;
    updatedAt : string }.
End User.

Module Group.
Record t := mk {
    groupId : string;
    name : string;
    description : string;
    createdAt : string;
    updatedAt : string }.
End Group.

Module UserGroup.
Record t := mk {
    userId : string;
    groupId : string;
    joinedAt : string }.
End UserGroup.

Module Resource.
Record t := mk {
    resourceId : string;
    name : string;
    description : string;
    type : string;
    ownerId : string;
    isGlobal : bool;
    createdAt : string;
    updatedAt : string }.
End Resource.

(** [shareType: { type: ['user', 'group', 'global'] }] *)
Inductive ShareType := ST_user | ST_group | ST_global.

Module ResourceSharing.
Record t := mk {
    resourceId : string;
    shareType : ShareType;
    targetId : string;
    sharedBy : string;
    sharedAt : string;
    permissions : list string }.
End ResourceSharing.

#[global] Instance ShareType_eq_dec : EqDecision ShareType.
Proof. solve_decision. Defined.

(** The store: one list of items per entity. *)
Record Store := mkStore {
  users : list User.t;
  groups : list Group.t;
  userGroups : list UserGroup.t;
  resources : list Resource.t;
  sharing : list ResourceSharing.t }.

(** ** Store operations used by the service *)

(** [User.get({ userId }).go()], [Group.get], [Resource.get]: the item
    with that key, or no [data]. *)
Definition User_get (userId : string) (s : Store) : option User.t :=
  List.find (λ u, bool_decide (User.userId u = userId)) (users s).

Definition Group_get (groupId : string) (s : Store) : option Group.t :=
  List.find (λ g, bool_decide (Group.groupId g = groupId)) (groups s).

Definition Resource_get (resourceId : string) (s : Store) : option Resource.t :=
  List.find (λ r, bool_decide (Resource.resourceId r = resourceId)) (resources s).

(** [User.scan.go()] *)
Definition User_scan (s : Store) : list User.t := users s.

(** [Resource.query.globalResources({ isGlobal: true }).go()] *)
Definition Resource_query_globalResources (s : Store) : list Resource.t :=
  filter (λ r, Resource.isGlobal r = true) (resources s).

(** [UserGroup.query.primary({ userId }).go()] *)
Definition UserGroup_query_primary (userId : string) (s : Store) : list UserGroup.t :=
  filter (λ ug, UserGroup.userId ug = userId) (userGroups s).

(** [UserGroup.query.byGroup({ groupId }).go()] *)
Definition UserGroup_query_byGroup (groupId : string) (s : Store) : list UserGroup.t :=
  filter (λ ug, UserGroup.groupId ug = groupId) (userGroups s).

(** [ResourceSharing.query.primary({ resourceId }).go()] *)
Definition ResourceSharing_query_primary (resourceId : string) (s : Store)
  : list ResourceSharing.t :=
  filter (λ r, ResourceSharing.resourceId r = resourceId) (sharing s).

(** [ResourceSharing.query.byTarget({ targetId }).go()]: the index is keyed
    by [targetId] alone, whatever the [shareType] of the rule. *)
Definition ResourceSharing_query_byTarget (targetId : string) (s : Store)
  : list ResourceSharing.t :=
  filter (λ r, ResourceSharing.targetId r = targetId) (sharing s).

(** *** Order of the primary index of the sharing table

    The sort key of [ResourceSharing.indexes.primary] is composed of
    [shareType] and [targetId], in that order, and a query returns the items
    of a partition in ascending order of the sort key.  The share types
    compare as their names do: ['global' < 'group' < 'user']. *)
Definition shareType_rank (t : ShareType) : nat :=
  match t with ST_global => 0 | ST_group => 1 | ST_user => 2 end.

Definition sk_leb (a b : ResourceSharing.t) : bool :=
  let ra := shareType_rank (ResourceSharing.shareType a) in
  let rb := shareType_rank (ResourceSharing.shareType b) in
  (ra <? rb)%nat
  || ((ra =? rb)%nat
      && String.leb (ResourceSharing.targetId a) (ResourceSharing.targetId b)).

Definition primary_leb (a b : ResourceSharing.t) : bool :=
  String.ltb (ResourceSharing.resourceId a) (ResourceSharing.resourceId b)
  || (bool_decide (ResourceSharing.resourceId a = ResourceSharing.resourceId b)
      && sk_leb a b).

(** A list is in index order when every item is below all later ones. *)
Fixpoint ordered_by {A} (leb : A → A → bool) (l : list A) : bool :=
  match l with
  | [] => true
  | x :: l' => forallb (leb x) l' && ordered_by leb l'
  end.

Definition primary_ordered (s : Store) : Prop :=
  ordered_by primary_leb (sharing s) = true.

(** The key of a sharing rule: [(resourceId, shareType, targetId)]. *)
Definition same_key (resourceId : string) (shareType : ShareType)
    (targetId : string) (r : ResourceSharing.t) : Prop :=
  ResourceSharing.resourceId r = resourceId
  ∧ ResourceSharing.shareType r = shareType
  ∧ ResourceSharing.targetId r = targetId.

#[global] Instance same_key_dec rid st tid r : Decision (same_key rid st tid r).
Proof. unfold same_key. apply _. Defined.

Definition key_exists (rid : string) (st : ShareType) (tid : string)
    (s : Store) : bool :=
  existsb (λ r, bool_decide (same_key rid st tid r)) (sharing s).

(** Insertion of a new item at its place in the index. *)
Fixpoint index_insert (x : ResourceSharing.t) (l : list ResourceSharing.t)
  : list ResourceSharing.t :=
  match l with
  | [] => [x]
  | y :: l' => if primary_leb x y then x :: y :: l' else y :: index_insert x l'
  end.

Definition with_sharing (l : list ResourceSharing.t) (s : Store) : Store :=
  {| users := users s; groups := groups s; userGroups := userGroups s;
     resources := resources s; sharing := l |}.

Definition with_resources (l : list Resource.t) (s : Store) : Store :=
  {| users := users s; groups := groups s; userGroups := userGroups s;
     resources := l; sharing := sharing s |}.

(** [ResourceSharing.create(item).go()]: ElectroDB's [create] writes the
    item only if no item has its key and throws otherwise (the seeding
    script src/utils/setup.js relies on it: it wraps every [create] in a
    [try] whose handler logs "Sharing rule might already exist").  [None]
    is the thrown error. *)
Definition ResourceSharing_create (item : ResourceSharing.t) (s : Store)
  : option Store :=
  if key_exists (ResourceSharing.resourceId item)
                (ResourceSharing.shareType item)
                (ResourceSharing.targetId item) s
  then None
  else Some (with_sharing (index_insert item (sharing s)) s).

(** [ResourceSharing.delete({ resourceId, shareType, targetId }).go()]:
    removes the item with that key; nothing happens when there is none. *)
Definition ResourceSharing_delete (rid : string) (st : ShareType) (tid : string)
    (s : Store) : Store :=
  with_sharing (filter (λ r, ¬ same_key rid st tid r) (sharing s)) s.

(** [Resource.update({ resourceId }).set({ isGlobal, updatedAt }).go()]:
    sets the two attributes of the item with that key.  [update] carries
    no existence condition: when there is no such item the write creates
    one that has only the key and the attributes set (the attributes it
    lacks read as the empty string here). *)
Definition set_isGlobal (b : bool) (now : string) (r : Resource.t) : Resource.t :=
  {| Resource.resourceId := Resource.resourceId r;
     Resource.name := Resource.name r;
     Resource.description := Resource.description r;
     Resource.type := Resource.type r;
     Resource.ownerId := Resource.ownerId r;
     Resource.isGlobal := b;
     Resource.createdAt := Resource.createdAt r;
     Resource.updatedAt := now |}.

Definition Resource_update_isGlobal (rid : string) (b : bool) (now : string)
    (s : Store) : Store :=
  match Resource_get rid s with
  | Some _ =>
      with_resources
        (map (λ r, if bool_decide (Resource.resourceId r = rid)
                   then set_isGlobal b now r else r) (resources s)) s
  | None =>
      with_resources
        (resources s ++
           [ {| Resource.resourceId := rid; Resource.name := EmptyString;
                Resource.description := EmptyString; Resource.type := EmptyString;
                Resource.ownerId := EmptyString; Resource.isGlobal := b;
                Resource.createdAt := EmptyString; Resource.updatedAt := now |} ]) s
  end.

(** ** Results and errors of the service *)

(** [accessType] of one entry: ['direct'], ['group'] or ['global']. *)
Inductive AccessType := AT_direct | AT_group | AT_global.

(** [accessType] of an access list: ['specific'] or ['global']. *)
Inductive ListAccessType := LT_specific | LT_global.

#[global] Instance AccessType_eq_dec : EqDecision AccessType.
Proof. solve_decision. Defined.

(** One element of [accessDetails]; a property the object literal does not
    have is [None]. *)
Module AccessDetail.
Record t := mk {
    userId : string;
    accessType : AccessType;
    groupId : option string;
    user : User.t;
    sharedBy : option string;
    sharedAt : option string;
    permissions : option (list string) }.
End AccessDetail.

Module AccessList.
Record t := mk {
    resourceId : string;
    accessType : ListAccessType;
    totalUsers : nat;
    users : list AccessDetail.t }.
End AccessList.

(** One element of [resources] in the result of [getUserResources]. *)
Module ResourceAccess.
Record t := mk {
    resource : Resource.t;
    accessType : AccessType;
    groupId : option string;
    sharedBy : option string;
    sharedAt : option string;
    permissions : list string }.
End ResourceAccess.

Module ResourceList.
Record t := mk {
    userId : string;
    totalResources : nat;
    resources : list ResourceAccess.t }.
End ResourceList.

(** The messages of the errors thrown inside the [try] blocks; [ItemExists]
    is the failure of a [create] on a key that is taken. *)
Inductive Cause :=
  | ResourceNotFound      (* 'Resource not found' *)
  | UserNotFound          (* 'User not found' *)
  | TargetUserNotFound    (* 'Target user not found' *)
  | TargetGroupNotFound   (* 'Target group not found' *)
  | ItemExists.

(** The [catch] blocks rethrow with the name of the operation in front. *)
Inductive Error :=
  | FailedToGetResourceAccessList (c : Cause)
  | FailedToGetUserResources (c : Cause)
  | FailedToShareResource (c : Cause)
  | FailedToUnshareResource (c : Cause).

(** ** Forward resolver: [getResourceAccessList] *)

(** The two accumulators of the loops: the JS [Set] [accessList] and the
    array [accessDetails]. *)
Definition AccessState : Type := gset string * list AccessDetail.t.

Definition global_detail (u : User.t) : AccessDetail.t :=
  {| AccessDetail.userId := User.userId u;
     AccessDetail.accessType := AT_global;
     AccessDetail.groupId := None;
     AccessDetail.user := u;
     AccessDetail.sharedBy := None;
     AccessDetail.sharedAt := None;
     AccessDetail.permissions := None |}.

Definition direct_detail (rule : ResourceSharing.t) (u : User.t) : AccessDetail.t :=
  {| AccessDetail.userId := ResourceSharing.targetId rule;
     AccessDetail.accessType := AT_direct;
     AccessDetail.groupId := None;
     AccessDetail.user := u;
     AccessDetail.sharedBy := Some (ResourceSharing.sharedBy rule);
     AccessDetail.sharedAt := Some (ResourceSharing.sharedAt rule);
     AccessDetail.permissions := Some (ResourceSharing.permissions rule) |}.

Definition group_detail (rule : ResourceSharing.t) (member : UserGroup.t)
    (u : User.t) : AccessDetail.t :=
  {| AccessDetail.userId := UserGroup.userId member;
     AccessDetail.accessType := AT_group;
     AccessDetail.groupId := Some (ResourceSharing.targetId rule);
     AccessDetail.user := u;
     AccessDetail.sharedBy := Some (ResourceSharing.sharedBy rule);
     AccessDetail.sharedAt := Some (ResourceSharing.sharedAt rule);
     AccessDetail.permissions := Some (ResourceSharing.permissions rule) |}.

(** Body of [allUsers.data.forEach(user => ...)]. *)
Definition add_global_user (st : AccessState) (u : User.t) : AccessState :=
  ({[ User.userId u ]} ∪ st.1, st.2 ++ [global_detail u]).

(** Body of [for (const member of groupMembers.data)]. *)
Definition process_member (s : Store) (rule : ResourceSharing.t)
    (st : AccessState) (member : UserGroup.t) : AccessState :=
  if decide (UserGroup.userId member ∈ st.1) then st
  else match User_get (UserGroup.userId member) s with
       | Some u => ({[ UserGroup.userId member ]} ∪ st.1,
                    st.2 ++ [group_detail rule member u])
       | None => st
       end.

(** Body of [for (const rule of sharingRules.data)]: the ['user'] branch
    adds and pushes without consulting [accessList], the ['group'] branch
    consults it for every member, a ['global'] rule matches neither
    branch. *)
Definition process_rule (s : Store) (st : AccessState)
    (rule : ResourceSharing.t) : AccessState :=
  match ResourceSharing.shareType rule with
  | ST_user =>
      match User_get (ResourceSharing.targetId rule) s with
      | Some u => ({[ ResourceSharing.targetId rule ]} ∪ st.1,
                   st.2 ++ [direct_detail rule u])
      | None => st
      end
  | ST_group =>
      foldl (process_member s rule) st
            (UserGroup_query_byGroup (ResourceSharing.targetId rule) s)
  | ST_global => st
  end.

Definition process_rules (s : Store) (rules : list ResourceSharing.t)
  : AccessState :=
  foldl (process_rule s) (∅, []) rules.

Definition access_list (resourceId : string) (t : ListAccessType)
    (st : AccessState) : AccessList.t :=
  {| AccessList.resourceId := resourceId;
     AccessList.accessType := t;
     AccessList.totalUsers := size st.1;
     AccessList.users := st.2 |}.

Definition getResourceAccessList (resourceId : string) (s : Store)
  : Error + AccessList.t :=
  match Resource_get resourceId s with
  | None => inl (FailedToGetResourceAccessList ResourceNotFound)
  | Some resource =>
      if Resource.isGlobal resource then
        inr (access_list resourceId LT_global
               (foldl add_global_user (∅, []) (User_scan s)))
      else
        inr (access_list resourceId LT_specific
               (process_rules s (ResourceSharing_query_primary resourceId s)))
  end.

(** ** Reverse resolver: [getUserResources] *)

(** The accumulators [resourceIds] (a [Set]) and [resources]. *)
Definition ResourceState : Type := gset string * list ResourceAccess.t.

Definition direct_access (share : ResourceSharing.t) (r : Resource.t)
  : ResourceAccess.t :=
  {| ResourceAccess.resource := r;
     ResourceAccess.accessType := AT_direct;
     ResourceAccess.groupId := None;
     ResourceAccess.sharedBy := Some (ResourceSharing.sharedBy share);
     ResourceAccess.sharedAt := Some (ResourceSharing.sharedAt share);
     ResourceAccess.permissions := ResourceSharing.permissions share |}.

Definition group_access (share : ResourceSharing.t) (r : Resource.t)
  : ResourceAccess.t :=
  {| ResourceAccess.resource := r;
     ResourceAccess.accessType := AT_group;
     ResourceAccess.groupId := Some (ResourceSharing.targetId share);
     ResourceAccess.sharedBy := Some (ResourceSharing.sharedBy share);
     ResourceAccess.sharedAt := Some (ResourceSharing.sharedAt share);
     ResourceAccess.permissions := ResourceSharing.permissions share |}.

Definition global_access (r : Resource.t) : ResourceAccess.t :=
  {| ResourceAccess.resource := r;
     ResourceAccess.accessType := AT_global;
     ResourceAccess.groupId := None;
     ResourceAccess.sharedBy := None;
     ResourceAccess.sharedAt := None;
     ResourceAccess.permissions := ["read"] |}.

(** Body of the loops over [directShares.data] and over [groupShares];
    [mk] builds the pushed object. *)
Definition process_share (s : Store)
    (mk : ResourceSharing.t → Resource.t → ResourceAccess.t)
    (st : ResourceState) (share : ResourceSharing.t) : ResourceState :=
  if decide (ResourceSharing.resourceId share ∈ st.1) then st
  else match Resource_get (ResourceSharing.resourceId share) s with
       | Some r => ({[ ResourceSharing.resourceId share ]} ∪ st.1,
                    st.2 ++ [mk share r])
       | None => st
       end.

(** Body of the loop over [globalResources.data]. *)
Definition process_global (st : ResourceState) (r : Resource.t) : ResourceState :=
  if decide (Resource.resourceId r ∈ st.1) then st
  else ({[ Resource.resourceId r ]} ∪ st.1, st.2 ++ [global_access r]).

Definition groupShares_of (s : Store) (groupIds : list string)
  : list ResourceSharing.t :=
  concat (map (λ groupId, ResourceSharing_query_byTarget groupId s) groupIds).

Definition getUserResources (userId : string) (s : Store)
  : Error + ResourceList.t :=
  match User_get userId s with
  | None => inl (FailedToGetUserResources UserNotFound)
  | Some _ =>
      let userGroups := UserGroup_query_primary userId s in
      let groupIds := map UserGroup.groupId userGroups in
      let directShares := ResourceSharing_query_byTarget userId s in
      let groupShares := groupShares_of s groupIds in
      let globalResources := Resource_query_globalResources s in
      let st1 := foldl (process_share s direct_access) (∅, []) directShares in
      let st2 := foldl (process_share s group_access) st1 groupShares in
      let st3 := foldl process_global st2 globalResources in
      inr {| ResourceList.userId := userId;
             ResourceList.totalResources := size st3.1;
             ResourceList.resources := st3.2 |}
  end.

(** ** Grant mutator: [shareResource], [unshareResource] *)

(** The item handed to [ResourceSharing.create]; [sharedAt] is not passed
    by the caller and takes its default, the current time. *)
Definition new_rule (resourceId : string) (shareType : ShareType)
    (targetId sharedBy : string) (permissions : list string) (now : string)
  : ResourceSharing.t :=
  {| ResourceSharing.resourceId := resourceId;
     ResourceSharing.shareType := shareType;
     ResourceSharing.targetId := targetId;
     ResourceSharing.sharedBy := sharedBy;
     ResourceSharing.sharedAt := now;
     ResourceSharing.permissions := permissions |}.

(** The last statement of [shareResource]: [create], then return the rule.
    A failed [create] leaves the store as the earlier writes made it. *)
Definition create_rule (rule : ResourceSharing.t) (s : Store)
  : Store * (Error + ResourceSharing.t) :=
  match ResourceSharing_create rule s with
  | Some s' => (s', inr rule)
  | None => (s, inl (FailedToShareResource ItemExists))
  end.

(** [shareResource] returns the store it leaves behind together with the
    rule created or the error thrown.  For ['global'] the target is
    replaced by the sentinel and the resource is updated before the rule
    is created. *)
Definition shareResource (resourceId : string) (shareType : ShareType)
    (targetId sharedBy : string) (permissions : list string) (now : string)
    (s : Store) : Store * (Error + ResourceSharing.t) :=
  match Resource_get resourceId s with
  | None => (s, inl (FailedToShareResource ResourceNotFound))
  | Some _ =>
      match shareType with
      | ST_user =>
          match User_get targetId s with
          | None => (s, inl (FailedToShareResource TargetUserNotFound))
          | Some _ =>
              create_rule
                (new_rule resourceId shareType targetId sharedBy permissions now) s
          end
      | ST_group =>
          match Group_get targetId s with
          | None => (s, inl (FailedToShareResource TargetGroupNotFound))
          | Some _ =>
              create_rule
                (new_rule resourceId shareType targetId sharedBy permissions now) s
          end
      | ST_global =>
          let s1 := Resource_update_isGlobal resourceId true now s in
          create_rule
            (new_rule resourceId shareType "global" sharedBy permissions now) s1
      end
  end.

(** [unshareResource]: delete the rule with the key as given, then, for
    ['global'], clear the flag of the resource. *)
Definition unshareResource (resourceId : string) (shareType : ShareType)
    (targetId : string) (now : string) (s : Store) : Store :=
  let s1 := ResourceSharing_delete resourceId shareType targetId s in
  match shareType with
  | ST_global => Resource_update_isGlobal resourceId false now s1
  | _ => s1
  end.

(** ** Sets of users reached by the grants of a resource *)

Definition user_exists (s : Store) (userId : string) : Prop :=
  is_Some (User_get userId s).

#[global] Instance user_exists_dec s userId : Decision (user_exists s userId).
Proof. unfold user_exists. apply _. Defined.

Definition is_user_rule (r : ResourceSharing.t) : Prop :=
  ResourceSharing.shareType r = ST_user.
Definition is_group_rule (r : ResourceSharing.t) : Prop :=
  ResourceSharing.shareType r = ST_group.
Definition is_global_rule (r : ResourceSharing.t) : Prop :=
  ResourceSharing.shareType r = ST_global.

#[global] Instance is_user_rule_dec r : Decision (is_user_rule r).
Proof. unfold is_user_rule. apply _. Defined.
#[global] Instance is_group_rule_dec r : Decision (is_group_rule r).
Proof. unfold is_group_rule. apply _. Defined.
#[global] Instance is_global_rule_dec r : Decision (is_global_rule r).
Proof. unfold is_global_rule. apply _. Defined.

(** The registered users among the member rows of a group. *)
Definition members_of (s : Store) (groupId : string) : gset string :=
  list_to_set
    (filter (user_exists s)
            (UserGroup.userId <$> UserGroup_query_byGroup groupId s)).

(** The users one rule gives access to. *)
Definition rule_users (s : Store) (rule : ResourceSharing.t) : gset string :=
  match ResourceSharing.shareType rule with
  | ST_user =>
      if decide (user_exists s (ResourceSharing.targetId rule))
      then {[ ResourceSharing.targetId rule ]} else ∅
  | ST_group => members_of s (ResourceSharing.targetId rule)
  | ST_global => ∅
  end.

(** The registered users with a user-type grant on the resource. *)
Definition direct_users (s : Store) (resourceId : string) : gset string :=
  list_to_set
    (filter (user_exists s)
       (ResourceSharing.targetId <$>
          filter is_user_rule (ResourceSharing_query_primary resourceId s))).

(** The groups with a group-type grant on the resource, one per grant. *)
Definition granted_groups (s : Store) (resourceId : string) : list string :=
  ResourceSharing.targetId <$>
    filter is_group_rule (ResourceSharing_query_primary resourceId s).

(** The registered users who are members of a granted group. *)
Definition group_users (s : Store) (resourceId : string) : gset string :=
  ⋃ (members_of s <$> granted_groups s resourceId).

(** The access paths of a resource, as sets of users: the direct grants
    first, then one set per granted group. *)
Definition access_paths (s : Store) (resourceId : string) : list (gset string) :=
  direct_users s resourceId :: (members_of s <$> granted_groups s resourceId).

(** Two different paths reach a common user. *)
Definition overlapping (paths : list (gset string)) : Prop :=
  ∃ i j X Y, i < j ∧ paths !! i = Some X ∧ paths !! j = Some Y ∧ X ∩ Y ≠ ∅.

(** ** Sample data *)

Definition sample_user (id : string) : User.t :=
  {| User.userId := id; User.email := id +:+ "@example.com"; User.name := id;
     User.createdAt := "2024-01-01T00:00:00.000Z";
     User.updatedAt := "2024-01-01T00:00:00.000Z" |}.

Definition sample_group (id : string) : Group.t :=
  {| Group.groupId := id; Group.name := id; Group.description := EmptyString;
     Group.createdAt := "2024-01-01T00:00:00.000Z";
     Group.updatedAt := "2024-01-01T00:00:00.000Z" |}.

Definition sample_member (userId groupId : string) : UserGroup.t :=
  {| UserGroup.userId := userId; UserGroup.groupId := groupId;
     UserGroup.joinedAt := "2024-01-01T00:00:00.000Z" |}.

Definition sample_resource (id owner : string) (isGlobal : bool) : Resource.t :=
  {| Resource.resourceId := id; Resource.name := id;
     Resource.description := EmptyString; Resource.type := "document";
     Resource.ownerId := owner; Resource.isGlobal := isGlobal;
     Resource.createdAt := "2024-01-01T00:00:00.000Z";
     Resource.updatedAt := "2024-01-01T00:00:00.000Z" |}.

Definition sample_rule (resourceId : string) (shareType : ShareType)
    (targetId sharedBy : string) : ResourceSharing.t :=
  {| ResourceSharing.resourceId := resourceId;
     ResourceSharing.shareType := shareType;
     ResourceSharing.targetId := targetId;
     ResourceSharing.sharedBy := sharedBy;
     ResourceSharing.sharedAt := "2024-01-02T00:00:00.000Z";
     ResourceSharing.permissions := ["read"] |}.

(** Five users, the group g1 = {u1, u2}, the group g2 = {u2, u3}; r1 is
    shared with both groups and directly with u1 and u4; r3 is global and
    carries grants of its own. *)
Definition store_overlap : Store :=
  {| users := sample_user <$> ["u1"; "u2"; "u3"; "u4"; "u5"];
     groups := sample_group <$> ["g1"; "g2"];
     userGroups := [sample_member "u1" "g1"; sample_member "u2" "g1";
                    sample_member "u2" "g2"; sample_member "u3" "g2"];
     resources := [sample_resource "r1" "u1" false;
                   sample_resource "r3" "u1" true];
     sharing := [sample_rule "r1" ST_group "g1" "u1";
                 sample_rule "r1" ST_group "g2" "u1";
                 sample_rule "r1" ST_user "u1" "u1";
                 sample_rule "r1" ST_user "u4" "u1";
                 sample_rule "r3" ST_global "global" "u1";
                 sample_rule "r3" ST_user "u2" "u1"] |}.

(** Scenario D of the specification: u5 is a member of g1; r1 is first
    shared with the user u5, then with the group g1, through
    [shareResource]. *)
Definition scenario_D_before : Store :=
  {| users := sample_user <$> ["u1"; "u5"];
     groups := [sample_group "g1"];
     userGroups := [sample_member "u5" "g1"];
     resources := [sample_resource "r1" "u1" false];
     sharing := [] |}.

Definition scenario_D_user_shared : Store :=
  (shareResource "r1" ST_user "u5" "u1" ["read"]
     "2024-01-02T00:00:00.000Z" scenario_D_before).1.

Definition scenario_D : Store :=
  (shareResource "r1" ST_group "g1" "u1" ["read"]
     "2024-01-03T00:00:00.000Z" scenario_D_user_shared).1.

(** ** The forward resolver as the specification words it

    Section 4.1, step 2: all user-type grants first, in the order returned
    by the store, then all group-type grants, with one seen-set; an entry
    has the fields the specification lists. *)
Module SpecEntry.
Record t := mk {
  userId : string;
  accessType : AccessType;
  groupId : option string;
  sharedBy : string;
  sharedAt : string;
  permissions : list string }.
End SpecEntry.

Definition SpecState : Type := gset string * list SpecEntry.t.

(** "user-type grant: if target user exists and not already seen, add
    entry, mark seen." *)
Definition spec_user_grant (s : Store) (st : SpecState)
    (grant : ResourceSharing.t) : SpecState :=
  if decide (user_exists s (ResourceSharing.targetId grant)
             ∧ ResourceSharing.targetId grant ∉ st.1)
  then ({[ ResourceSharing.targetId grant ]} ∪ st.1,
        st.2 ++ [ {| SpecEntry.userId := ResourceSharing.targetId grant;
                     SpecEntry.accessType := AT_direct;
                     SpecEntry.groupId := None;
                     SpecEntry.sharedBy := ResourceSharing.sharedBy grant;
                     SpecEntry.sharedAt := ResourceSharing.sharedAt grant;
                     SpecEntry.permissions := ResourceSharing.permissions grant |} ])
  else st.

(** "group-type grant: fetch that group's members; for each member not
    already seen, add entry, mark seen." *)
Definition spec_group_member (grant : ResourceSharing.t) (st : SpecState)
    (member : UserGroup.t) : SpecState :=
  if decide (UserGroup.userId member ∈ st.1) then st
  else ({[ UserGroup.userId member ]} ∪ st.1,
        st.2 ++ [ {| SpecEntry.userId := UserGroup.userId member;
                     SpecEntry.accessType := AT_group;
                     SpecEntry.groupId := Some (ResourceSharing.targetId grant);
                     SpecEntry.sharedBy := ResourceSharing.sharedBy grant;
                     SpecEntry.sharedAt := ResourceSharing.sharedAt grant;
                     SpecEntry.permissions := ResourceSharing.permissions grant |} ]).

Definition spec_group_grant (s : Store) (st : SpecState)
    (grant : ResourceSharing.t) : SpecState :=
  foldl (spec_group_member grant) st
        (UserGroup_query_byGroup (ResourceSharing.targetId grant) s).

Definition spec_user_first (s : Store) (resourceId : string) : SpecState :=
  let grants := ResourceSharing_query_primary resourceId s in
  foldl (spec_group_grant s)
        (foldl (spec_user_grant s) (∅, []) (filter is_user_rule grants))
        (filter is_group_rule grants).

(** An entry of the service without its [user] object; the entries the
    non-global branch builds all carry the three grant fields. *)
Definition spec_entry_of (d : AccessDetail.t) : SpecEntry.t :=
  {| SpecEntry.userId := AccessDetail.userId d;
     SpecEntry.accessType := AccessDetail.accessType d;
     SpecEntry.groupId := AccessDetail.groupId d;
     SpecEntry.sharedBy := default EmptyString (AccessDetail.sharedBy d);
     SpecEntry.sharedAt := default EmptyString (AccessDetail.sharedAt d);
     SpecEntry.permissions := default [] (AccessDetail.permissions d) |}.

(** The entries of an answer, as pairs of user and provenance. *)
Definition provenance (res : AccessList.t) : list (string * AccessType) :=
  (λ d, (AccessDetail.userId d, AccessDetail.accessType d)) <$> AccessList.users res.

Definition rank_leb (a b : ResourceSharing.t) : bool :=
  (shareType_rank (ResourceSharing.shareType a)
   <=? shareType_rank (ResourceSharing.shareType b))%nat.

Definition spec_provenance (st : SpecState) : list (string * AccessType) :=
  (λ e, (SpecEntry.userId e, SpecEntry.accessType e)) <$> st.2.

(** ** The reverse resolver as the specification words it

    Section 4.2, steps 2 to 4: the candidates are the direct shares, then
    the group shares, then the global resources; they are merged in that
    order, deduplicated by [resourceId], the first candidate of a resource
    winning. *)
Definition entry_id (e : ResourceAccess.t) : string :=
  Resource.resourceId (ResourceAccess.resource e).

Fixpoint first_wins (seen : gset string) (l : list ResourceAccess.t)
  : list ResourceAccess.t :=
  match l with
  | [] => []
  | e :: l' =>
      if decide (entry_id e ∈ seen) then first_wins seen l'
      else e :: first_wins ({[ entry_id e ]} ∪ seen) l'
  end.

(** The shares whose resource still exists, each with its resource. *)
Definition share_candidates (s : Store)
    (mk : ResourceSharing.t → Resource.t → ResourceAccess.t)
    (shares : list ResourceSharing.t) : list ResourceAccess.t :=
  omap (λ share, mk share <$> Resource_get (ResourceSharing.resourceId share) s)
       shares.

Definition direct_candidates (s : Store) (userId : string) : list ResourceAccess.t :=
  share_candidates s direct_access (ResourceSharing_query_byTarget userId s).

Definition group_candidates (s : Store) (userId : string) : list ResourceAccess.t :=
  share_candidates s group_access
    (groupShares_of s (UserGroup.groupId <$> UserGroup_query_primary userId s)).

Definition global_candidates (s : Store) : list ResourceAccess.t :=
  global_access <$> Resource_query_globalResources s.

Definition candidates (s : Store) (userId : string) : list ResourceAccess.t :=
  direct_candidates s userId ++ group_candidates s userId ++ global_candidates s.

Definition merged_by_priority (s : Store) (userId : string)
  : list ResourceAccess.t :=
  first_wins ∅ (candidates s userId).

(** The resources of a list of entries. *)
Definition ids_of (l : list ResourceAccess.t) : gset string :=
  list_to_set (entry_id <$> l).

(** ** The derived global state (invariant I1) *)

(** A [ShareGrant(resourceId, global, "global")] exists. *)
Definition has_global_grant (resourceId : string) (s : Store) : bool :=
  key_exists resourceId ST_global "global" s.

(** I1: for every resource, [isGlobal] is true iff its global grant
    exists. *)
Definition I1 (s : Store) : Prop :=
  Forall (λ r, Resource.isGlobal r = has_global_grant (Resource.resourceId r) s)
         (resources s).

#[global] Instance I1_dec s : Decision (I1 s).
Proof. unfold I1. apply _. Defined.

(** The target under which [shareResource] files the rule: the sentinel
    for a ['global'] share, the target given otherwise. *)
Definition effective_target (shareType : ShareType) (targetId : string) : string :=
  match shareType with ST_global => "global" | _ => targetId end.

(** ** Dangling references *)

(** A user-type rule whose target user is gone. *)
Definition dangling_user_rule (s : Store) (r : ResourceSharing.t) : Prop :=
  ResourceSharing.shareType r = ST_user
  ∧ User_get (ResourceSharing.targetId r) s = None.

(** A rule whose resource is gone. *)
Definition dangling_resource_rule (s : Store) (r : ResourceSharing.t) : Prop :=
  Resource_get (ResourceSharing.resourceId r) s = None.

#[global] Instance dangling_user_rule_dec s r : Decision (dangling_user_rule s r).
Proof. unfold dangling_user_rule. apply _. Defined.

#[global] Instance dangling_resource_rule_dec s r :
  Decision (dangling_resource_rule s r).
Proof. unfold dangling_resource_rule. apply _. Defined.

(** The store without the dangling rules of either kind. *)
Definition without_dangling_user_rules (s : Store) : Store :=
  with_sharing (filter (λ r, ¬ dangling_user_rule s r) (sharing s)) s.

Definition without_dangling_resource_rules (s : Store) : Store :=
  with_sharing (filter (λ r, ¬ dangling_resource_rule s r) (sharing s)) s.

Definition with_groups (l : list Group.t) (s : Store) : Store :=
  {| users := users s; groups := l; userGroups := userGroups s;
     resources := resources s; sharing := sharing s |}.

(** The group g1 has been deleted ([Group.delete] removes the group item
    only); its member row and the grant of r1 to it are still there. *)
Definition store_deleted_group : Store :=
  {| users := [sample_user "u1"];
     groups := [];
     userGroups := [sample_member "u1" "g1"];
     resources := [sample_resource "r1" "u1" false];
     sharing := [sample_rule "r1" ST_group "g1" "u1"] |}.

(** The user u9 and the resource r9 have been deleted; grants that name
    them are still there. *)
Definition store_dangling : Store :=
  {| users := sample_user <$> ["u1"; "u2"];
     groups := [sample_group "g1"];
     userGroups := [sample_member "u2" "g1"; sample_member "u9" "g1"];
     resources := [sample_resource "r1" "u1" false];
     sharing := [sample_rule "r1" ST_group "g1" "u1";
                 sample_rule "r1" ST_user "u1" "u1";
                 sample_rule "r1" ST_user "u9" "u1";
                 sample_rule "r9" ST_user "u1" "u1"] |}.

(** ** Identifiers shared between a user and a group

    Identifiers are chosen by the client ([POST /users], [POST /groups],
    [POST /users/:id/groups]).  Here a user and a group are both called
    "admin"; u1 is a member of the group; r1 has been shared with the
    user. *)
Definition store_same_id : Store :=
  {| users := sample_user <$> ["admin"; "u1"];
     groups := [sample_group "admin"];
     userGroups := [sample_member "u1" "admin"];
     resources := [sample_resource "r1" "admin" false];
     sharing := [sample_rule "r1" ST_user "admin" "admin"] |}.

(** The users an access list names, the resources a resource list names. *)
Definition listed_users (res : AccessList.t) : list string :=
  AccessDetail.userId <$> AccessList.users res.

Definition listed_resources (res : ResourceList.t) : list string :=
  entry_id <$> ResourceList.resources res.

(** The identifiers the reverse resolver looks up for a user are typed:
    a rule that targets the user's identifier is a user-type rule, a rule
    that targets the identifier of one of the user's groups is a
    group-type rule. *)
Definition targets_typed_for (s : Store) (userId : string) : Prop :=
  (∀ rule, rule ∈ sharing s →
     ResourceSharing.targetId rule = userId →
     ResourceSharing.shareType rule = ST_user)
  ∧ (∀ rule ug, rule ∈ sharing s → ug ∈ userGroups s →
       UserGroup.userId ug = userId →
       ResourceSharing.targetId rule = UserGroup.groupId ug →
       ResourceSharing.shareType rule = ST_group).

(** ** Reporting: [getResourcesWithUserCount], [getUsersWithResourceCount] *)

(** [Resource.scan.go()] *)
Definition Resource_scan (s : Store) : list Resource.t := resources s.

Module ResourceCount.
Record t := mk {
  resource : Resource.t;
  userCount : nat;
  accessType : ListAccessType }.
End ResourceCount.

Module UserCount.
Record t := mk {
  user : User.t;
  resourceCount : nat }.
End UserCount.

(** The [catch] blocks of the two reports wrap the error of the resolver
    that threw. *)
Inductive ReportError :=
  | FailedToGetResourcesWithUserCount (e : Error)
  | FailedToGetUsersWithResourceCount (e : Error).

(** [for (const resource of allResources.data)]: the first resolver call
    that throws ends the loop. *)
Fixpoint resources_with_user_count_loop (s : Store) (rs : list Resource.t)
    (results : list ResourceCount.t) : ReportError + list ResourceCount.t :=
  match rs with
  | [] => inr results
  | resource :: rs' =>
      match getResourceAccessList (Resource.resourceId resource) s with
      | inl e => inl (FailedToGetResourcesWithUserCount e)
      | inr accessList =>
          resources_with_user_count_loop s rs'
            (results ++
               [ {| ResourceCount.resource := resource;
                    ResourceCount.userCount := AccessList.totalUsers accessList;
                    ResourceCount.accessType := AccessList.accessType accessList |} ])
      end
  end.

Definition getResourcesWithUserCount (s : Store)
  : ReportError + list ResourceCount.t :=
  resources_with_user_count_loop s (Resource_scan s) [].

(** [for (const user of allUsers.data)] *)
Fixpoint users_with_resource_count_loop (s : Store) (us : list User.t)
    (results : list UserCount.t) : ReportError + list UserCount.t :=
  match us with
  | [] => inr results
  | user :: us' =>
      match getUserResources (User.userId user) s with
      | inl e => inl (FailedToGetUsersWithResourceCount e)
      | inr userResources =>
          users_with_resource_count_loop s us'
            (results ++
               [ {| UserCount.user := user;
                    UserCount.resourceCount :=
                      ResourceList.totalResources userResources |} ])
      end
  end.

Definition getUsersWithResourceCount (s : Store)
  : ReportError + list UserCount.t :=
  users_with_resource_count_loop s (User_scan s) [].

(** The count the forward resolver gives for a resource, the count the
    reverse resolver gives for a user; 0 stands for a thrown error. *)
Definition user_count (s : Store) (resourceId : string) : nat :=
  match getResourceAccessList resourceId s with
  | inr accessList => AccessList.totalUsers accessList
  | inl _ => 0
  end.

Definition resource_count (s : Store) (userId : string) : nat :=
  match getUserResources userId s with
  | inr userResources => ResourceList.totalResources userResources
  | inl _ => 0
  end.

(** The users the forward resolver lists for a resource and the
    resources the reverse resolver lists for a user, as sets; empty when
    the resolver throws. *)
Definition access_set (s : Store) (resourceId : string) : gset string :=
  match getResourceAccessList resourceId s with
  | inr accessList => list_to_set (listed_users accessList)
  | inl _ => ∅
  end.

Definition resource_set (s : Store) (userId : string) : gset string :=
  match getUserResources userId s with
  | inr userResources => list_to_set (listed_resources userResources)
  | inl _ => ∅
  end.

(** The rows the two reports push. *)
Definition resource_row (resource : Resource.t) (accessList : AccessList.t)
  : ResourceCount.t :=
  {| ResourceCount.resource := resource;
     ResourceCount.userCount := AccessList.totalUsers accessList;
     ResourceCount.accessType := AccessList.accessType accessList |}.

Definition user_row (user : User.t) (userResources : ResourceList.t)
  : UserCount.t :=
  {| UserCount.user := user;
     UserCount.resourceCount := ResourceList.totalResources userResources |}.

(** The existence check [shareResource] makes on its target. *)
Definition target_exists (shareType : ShareType) (targetId : string)
    (s : Store) : Prop :=
  match shareType with
  | ST_user => is_Some (User_get targetId s)
  | ST_group => is_Some (Group_get targetId s)
  | ST_global => True
  end.

#[global] Instance target_exists_dec st tid s : Decision (target_exists st tid s).
Proof. destruct st; simpl; apply _. Defined.

(** The identifiers of every registered user are typed (see
    [targets_typed_for]), written over the tables. *)
Definition typed_store (s : Store) : Prop :=
  Forall (λ u,
    Forall (λ rule,
      (ResourceSharing.targetId rule = User.userId u →
       ResourceSharing.shareType rule = ST_user)
      ∧ Forall (λ ug,
          UserGroup.userId ug = User.userId u →
          ResourceSharing.targetId rule = UserGroup.groupId ug →
          ResourceSharing.shareType rule = ST_group) (userGroups s))
      (sharing s))
    (users s).

#[global] Instance typed_store_dec s : Decision (typed_store s).
Proof. unfold typed_store. apply _. Defined.

(** ** The other entity methods: [create] and [delete]

    As for the sharing rules, [create] writes an item only if no item has
    its key and throws otherwise ([None]); [delete] removes the item with
    the key given and does nothing when there is none.  A new user, group
    or resource is listed after the items the table holds; a new member
    row takes its place in the index, whose key is the user followed by
    the group. *)
Definition with_users (l : list User.t) (s : Store) : Store :=
  {| users := l; groups := groups s; userGroups := userGroups s;
     resources := resources s; sharing := sharing s |}.

Definition with_userGroups (l : list UserGroup.t) (s : Store) : Store :=
  {| users := users s; groups := groups s; userGroups := l;
     resources := resources s; sharing := sharing s |}.

Definition User_create (item : User.t) (s : Store) : option Store :=
  if existsb (λ u, bool_decide (User.userId u = User.userId item)) (users s)
  then None else Some (with_users (users s ++ [item]) s).

Definition Group_create (item : Group.t) (s : Store) : option Store :=
  if existsb (λ g, bool_decide (Group.groupId g = Group.groupId item)) (groups s)
  then None else Some (with_groups (groups s ++ [item]) s).

Definition Resource_create (item : Resource.t) (s : Store) : option Store :=
  if existsb (λ r, bool_decide (Resource.resourceId r = Resource.resourceId item))
       (resources s)
  then None else Some (with_resources (resources s ++ [item]) s).

Definition member_key (ug : UserGroup.t) : string * string :=
  (UserGroup.userId ug, UserGroup.groupId ug).

Definition member_leb (a b : UserGroup.t) : bool :=
  String.ltb (UserGroup.userId a) (UserGroup.userId b)
  || (bool_decide (UserGroup.userId a = UserGroup.userId b)
      && String.leb (UserGroup.groupId a) (UserGroup.groupId b)).

Fixpoint member_insert (x : UserGroup.t) (l : list UserGroup.t)
  : list UserGroup.t :=
  match l with
  | [] => [x]
  | y :: l' => if member_leb x y then x :: y :: l' else y :: member_insert x l'
  end.

Definition UserGroup_create (item : UserGroup.t) (s : Store) : option Store :=
  if existsb (λ ug, bool_decide (member_key ug = member_key item)) (userGroups s)
  then None else Some (with_userGroups (member_insert item (userGroups s)) s).

Definition User_delete (userId : string) (s : Store) : Store :=
  with_users (filter (λ u, User.userId u ≠ userId) (users s)) s.

Definition Group_delete (groupId : string) (s : Store) : Store :=
  with_groups (filter (λ g, Group.groupId g ≠ groupId) (groups s)) s.

Definition Resource_delete (resourceId : string) (s : Store) : Store :=
  with_resources
    (filter (λ r, Resource.resourceId r ≠ resourceId) (resources s)) s.

Definition UserGroup_delete (userId groupId : string) (s : Store) : Store :=
  with_userGroups
    (filter (λ ug, member_key ug ≠ (userId, groupId)) (userGroups s)) s.

(** ** The seeding script (src/utils/setup.js) *)

(** The sample data of [setupSampleData], as the script lists them. *)
Definition setup_users : list (string * string * string) :=
  [("user1", "alice@example.com", "Alice Johnson");
   ("user2", "bob@example.com", "Bob Smith");
   ("user3", "charlie@example.com", "Charlie Brown");
   ("user4", "diana@example.com", "Diana Prince");
   ("user5", "eve@example.com", "Eve Wilson")].

Definition setup_groups : list (string * string * string) :=
  [("group1", "Developers", "Software development team");
   ("group2", "Designers", "UI/UX design team");
   ("group3", "Managers", "Management team");
   ("group4", "QA", "Quality assurance team")].

Definition setup_memberships : list (string * string) :=
  [("user1", "group1"); ("user2", "group1"); ("user3", "group2");
   ("user4", "group2"); ("user4", "group3"); ("user5", "group4")].

Definition setup_resources
  : list (string * string * string * string * string * bool) :=
  [("resource1", "Project Alpha Documentation",
    "Technical documentation for Project Alpha", "document", "user1", false);
   ("resource2", "Design System Guidelines",
    "UI/UX design system and guidelines", "document", "user3", false);
   ("resource3", "Company Handbook",
    "Company policies and procedures", "document", "user4", true);
   ("resource4", "API Documentation",
    "REST API documentation", "document", "user2", false);
   ("resource5", "Test Cases Repository",
    "Automated test cases and scripts", "repository", "user5", false)].

Definition setup_rules
  : list (string * ShareType * string * string * list string) :=
  [("resource1", ST_group, "group1", "user1", ["read"]);
   ("resource2", ST_group, "group2", "user3", ["read"; "write"]);
   ("resource4", ST_user, "user1", "user2", ["read"]);
   ("resource4", ST_user, "user3", "user2", ["read"]);
   ("resource5", ST_group, "group4", "user5", ["read"; "write"])].

(** The items handed to [create]; the time attributes take their
    default, the time of the call ([createdAt] and [updatedAt] are read
    at the same call and one time stands for both). *)
Definition user_item (now : string) (d : string * string * string) : User.t :=
  let '(userId, email, name) := d in
  {| User.userId := userId; User.email := email; User.name := name;
     User.createdAt := now; User.updatedAt := now |}.

Definition group_item (now : string) (d : string * string * string) : Group.t :=
  let '(groupId, name, description) := d in
  {| Group.groupId := groupId; Group.name := name;
     Group.description := description;
     Group.createdAt := now; Group.updatedAt := now |}.

Definition member_item (now : string) (d : string * string) : UserGroup.t :=
  let '(userId, groupId) := d in
  {| UserGroup.userId := userId; UserGroup.groupId := groupId;
     UserGroup.joinedAt := now |}.

Definition resource_item (now : string)
    (d : string * string * string * string * string * bool) : Resource.t :=
  let '(resourceId, name, description, type, ownerId, isGlobal) := d in
  {| Resource.resourceId := resourceId; Resource.name := name;
     Resource.description := description; Resource.type := type;
     Resource.ownerId := ownerId; Resource.isGlobal := isGlobal;
     Resource.createdAt := now; Resource.updatedAt := now |}.

Definition rule_item (now : string)
    (d : string * ShareType * string * string * list string) : ResourceSharing.t :=
  let '(resourceId, shareType, targetId, sharedBy, permissions) := d in
  new_rule resourceId shareType targetId sharedBy permissions now.

(** [try { await Entity.create(data).go() } catch (error) { log }]: a
    failed [create] is logged and the loop goes on. *)
Definition try_create {A} (create : A → Store → option Store)
    (s : Store) (item : A) : Store :=
  default s (create item s).

(** [setupSampleData]; [clock k] is the time of the [k]-th [create]. *)
Definition setupSampleData (clock : nat → string) (s : Store) : Store :=
  let s1 := foldl (try_create User_create) s
              (imap (λ i, user_item (clock i)) setup_users) in
  let s2 := foldl (try_create Group_create) s1
              (imap (λ i, group_item (clock (5 + i))) setup_groups) in
  let s3 := foldl (try_create UserGroup_create) s2
              (imap (λ i, member_item (clock (9 + i))) setup_memberships) in
  let s4 := foldl (try_create Resource_create) s3
              (imap (λ i, resource_item (clock (15 + i))) setup_resources) in
  foldl (try_create ResourceSharing_create) s4
    (imap (λ i, rule_item (clock (20 + i))) setup_rules).

Definition empty_store : Store :=
  {| users := []; groups := []; userGroups := []; resources := [];
     sharing := [] |}.

(** What a [try]-wrapped [create] does to the one table it writes:
    [same x y] tells that [y] has the key of [x], [ins] is where the
    table puts a new item. *)
Definition try_in {A} (same : A → A → bool) (ins : A → list A → list A)
    (l : list A) (x : A) : list A :=
  if existsb (same x) l then l else ins x l.

Definition same_user (x y : User.t) : bool :=
  bool_decide (User.userId y = User.userId x).
Definition same_group (x y : Group.t) : bool :=
  bool_decide (Group.groupId y = Group.groupId x).
Definition same_member (x y : UserGroup.t) : bool :=
  bool_decide (member_key y = member_key x).
Definition same_resource (x y : Resource.t) : bool :=
  bool_decide (Resource.resourceId y = Resource.resourceId x).
Definition same_rule (x y : ResourceSharing.t) : bool :=
  bool_decide (same_key (ResourceSharing.resourceId x)
                 (ResourceSharing.shareType x) (ResourceSharing.targetId x) y).

Definition append_item {A} (x : A) (l : list A) : list A := l ++ [x].

(** ** Route handlers *)

(** What a handler sends: [res.status(n).json(body)] ([res.json(body)]
    is status 200), the error object [{ error }] built by the handler,
    or the answer of its [catch] block to an error thrown by an entity,
    whose status the handler sets and whose text ElectroDB sets. *)
Inductive Reply (A : Type) :=
  | Json (status : nat) (body : A)
  | JsonError (status : nat) (error : string)
  | EntityError (status : nat).
Arguments Json {A} status body.
Arguments JsonError {A} status error.
Arguments EntityError {A} status.

(** The test [!field] on a field of the body that holds a string or is
    left out. *)
Definition missing (field : option string) : bool :=
  match field with
  | None => true
  | Some EmptyString => true
  | Some _ => false
  end.

(** POST /users/:id/groups (src/routes/users.js): the user is looked up,
    the group is not. *)
Definition post_users_id_groups (id : string) (groupId : option string)
    (now : string) (s : Store) : Reply UserGroup.t * Store :=
  if missing groupId then (JsonError 400 "groupId is required", s)
  else
    match User_get id s with
    | None => (JsonError 404 "User not found", s)
    | Some _ =>
        let item := {| UserGroup.userId := id;
                       UserGroup.groupId := default EmptyString groupId;
                       UserGroup.joinedAt := now |} in
        match UserGroup_create item s with
        | Some s' => (Json 201 item, s')
        | None => (EntityError 500, s)
        end
    end.

(** The body of POST /resources; [isGlobal] is a boolean or left out. *)
Module ResourceBody.
Record t := mk {
    resourceId : option string;
    name : option string;
    description : option string;
    type : option string;
    ownerId : option string;
    isGlobal : option bool }.
End ResourceBody.

(** The messages of the errors.  The text of the error of a [create] on
    a taken key is ElectroDB's: it is the argument [conflict]. *)
Definition cause_message (conflict : string) (c : Cause) : string :=
  match c with
  | ResourceNotFound => "Resource not found"
  | UserNotFound => "User not found"
  | TargetUserNotFound => "Target user not found"
  | TargetGroupNotFound => "Target group not found"
  | ItemExists => conflict
  end.

Definition error_message (conflict : string) (e : Error) : string :=
  match e with
  | FailedToGetResourceAccessList c =>
      "Failed to get resource access list: " +:+ cause_message conflict c
  | FailedToGetUserResources c =>
      "Failed to get user resources: " +:+ cause_message conflict c
  | FailedToShareResource c =>
      "Failed to share resource: " +:+ cause_message conflict c
  | FailedToUnshareResource c =>
      "Failed to unshare resource: " +:+ cause_message conflict c
  end.

(** [text.includes(search)] *)
Fixpoint includes (search text : string) : bool :=
  String.prefix search text
  || match text with
     | EmptyString => false
     | String _ text' => includes search text'
     end.

(** The [catch] block of the two resolver routes. *)
Definition not_found_or_500 {A} (conflict : string) (error : Error) : Reply A :=
  if includes "not found" (error_message conflict error)
  then JsonError 404 (error_message conflict error)
  else JsonError 500 (error_message conflict error).

(** GET /resource/:id/access-list *)
Definition get_access_list (conflict : string) (id : string) (s : Store)
  : Reply AccessList.t :=
  match getResourceAccessList id s with
  | inr accessList => Json 200 accessList
  | inl error => not_found_or_500 conflict error
  end.

(** GET /resource/user/:id/resources *)
Definition get_user_resources (conflict : string) (id : string) (s : Store)
  : Reply ResourceList.t :=
  match getUserResources id s with
  | inr userResources => Json 200 userResources
  | inl error => not_found_or_500 conflict error
  end.

(** Whether a rule names the user, directly or through a member row. *)
Definition rule_reaches (ugs : list UserGroup.t) (rule : ResourceSharing.t)
    (userId : string) : Prop :=
  match ResourceSharing.shareType rule with
  | ST_user => ResourceSharing.targetId rule = userId
  | ST_group =>
      ∃ ug, ug ∈ ugs ∧ UserGroup.groupId ug = ResourceSharing.targetId rule
            ∧ UserGroup.userId ug = userId
  | ST_global => False
  end.

(** ** The entries pushed by a pass *)

(** The first occurrence of each identifier of a list, in order, leaving
    out the identifiers of [seen]. *)
Fixpoint first_seen_from (seen : gset string) (l : list string) : list string :=
  match l with
  | [] => []
  | x :: l' =>
      if decide (x ∈ seen) then first_seen_from seen l'
      else x :: first_seen_from ({[ x ]} ∪ seen) l'
  end.

Definition first_seen (l : list string) : list string := first_seen_from ∅ l.

(** The user and the access type of the entries pushed so far. *)
Definition state_provenance (st : AccessState) : list (string * AccessType) :=
  (λ d, (AccessDetail.userId d, AccessDetail.accessType d)) <$> st.2.

(** * The store as DynamoDB and ElectroDB serve it

    The definitions above take an identifier for its key and every read
    for complete.  The store does neither.  ElectroDB files an item under
    keys built from the lower-cased values of its key attributes and
    keeps the attributes as they were given, so [User.get({ userId:
    'U5' })] finds the user created as ['u5'], whose [userId] still reads
    ['u5']; the [Set]s of the service hold the strings as they were
    given.  And [scan.go()] and [query.go()] return one page of items:
    no call of the service follows the cursor.  The module [Dynamo]
    models the service over such a store: keys are compared after
    lower-casing, a query returns the items of its partition in the
    order of the sort key of its index, and each read that returns a list
    returns the first page of it. *)
Module Dynamo.

(** [String.prototype.toLowerCase] on the letters A to Z (identifiers
    are ASCII here). *)
Definition lower_ascii (c : Ascii.ascii) : Ascii.ascii :=
  let n := Ascii.nat_of_ascii c in
  if ((65 <=? n) && (n <=? 90))%nat then Ascii.ascii_of_nat (n + 32) else c.

Fixpoint fold_key (s : string) : string :=
  match s with
  | EmptyString => EmptyString
  | String c s' => String (lower_ascii c) (fold_key s')
  end.

(** Two values give the same key. *)
Definition key_eq (a b : string) : Prop := fold_key a = fold_key b.

#[global] Instance key_eq_dec a b : Decision (key_eq a b).
Proof. unfold key_eq. apply _. Defined.

(** The reads that return a list, each with the partition it reads (as
    the key names it). *)
Inductive Read :=
  | Scan_users
  | Scan_groups
  | Scan_members
  | Scan_resources
  | Scan_sharing
  | Query_members_primary (userId : string)
  | Query_members_byGroup (groupId : string)
  | Query_sharing_primary (resourceId : string)
  | Query_sharing_byTarget (targetId : string)
  | Query_globalResources.

(** How many of the entity's items the first page of a read holds.
    DynamoDB cuts a page after one megabyte of the table read, before
    ElectroDB sets aside the items of other entities (the member rows
    share the table of the users), so the number is a datum of the
    database and not of the list alone. *)
Definition Pages : Type := Read → nat.

Definition first_page {A} (pg : Pages) (r : Read) (l : list A) : list A :=
  take (pg r) l.

(** The items of a partition in ascending order of a sort key; items
    with equal sort keys keep their order. *)
Fixpoint insert_by {A} (leb : A → A → bool) (x : A) (l : list A) : list A :=
  match l with
  | [] => [x]
  | y :: l' => if leb x y then x :: y :: l' else y :: insert_by leb x l'
  end.

Definition index_sort {A} (leb : A → A → bool) (l : list A) : list A :=
  foldr (insert_by leb) [] l.

Definition by_key {A} (key : A → string) (a b : A) : bool :=
  String.leb (fold_key (key a)) (fold_key (key b)).

(** ** Reads *)

Definition User_get (userId : string) (s : Store) : option User.t :=
  List.find (λ u, bool_decide (key_eq (User.userId u) userId)) (users s).

Definition Group_get (groupId : string) (s : Store) : option Group.t :=
  List.find (λ g, bool_decide (key_eq (Group.groupId g) groupId)) (groups s).

Definition Resource_get (resourceId : string) (s : Store) : option Resource.t :=
  List.find (λ r, bool_decide (key_eq (Resource.resourceId r) resourceId))
    (resources s).

(** [User.scan.go()], [Resource.scan.go()]: the first page, in the order
    of the scan, which is the order of the list. *)
Definition User_scan (pg : Pages) (s : Store) : list User.t :=
  first_page pg Scan_users (users s).

Definition Resource_scan (pg : Pages) (s : Store) : list Resource.t :=
  first_page pg Scan_resources (resources s).

(** [Resource.query.globalResources({ isGlobal: true }).go()]: index
    gsi2, sorted by [createdAt]. *)
Definition Resource_query_globalResources (pg : Pages) (s : Store)
  : list Resource.t :=
  first_page pg Query_globalResources
    (index_sort (by_key Resource.createdAt)
       (filter (λ r, Resource.isGlobal r = true) (resources s))).

(** [UserGroup.query.primary({ userId }).go()]: sorted by [groupId]. *)
Definition UserGroup_query_primary (pg : Pages) (userId : string) (s : Store)
  : list UserGroup.t :=
  first_page pg (Query_members_primary (fold_key userId))
    (index_sort (by_key UserGroup.groupId)
       (filter (λ ug, key_eq (UserGroup.userId ug) userId) (userGroups s))).

(** [UserGroup.query.byGroup({ groupId }).go()]: index gsi1, sorted by
    [userId]. *)
Definition UserGroup_query_byGroup (pg : Pages) (groupId : string) (s : Store)
  : list UserGroup.t :=
  first_page pg (Query_members_byGroup (fold_key groupId))
    (index_sort (by_key UserGroup.userId)
       (filter (λ ug, key_eq (UserGroup.groupId ug) groupId) (userGroups s))).

(** The sort key of the primary index of the sharing table:
    [shareType], then [targetId]. *)
Definition sk_leb (a b : ResourceSharing.t) : bool :=
  let ra := shareType_rank (ResourceSharing.shareType a) in
  let rb := shareType_rank (ResourceSharing.shareType b) in
  (ra <? rb)%nat
  || ((ra =? rb)%nat
      && String.leb (fold_key (ResourceSharing.targetId a))
                    (fold_key (ResourceSharing.targetId b))).

(** [ResourceSharing.query.primary({ resourceId }).go()] *)
Definition ResourceSharing_query_primary (pg : Pages) (resourceId : string)
    (s : Store) : list ResourceSharing.t :=
  first_page pg (Query_sharing_primary (fold_key resourceId))
    (index_sort sk_leb
       (filter (λ r, key_eq (ResourceSharing.resourceId r) resourceId)
          (sharing s))).

(** [ResourceSharing.query.byTarget({ targetId }).go()]: index gsi1,
    keyed by [targetId] alone and sorted by [resourceId]. *)
Definition ResourceSharing_query_byTarget (pg : Pages) (targetId : string)
    (s : Store) : list ResourceSharing.t :=
  first_page pg (Query_sharing_byTarget (fold_key targetId))
    (index_sort (by_key ResourceSharing.resourceId)
       (filter (λ r, key_eq (ResourceSharing.targetId r) targetId)
          (sharing s))).

(** ** Forward resolver *)

Definition process_member (s : Store) (rule : ResourceSharing.t)
    (st : AccessState) (member : UserGroup.t) : AccessState :=
  if decide (UserGroup.userId member ∈ st.1) then st
  else match User_get (UserGroup.userId member) s with
       | Some u => ({[ UserGroup.userId member ]} ∪ st.1,
                    st.2 ++ [group_detail rule member u])
       | None => st
       end.

Definition process_rule (pg : Pages) (s : Store) (st : AccessState)
    (rule : ResourceSharing.t) : AccessState :=
  match ResourceSharing.shareType rule with
  | ST_user =>
      match User_get (ResourceSharing.targetId rule) s with
      | Some u => ({[ ResourceSharing.targetId rule ]} ∪ st.1,
                   st.2 ++ [direct_detail rule u])
      | None => st
      end
  | ST_group =>
      foldl (process_member s rule) st
            (UserGroup_query_byGroup pg (ResourceSharing.targetId rule) s)
  | ST_global => st
  end.

Definition getResourceAccessList (pg : Pages) (resourceId : string) (s : Store)
  : Error + AccessList.t :=
  match Resource_get resourceId s with
  | None => inl (FailedToGetResourceAccessList ResourceNotFound)
  | Some resource =>
      if Resource.isGlobal resource then
        inr (access_list resourceId LT_global
               (foldl add_global_user (∅, []) (User_scan pg s)))
      else
        inr (access_list resourceId LT_specific
               (foldl (process_rule pg s) (∅, [])
                  (ResourceSharing_query_primary pg resourceId s)))
  end.

(** ** Reverse resolver *)

Definition process_share (s : Store)
    (mk : ResourceSharing.t → Resource.t → ResourceAccess.t)
    (st : ResourceState) (share : ResourceSharing.t) : ResourceState :=
  if decide (ResourceSharing.resourceId share ∈ st.1) then st
  else match Resource_get (ResourceSharing.resourceId share) s with
       | Some r => ({[ ResourceSharing.resourceId share ]} ∪ st.1,
                    st.2 ++ [mk share r])
       | None => st
       end.

Definition groupShares_of (pg : Pages) (s : Store) (groupIds : list string)
  : list ResourceSharing.t :=
  concat (map (λ groupId, ResourceSharing_query_byTarget pg groupId s) groupIds).

Definition getUserResources (pg : Pages) (userId : string) (s : Store)
  : Error + ResourceList.t :=
  match User_get userId s with
  | None => inl (FailedToGetUserResources UserNotFound)
  | Some _ =>
      let userGroups := UserGroup_query_primary pg userId s in
      let groupIds := map UserGroup.groupId userGroups in
      let directShares := ResourceSharing_query_byTarget pg userId s in
      let groupShares := groupShares_of pg s groupIds in
      let globalResources := Resource_query_globalResources pg s in
      let st1 := foldl (process_share s direct_access) (∅, []) directShares in
      let st2 := foldl (process_share s group_access) st1 groupShares in
      let st3 := foldl process_global st2 globalResources in
      inr {| ResourceList.userId := userId;
             ResourceList.totalResources := size st3.1;
             ResourceList.resources := st3.2 |}
  end.

(** ** Reports *)

Fixpoint resources_with_user_count_loop (pg : Pages) (s : Store)
    (rs : list Resource.t) (results : list ResourceCount.t)
  : ReportError + list ResourceCount.t :=
  match rs with
  | [] => inr results
  | resource :: rs' =>
      match getResourceAccessList pg (Resource.resourceId resource) s with
      | inl e => inl (FailedToGetResourcesWithUserCount e)
      | inr accessList =>
          resources_with_user_count_loop pg s rs'
            (results ++ [resource_row resource accessList])
      end
  end.

Definition getResourcesWithUserCount (pg : Pages) (s : Store)
  : ReportError + list ResourceCount.t :=
  resources_with_user_count_loop pg s (Resource_scan pg s) [].

Fixpoint users_with_resource_count_loop (pg : Pages) (s : Store)
    (us : list User.t) (results : list UserCount.t)
  : ReportError + list UserCount.t :=
  match us with
  | [] => inr results
  | user :: us' =>
      match getUserResources pg (User.userId user) s with
      | inl e => inl (FailedToGetUsersWithResourceCount e)
      | inr userResources =>
          users_with_resource_count_loop pg s us'
            (results ++ [user_row user userResources])
      end
  end.

Definition getUsersWithResourceCount (pg : Pages) (s : Store)
  : ReportError + list UserCount.t :=
  users_with_resource_count_loop pg s (User_scan pg s) [].

(** ** Writes *)

(** The key of a sharing rule, as the store compares it. *)
Definition same_key (resourceId : string) (shareType : ShareType)
    (targetId : string) (r : ResourceSharing.t) : Prop :=
  key_eq (ResourceSharing.resourceId r) resourceId
  ∧ ResourceSharing.shareType r = shareType
  ∧ key_eq (ResourceSharing.targetId r) targetId.

#[global] Instance same_key_dec rid st tid r : Decision (same_key rid st tid r).
Proof. unfold same_key. apply _. Defined.

(** [ResourceSharing.create]: the item is written as given unless its
    key is taken. *)
Definition ResourceSharing_create (item : ResourceSharing.t) (s : Store)
  : option Store :=
  if existsb (λ r, bool_decide (same_key (ResourceSharing.resourceId item)
                                  (ResourceSharing.shareType item)
                                  (ResourceSharing.targetId item) r))
       (sharing s)
  then None
  else Some (with_sharing (sharing s ++ [item]) s).

Definition ResourceSharing_delete (rid : string) (st : ShareType) (tid : string)
    (s : Store) : Store :=
  with_sharing (filter (λ r, ¬ same_key rid st tid r) (sharing s)) s.

(** [Resource.update({ resourceId }).set({ isGlobal, updatedAt })] *)
Definition Resource_update_isGlobal (rid : string) (b : bool) (now : string)
    (s : Store) : Store :=
  match Resource_get rid s with
  | Some _ =>
      with_resources
        (map (λ r, if bool_decide (key_eq (Resource.resourceId r) rid)
                   then set_isGlobal b now r else r) (resources s)) s
  | None =>
      with_resources
        (resources s ++
           [ {| Resource.resourceId := rid; Resource.name := EmptyString;
                Resource.description := EmptyString; Resource.type := EmptyString;
                Resource.ownerId := EmptyString; Resource.isGlobal := b;
                Resource.createdAt := EmptyString; Resource.updatedAt := now |} ]) s
  end.

Definition create_rule (rule : ResourceSharing.t) (s : Store)
  : Store * (Error + ResourceSharing.t) :=
  match ResourceSharing_create rule s with
  | Some s' => (s', inr rule)
  | None => (s, inl (FailedToShareResource ItemExists))
  end.

Definition shareResource (resourceId : string) (shareType : ShareType)
    (targetId sharedBy : string) (permissions : list string) (now : string)
    (s : Store) : Store * (Error + ResourceSharing.t) :=
  match Resource_get resourceId s with
  | None => (s, inl (FailedToShareResource ResourceNotFound))
  | Some _ =>
      match shareType with
      | ST_user =>
          match User_get targetId s with
          | None => (s, inl (FailedToShareResource TargetUserNotFound))
          | Some _ =>
              create_rule
                (new_rule resourceId shareType targetId sharedBy permissions now) s
          end
      | ST_group =>
          match Group_get targetId s with
          | None => (s, inl (FailedToShareResource TargetGroupNotFound))
          | Some _ =>
              create_rule
                (new_rule resourceId shareType targetId sharedBy permissions now) s
          end
      | ST_global =>
          let s1 := Resource_update_isGlobal resourceId true now s in
          create_rule
            (new_rule resourceId shareType "global" sharedBy permissions now) s1
      end
  end.

(** [Resource.create]: the item is written as given unless its key is
    taken. *)
Definition Resource_create (item : Resource.t) (s : Store) : option Store :=
  if existsb (λ r, bool_decide (key_eq (Resource.resourceId r)
                                  (Resource.resourceId item))) (resources s)
  then None else Some (with_resources (resources s ++ [item]) s).

(** [delete] removes the item filed under the key. *)
Definition User_delete (userId : string) (s : Store) : Store :=
  with_users (filter (λ u, ¬ key_eq (User.userId u) userId) (users s)) s.

Definition Group_delete (groupId : string) (s : Store) : Store :=
  with_groups (filter (λ g, ¬ key_eq (Group.groupId g) groupId) (groups s)) s.

Definition Resource_delete (resourceId : string) (s : Store) : Store :=
  with_resources
    (filter (λ r, ¬ key_eq (Resource.resourceId r) resourceId) (resources s)) s.

Definition UserGroup_delete (userId groupId : string) (s : Store) : Store :=
  with_userGroups
    (filter (λ ug, ¬ (key_eq (UserGroup.userId ug) userId
                      ∧ key_eq (UserGroup.groupId ug) groupId))
       (userGroups s)) s.

(** ** The cleaning script (src/utils/setup.js) *)

(** [cleanupSampleData]: each [scan.go()] returns the first page of its
    table, and every item of that page is deleted by its key. *)
Definition cleanupSampleData (pg : Pages) (s : Store) : Store :=
  let s1 := foldl (λ s rule,
                ResourceSharing_delete (ResourceSharing.resourceId rule)
                  (ResourceSharing.shareType rule)
                  (ResourceSharing.targetId rule) s)
              s (first_page pg Scan_sharing (sharing s)) in
  let s2 := foldl (λ s resource,
                Resource_delete (Resource.resourceId resource) s)
              s1 (first_page pg Scan_resources (resources s1)) in
  let s3 := foldl (λ s membership,
                UserGroup_delete (UserGroup.userId membership)
                  (UserGroup.groupId membership) s)
              s2 (first_page pg Scan_members (userGroups s2)) in
  let s4 := foldl (λ s group, Group_delete (Group.groupId group) s)
              s3 (first_page pg Scan_groups (groups s3)) in
  foldl (λ s user, User_delete (User.userId user) s)
    s4 (first_page pg Scan_users (users s4)).

(** ** POST /resources (src/routes/resources-management.js)

    A description left out reads as the empty string. *)
Definition post_resources (body : ResourceBody.t) (now : string) (s : Store)
  : Reply Resource.t * Store :=
  if missing (ResourceBody.resourceId body) || missing (ResourceBody.name body)
     || missing (ResourceBody.type body) || missing (ResourceBody.ownerId body)
  then (JsonError 400 "resourceId, name, type, and ownerId are required", s)
  else
    let item := {| Resource.resourceId := default EmptyString (ResourceBody.resourceId body);
                   Resource.name := default EmptyString (ResourceBody.name body);
                   Resource.description :=
                     default EmptyString (ResourceBody.description body);
                   Resource.type := default EmptyString (ResourceBody.type body);
                   Resource.ownerId := default EmptyString (ResourceBody.ownerId body);
                   Resource.isGlobal := default false (ResourceBody.isGlobal body);
                   Resource.createdAt := now;
                   Resource.updatedAt := now |} in
    match Resource_create item s with
    | Some s' => (Json 201 item, s')
    | None => (EntityError 500, s)
    end.

End Dynamo.

(** ** Sample data over the store as served *)

(** Pages that cut nothing of the sample stores. *)
Definition whole_pages : Dynamo.Pages := λ _, 100.

(** Six users and the resource r3, shared globally through the service;
    the first page of a scan of the users holds four of them. *)
Definition store_six_users : Store :=
  (Dynamo.shareResource "r3" ST_global "global" "u1" ["read"]
     "2024-01-02T00:00:00.000Z"
     {| users := sample_user <$> ["u1"; "u2"; "u3"; "u4"; "u5"; "u6"];
        groups := [];
        userGroups := [];
        resources := [sample_resource "r3" "u1" false];
        sharing := [] |}).1.

Definition four_users_a_page : Dynamo.Pages :=
  λ r, match r with Dynamo.Scan_users => 4 | _ => 100 end.

(** The user u2 is a member of g1; r1 is shared with the group g1 and
    then with the user, whose identifier the caller writes ['U2'].  Both
    calls of [shareResource] return their rule. *)
Definition store_user_two_spellings : Store :=
  let s0 := {| users := sample_user <$> ["u1"; "u2"];
               groups := [sample_group "g1"];
               userGroups := [sample_member "u2" "g1"];
               resources := [sample_resource "r1" "u1" false];
               sharing := [] |} in
  let s1 := (Dynamo.shareResource "r1" ST_group "g1" "u1" ["read"]
               "2024-01-02T00:00:00.000Z" s0).1 in
  (Dynamo.shareResource "r1" ST_user "U2" "u1" ["read"]
     "2024-01-03T00:00:00.000Z" s1).1.

(** The user u1 is a member of g1; the one resource r1 is shared with
    the user by a caller who writes its identifier ['R1'], and then with
    the group g1.  Both calls of [shareResource] return their rule. *)
Definition store_resource_two_spellings : Store :=
  let s0 := {| users := [sample_user "u1"];
               groups := [sample_group "g1"];
               userGroups := [sample_member "u1" "g1"];
               resources := [sample_resource "r1" "u1" false];
               sharing := [] |} in
  let s1 := (Dynamo.shareResource "R1" ST_user "u1" "u1" ["read"]
               "2024-01-02T00:00:00.000Z" s0).1 in
  (Dynamo.shareResource "r1" ST_group "g1" "u1" ["read"]
     "2024-01-03T00:00:00.000Z" s1).1.

(** ** The pass of the forward resolver *)

(** [User.get] finds a user for the identifier. *)
Definition found (s : Store) (userId : string) : Prop :=
  is_Some (Dynamo.User_get userId s).

#[global] Instance found_dec s userId : Decision (found s userId).
Proof. unfold found. apply _. Defined.

(** The identifiers that the member rows of the granted groups give and
    that [User.get] finds: group after group in the order of the grants,
    the members of a group in the order of its index, each as its row
    spells it. *)
Definition group_reach (pg : Dynamo.Pages) (s : Store) (resourceId : string)
  : list string :=
  concat ((λ rule,
             filter (found s)
               (UserGroup.userId <$>
                  Dynamo.UserGroup_query_byGroup pg
                    (ResourceSharing.targetId rule) s))
          <$> filter is_group_rule
                (Dynamo.ResourceSharing_query_primary pg resourceId s)).

(** The targets of the user-type grants of a resource that [User.get]
    finds, in the order of the grants, each as its grant spells it. *)
Definition direct_reach (pg : Dynamo.Pages) (s : Store) (resourceId : string)
  : list string :=
  filter (found s)
    (ResourceSharing.targetId <$>
       filter is_user_rule
         (Dynamo.ResourceSharing_query_primary pg resourceId s)).

(** The identifiers one rule adds to the [Set]. *)
Definition rule_reach (pg : Dynamo.Pages) (s : Store)
    (rule : ResourceSharing.t) : gset string :=
  match ResourceSharing.shareType rule with
  | ST_user =>
      if decide (found s (ResourceSharing.targetId rule))
      then {[ ResourceSharing.targetId rule ]} else ∅
  | ST_group =>
      list_to_set
        (filter (found s)
           (UserGroup.userId <$>
              Dynamo.UserGroup_query_byGroup pg
                (ResourceSharing.targetId rule) s))
  | ST_global => ∅
  end.

(** An entry of the access list carries a grant: it holds the item that
    [User.get] returns for the identifier it names, it has the three
    fields of the grant, and it is a ['direct'] entry for the target of
    a user-type grant or a ['group'] entry for a member that the query
    returns for the group of a group-type grant. *)
Definition entry_of_grant (pg : Dynamo.Pages) (s : Store)
    (rule : ResourceSharing.t) (e : AccessDetail.t) : Prop :=
  Dynamo.User_get (AccessDetail.userId e) s = Some (AccessDetail.user e)
  ∧ AccessDetail.sharedBy e = Some (ResourceSharing.sharedBy rule)
  ∧ AccessDetail.sharedAt e = Some (ResourceSharing.sharedAt rule)
  ∧ AccessDetail.permissions e = Some (ResourceSharing.permissions rule)
  ∧ match ResourceSharing.shareType rule with
    | ST_user =>
        AccessDetail.accessType e = AT_direct
        ∧ AccessDetail.groupId e = None
        ∧ AccessDetail.userId e = ResourceSharing.targetId rule
    | ST_group =>
        AccessDetail.accessType e = AT_group
        ∧ AccessDetail.groupId e = Some (ResourceSharing.targetId rule)
        ∧ ∃ member,
            member ∈ Dynamo.UserGroup_query_byGroup pg
                       (ResourceSharing.targetId rule) s
            ∧ UserGroup.userId member = AccessDetail.userId e
    | ST_global => False
    end.

(** ** Invariants of the loops of the resolvers *)

(** Forward: the [Set] holds the identifiers of the entries pushed, and
    every entry carries the item that [User.get] returns for its
    identifier. *)
Definition forward_invariant (s : Store) (st : AccessState) : Prop :=
  list_to_set (AccessDetail.userId <$> st.2) = st.1
  ∧ ∀ e, e ∈ st.2 →
      Dynamo.User_get (AccessDetail.userId e) s = Some (AccessDetail.user e).

(** Reverse: the [Set] has one string for each entry pushed, and every
    string of the [Set] is the key of the resource of an entry, which is
    a resource of the table. *)
Definition reverse_invariant (s : Store) (st : ResourceState) : Prop :=
  size st.1 = length st.2
  ∧ (∀ x, x ∈ st.1 → ∃ e, e ∈ st.2 ∧ Dynamo.key_eq (entry_id e) x)
  ∧ ∀ e, e ∈ st.2 → ResourceAccess.resource e ∈ resources s.

(** Whom a rule makes the forward loop see: the target of a user-type
    rule, the members that the query returns for the group of a
    group-type rule, as far as [User.get] finds them. *)
Definition rule_seen (pg : Dynamo.Pages) (s : Store) (rule : ResourceSharing.t)
    (seen : gset string) : Prop :=
  (ResourceSharing.shareType rule = ST_user →
   is_Some (Dynamo.User_get (ResourceSharing.targetId rule) s) →
   ResourceSharing.targetId rule ∈ seen)
  ∧ (ResourceSharing.shareType rule = ST_group →
     ∀ m, m ∈ Dynamo.UserGroup_query_byGroup pg (ResourceSharing.targetId rule) s →
       is_Some (Dynamo.User_get (UserGroup.userId m) s) →
       UserGroup.userId m ∈ seen).

(** ** When the store as served is the store of the first part

    The two models agree on a store that keeps one spelling of every
    identifier (the lower-case one, under which ElectroDB files it),
    whose lists are in the order of the indexes, and whose reads fit one
    page each. *)
Definition lower_case (x : string) : Prop := Dynamo.fold_key x = x.

#[global] Instance lower_case_dec x : Decision (lower_case x).
Proof. unfold lower_case. apply _. Defined.

Definition one_spelling (s : Store) : Prop :=
  Forall (λ u, lower_case (User.userId u)) (users s)
  ∧ Forall (λ ug, lower_case (UserGroup.userId ug)
                  ∧ lower_case (UserGroup.groupId ug)) (userGroups s)
  ∧ Forall (λ r, lower_case (Resource.resourceId r)) (resources s)
  ∧ Forall (λ rule, lower_case (ResourceSharing.resourceId rule)
                    ∧ lower_case (ResourceSharing.targetId rule)) (sharing s).

#[global] Instance one_spelling_dec s : Decision (one_spelling s).
Proof. unfold one_spelling. apply _. Defined.

Definition in_index_order (s : Store) : Prop :=
  primary_ordered s
  ∧ ordered_by member_leb (userGroups s) = true
  ∧ ordered_by (Dynamo.by_key Resource.createdAt) (resources s) = true.

#[global] Instance in_index_order_dec s : Decision (in_index_order s).
Proof. unfold in_index_order, primary_ordered. apply _. Defined.

Definition within_a_page (pg : Dynamo.Pages) (s : Store) : Prop :=
  ∀ r, length (users s) ≤ pg r ∧ length (userGroups s) ≤ pg r
       ∧ length (resources s) ≤ pg r ∧ length (sharing s) ≤ pg r.

(** * Properties *)

#[local] Set Warnings "-clear-no-such-hyp".

(** ** The store operations *)

Lemma User_get_userId s uid u : User_get uid s = Some u → User.userId u = uid.
Proof.
  unfold User_get. intros H. apply List.find_some in H as [_ H].
  by apply bool_decide_eq_true in H.
Qed.

Lemma Resource_get_resourceId s rid r :
  Resource_get rid s = Some r → Resource.resourceId r = rid.
Proof.
  unfold Resource_get. intros H. apply List.find_some in H as [_ H].
  by apply bool_decide_eq_true in H.
Qed.

Lemma Resource_get_elem_of s rid r : Resource_get rid s = Some r → r ∈ resources s.
Proof.
  unfold Resource_get. intros H. apply List.find_some in H as [H _].
  by apply list_elem_of_In.
Qed.

(** ** The seen-set of the forward resolver *)

Lemma foldl_add_global_user st us :
  foldl add_global_user st us
  = (list_to_set (User.userId <$> us) ∪ st.1, st.2 ++ (global_detail <$> us)).
Proof.
  revert st. induction us as [|u us IH]; intros [seen acc]; simpl.
  - f_equal; [set_solver | by rewrite app_nil_r].
  - rewrite IH. simpl. f_equal; [set_solver | by rewrite <- app_assoc].
Qed.

Lemma user_exists_Some s uid u : User_get uid s = Some u → user_exists s uid.
Proof. unfold user_exists. by intros ->. Qed.

Lemma user_exists_None s uid : User_get uid s = None → ¬ user_exists s uid.
Proof. unfold user_exists. intros -> [? ?]. done. Qed.

Lemma process_member_fst s rule st m :
  (process_member s rule st m).1
  = st.1 ∪ list_to_set (filter (user_exists s) [UserGroup.userId m]).
Proof.
  unfold process_member. rewrite filter_cons, filter_nil.
  destruct (decide (UserGroup.userId m ∈ st.1)) as [Hin|Hin].
  - destruct (decide (user_exists _ _)); set_solver.
  - destruct (User_get (UserGroup.userId m) s) eqn:E; simpl.
    + rewrite decide_True by eauto using user_exists_Some. set_solver.
    + rewrite decide_False by eauto using user_exists_None. set_solver.
Qed.

Lemma foldl_process_member_fst s rule st ms :
  (foldl (process_member s rule) st ms).1
  = st.1 ∪ list_to_set (filter (user_exists s) (UserGroup.userId <$> ms)).
Proof.
  revert st. induction ms as [|m ms IH]; intros st; cbn [foldl].
  - set_solver.
  - rewrite IH, process_member_fst, fmap_cons, !filter_cons, filter_nil.
    destruct (decide (user_exists _ _)); set_solver.
Qed.

Lemma process_rule_fst s st rule :
  (process_rule s st rule).1 = st.1 ∪ rule_users s rule.
Proof.
  unfold process_rule, rule_users, members_of.
  destruct (ResourceSharing.shareType rule).
  - destruct (User_get (ResourceSharing.targetId rule) s) eqn:E; simpl.
    + rewrite decide_True by eauto using user_exists_Some. set_solver.
    + rewrite decide_False by eauto using user_exists_None. set_solver.
  - apply foldl_process_member_fst.
  - set_solver.
Qed.

Lemma foldl_process_rule_fst s st rules :
  (foldl (process_rule s) st rules).1 = st.1 ∪ ⋃ (rule_users s <$> rules).
Proof.
  revert st. induction rules as [|r rules IH]; intros st; simpl.
  - set_solver.
  - rewrite IH, process_rule_fst. set_solver.
Qed.

(** ** Global override *)

Lemma global_detail_no_metadata u :
  AccessDetail.accessType (global_detail u) = AT_global
  ∧ AccessDetail.sharedBy (global_detail u) = None
  ∧ AccessDetail.sharedAt (global_detail u) = None
  ∧ AccessDetail.permissions (global_detail u) = None.
Proof. done. Qed.

(** Within one page.  While the scan of the users returns the whole
    table (and [userId] is its key), a resource whose [isGlobal] is true
    is answered with [accessType] ['global'], one ['global'] entry per
    user without [sharedBy], [sharedAt] or [permissions], whatever the
    sharing table holds. *)
Lemma global_override_within_a_page s rid r :
  Resource_get rid s = Some r →
  Resource.isGlobal r = true →
  NoDup (User.userId <$> users s) →
  ∃ res,
    getResourceAccessList rid s = inr res
    ∧ AccessList.accessType res = LT_global
    ∧ AccessList.totalUsers res = length (users s)
    ∧ AccessDetail.userId <$> AccessList.users res = User.userId <$> users s
    ∧ (∀ d, d ∈ AccessList.users res →
         AccessDetail.accessType d = AT_global
         ∧ AccessDetail.sharedBy d = None
         ∧ AccessDetail.sharedAt d = None
         ∧ AccessDetail.permissions d = None)
    ∧ (∀ rules, getResourceAccessList rid (with_sharing rules s) = inr res).
Proof.
  intros Hget Hglobal Hkey.
  assert (Hres : ∀ rules, getResourceAccessList rid (with_sharing rules s)
                 = inr (access_list rid LT_global
                          (foldl add_global_user (∅, []) (User_scan s)))).
  { intros rules. unfold getResourceAccessList.
    change (Resource_get rid (with_sharing rules s)) with (Resource_get rid s).
    by rewrite Hget, Hglobal. }
  eexists. split; [|split_and!].
  - unfold getResourceAccessList. by rewrite Hget, Hglobal.
  - done.
  - rewrite foldl_add_global_user. simpl.
    rewrite (right_id_L ∅ (∪)), size_list_to_set by done.
    by rewrite length_fmap.
  - rewrite foldl_add_global_user. simpl.
    rewrite <- list_fmap_compose. done.
  - rewrite foldl_add_global_user. simpl. intros d Hd.
    apply list_elem_of_fmap in Hd as [u [-> _]].
    apply global_detail_no_metadata.
  - exact Hres.
Qed.

(** ** Count correctness *)

Lemma union_rule_users s rules :
  ⋃ (rule_users s <$> rules)
  = list_to_set
      (filter (user_exists s)
         (ResourceSharing.targetId <$> filter is_user_rule rules))
    ∪ ⋃ (members_of s <$>
           (ResourceSharing.targetId <$> filter is_group_rule rules)).
Proof.
  induction rules as [|r rules IH]; [set_solver|].
  rewrite fmap_cons, union_list_cons, IH. clear IH.
  unfold rule_users at 1.
  destruct (ResourceSharing.shareType r) eqn:E.
  - rewrite (filter_cons_True is_user_rule) by done.
    rewrite (filter_cons_False is_group_rule) by (unfold is_group_rule; congruence).
    rewrite fmap_cons, filter_cons.
    destruct (decide (user_exists _ _)); set_solver.
  - rewrite (filter_cons_False is_user_rule) by (unfold is_user_rule; congruence).
    rewrite (filter_cons_True is_group_rule) by done.
    rewrite !fmap_cons, union_list_cons. set_solver.
  - rewrite (filter_cons_False is_user_rule) by (unfold is_user_rule; congruence).
    rewrite (filter_cons_False is_group_rule) by (unfold is_group_rule; congruence).
    set_solver.
Qed.

Section set_sizes.
Context `{Countable A}.
Implicit Types X Y : gset A.
Implicit Types Xs : list (gset A).

Lemma size_union_le X Y : size (X ∪ Y) ≤ size X + size Y.
Proof.
  rewrite size_union_alt.
  assert (size (Y ∖ X) ≤ size Y) by (apply subseteq_size; set_solver). lia.
Qed.

Lemma size_union_lt X Y : X ∩ Y ≠ ∅ → size (X ∪ Y) < size X + size Y.
Proof.
  intros Hne. rewrite size_union_alt.
  assert (size (Y ∖ X) < size Y); [|lia].
  apply subset_size. apply set_choose_L in Hne as [x Hx]. set_solver.
Qed.

Lemma size_union_list_le Xs : size (⋃ Xs) ≤ sum_list (size <$> Xs).
Proof.
  induction Xs as [|X Xs IH].
  - rewrite union_list_nil, size_empty. done.
  - rewrite union_list_cons, fmap_cons.
    change (sum_list (size X :: (size <$> Xs)))
      with (size X + sum_list (size <$> Xs)).
    pose proof (size_union_le X (⋃ Xs)). lia.
Qed.

Lemma elem_of_union_list_lookup Xs i X x :
  Xs !! i = Some X → x ∈ X → x ∈ ⋃ Xs.
Proof.
  intros Hi Hx. apply elem_of_union_list. exists X. split; [|done].
  by eapply list_elem_of_lookup_2.
Qed.

Lemma size_union_list_lt Xs :
  (∃ i j X Y, i < j ∧ Xs !! i = Some X ∧ Xs !! j = Some Y ∧ X ∩ Y ≠ ∅) →
  size (⋃ Xs) < sum_list (size <$> Xs).
Proof.
  induction Xs as [|Z Xs IH]; intros (i & j & X & Y & Hij & Hi & Hj & Hne).
  - done.
  - rewrite union_list_cons, fmap_cons.
    change (sum_list (size Z :: (size <$> Xs)))
      with (size Z + sum_list (size <$> Xs)).
    pose proof (size_union_list_le Xs) as Hle.
    destruct j as [|j]; [lia|]. simpl in Hj.
    destruct i as [|i]; simpl in Hi.
    + injection Hi as ->.
      assert (X ∩ ⋃ Xs ≠ ∅) as Hov.
      { apply set_choose_L in Hne as [x Hx].
        assert (x ∈ ⋃ Xs) by (eapply elem_of_union_list_lookup; set_solver).
        set_solver. }
      pose proof (size_union_lt X (⋃ Xs) Hov). lia.
    + assert (size (⋃ Xs) < sum_list (size <$> Xs)).
      { apply IH. exists i, j, X, Y. split_and!; [lia|done..]. }
      pose proof (size_union_le Z (⋃ Xs)). lia.
Qed.
End set_sizes.

Lemma not_global_access_list s rid r :
  Resource_get rid s = Some r →
  Resource.isGlobal r = false →
  getResourceAccessList rid s
  = inr (access_list rid LT_specific
           (process_rules s (ResourceSharing_query_primary rid s))).
Proof. intros Hget Hng. unfold getResourceAccessList. by rewrite Hget, Hng. Qed.

Lemma seen_set_is_union s rid :
  (process_rules s (ResourceSharing_query_primary rid s)).1 = ⋃ access_paths s rid.
Proof.
  unfold process_rules, access_paths, direct_users, group_users, granted_groups.
  rewrite foldl_process_rule_fst, union_rule_users, union_list_cons. set_solver.
Qed.

(** The count of a resource that is not global is the size of the set
    of identifiers that the grant paths reach (the registered targets of
    the direct grants, the registered members of each granted group); it
    never exceeds the sum of the per-path counts and is strictly below it
    as soon as two paths overlap. *)
Lemma count_of_identifiers_reached s rid r :
  Resource_get rid s = Some r →
  Resource.isGlobal r = false →
  ∃ res,
    getResourceAccessList rid s = inr res
    ∧ AccessList.totalUsers res = size (direct_users s rid ∪ group_users s rid)
    ∧ AccessList.totalUsers res ≤ sum_list (size <$> access_paths s rid)
    ∧ (overlapping (access_paths s rid) →
       AccessList.totalUsers res < sum_list (size <$> access_paths s rid)).
Proof.
  intros Hget Hng. eexists. split; [by apply (not_global_access_list s rid r)|].
  cbn [access_list AccessList.totalUsers]. rewrite seen_set_is_union.
  split_and!.
  - done.
  - apply size_union_list_le.
  - apply size_union_list_lt.
Qed.

(** On the sample store the three paths of r1 count 2 + 2 + 2 users and
    reach 4. *)
Example count_on_store_overlap :
  (∃ res, getResourceAccessList "r1" store_overlap = inr res
          ∧ AccessList.totalUsers res = 4)
  ∧ sum_list (size <$> access_paths store_overlap "r1") = 6.
Proof. split; [eexists; split|]; vm_compute; reflexivity. Qed.

(** ** Direct and group grant of one user *)

(** C1.  Scenario D run on the code: after [shareResource] of r1 to the
    user u5 and then to the group g1 (both succeed, u5 is a member of g1,
    r1 is not global), the primary index lists the group rule before the
    user rule, and [getResourceAccessList] lists u5 twice, first with
    [accessType] ['group'], then with ['direct'], while [totalUsers] is 1. *)
Theorem C1_scenario_D_lists_user_twice :
  (ResourceSharing.shareType <$> sharing scenario_D_user_shared) = [ST_user]
  ∧ (ResourceSharing.shareType <$> sharing scenario_D) = [ST_group; ST_user]
  ∧ primary_ordered scenario_D
  ∧ (Resource.isGlobal <$> Resource_get "r1" scenario_D) = Some false
  ∧ "u5" ∈ direct_users scenario_D "r1"
  ∧ "u5" ∈ group_users scenario_D "r1"
  ∧ ∃ res,
      getResourceAccessList "r1" scenario_D = inr res
      ∧ provenance res = [("u5", AT_group); ("u5", AT_direct)]
      ∧ AccessList.totalUsers res = 1.
Proof.
  split; [vm_compute; reflexivity|].
  split; [vm_compute; reflexivity|].
  split; [vm_compute; reflexivity|].
  split; [vm_compute; reflexivity|].
  split; [apply (bool_decide_unpack _); vm_compute; exact I|].
  split; [apply (bool_decide_unpack _); vm_compute; exact I|].
  eexists. split; [|split]; vm_compute; reflexivity.
Qed.

(** ** Order of processing *)

Section filter_all_none.
Context {A} (P : A → Prop) `{∀ x, Decision (P x)}.

Lemma filter_none (l : list A) : (∀ x, x ∈ l → ¬ P x) → filter P l = [].
Proof.
  induction l as [|x l IH]; intros Hl; [done|].
  rewrite filter_cons_False by (apply Hl; left).
  apply IH. intros y Hy. apply Hl. by right.
Qed.

Lemma filter_all (l : list A) : (∀ x, x ∈ l → P x) → filter P l = l.
Proof.
  induction l as [|x l IH]; intros Hl; [done|].
  rewrite filter_cons_True by (apply Hl; left).
  f_equal. apply IH. intros y Hy. apply Hl. by right.
Qed.
End filter_all_none.

Lemma forallb_elem_of {A} (f : A → bool) (l : list A) x :
  forallb f l = true → x ∈ l → f x = true.
Proof.
  intros Hall Hx. apply list_elem_of_In in Hx.
  by apply (proj1 (forallb_forall f l) Hall).
Qed.

Lemma ordered_by_filter {A} (leb : A → A → bool) (P : A → Prop)
    `{∀ x, Decision (P x)} (l : list A) :
  ordered_by leb l = true → ordered_by leb (filter P l) = true.
Proof.
  induction l as [|x l IH]; [done|].
  cbn [ordered_by]. intros [Hx Hl]%andb_prop.
  rewrite filter_cons. destruct (decide (P x)); [|by apply IH].
  cbn [ordered_by]. rewrite (IH Hl), andb_true_r.
  apply forallb_forall. intros y Hy%list_elem_of_In.
  apply list_elem_of_filter in Hy as [_ Hy].
  by apply (forallb_elem_of _ l).
Qed.

Lemma ordered_by_weaken {A} (leb1 leb2 : A → A → bool) (l : list A) :
  (∀ x y, x ∈ l → y ∈ l → leb1 x y = true → leb2 x y = true) →
  ordered_by leb1 l = true → ordered_by leb2 l = true.
Proof.
  induction l as [|x l IH]; [done|].
  cbn [ordered_by]. intros Hw [Hx Hl]%andb_prop.
  apply andb_true_intro. split.
  - apply forallb_forall. intros y Hy%list_elem_of_In.
    apply Hw; [by left|by right|]. by apply (forallb_elem_of _ l).
  - apply IH; [|done]. intros y z Hy Hz. apply Hw; by right.
Qed.

Lemma String_ltb_irrefl (x : string) : String.ltb x x = false.
Proof.
  unfold String.ltb. pose proof (String.compare_antisym x x) as Hanti.
  destruct (String.compare x x); [done|discriminate Hanti|done].
Qed.

Lemma primary_leb_same_partition a b :
  ResourceSharing.resourceId a = ResourceSharing.resourceId b →
  primary_leb a b = true → rank_leb a b = true.
Proof.
  unfold primary_leb, sk_leb, rank_leb. intros ->.
  rewrite String_ltb_irrefl, bool_decide_eq_true_2 by done. simpl.
  intros [Hlt|[Heq _]%andb_prop]%orb_prop.
  - apply Nat.ltb_lt in Hlt. apply Nat.leb_le. lia.
  - apply Nat.eqb_eq in Heq. apply Nat.leb_le. lia.
Qed.

(** Under the order of the primary index the rules of a resource come
    sorted by share type. *)
Lemma query_primary_rank_ordered s rid :
  primary_ordered s →
  ordered_by rank_leb (ResourceSharing_query_primary rid s) = true.
Proof.
  unfold primary_ordered, ResourceSharing_query_primary. intros Hord.
  apply (ordered_by_weaken primary_leb).
  - intros x y [Hx _]%list_elem_of_filter [Hy _]%list_elem_of_filter.
    apply primary_leb_same_partition. congruence.
  - by apply ordered_by_filter.
Qed.

Lemma rank_ordered_split (l : list ResourceSharing.t) :
  ordered_by rank_leb l = true →
  l = filter is_global_rule l ++ filter is_group_rule l ++ filter is_user_rule l.
Proof.
  induction l as [|x l IH]; [done|].
  cbn [ordered_by]. intros [Hx Hl]%andb_prop. specialize (IH Hl).
  assert (Hrank : ∀ y, y ∈ l →
            shareType_rank (ResourceSharing.shareType x)
            ≤ shareType_rank (ResourceSharing.shareType y)).
  { intros y Hy. apply Nat.leb_le. by apply (forallb_elem_of (rank_leb x) l). }
  unfold is_global_rule, is_group_rule, is_user_rule in *.
  destruct (ResourceSharing.shareType x) eqn:E.
  - rewrite (filter_cons_False (λ r, _ = ST_global)) by congruence.
    rewrite (filter_cons_False (λ r, _ = ST_group)) by congruence.
    rewrite (filter_cons_True (λ r, _ = ST_user)) by done.
    rewrite (filter_none (λ r, _ = ST_global)), (filter_none (λ r, _ = ST_group)),
      (filter_all (λ r, _ = ST_user)); [done|..];
      intros y Hy; specialize (Hrank y Hy);
      destruct (ResourceSharing.shareType y); simpl in Hrank; (done || (exfalso; lia)).
  - rewrite (filter_cons_False (λ r, _ = ST_global)) by congruence.
    rewrite (filter_cons_True (λ r, _ = ST_group)) by congruence.
    rewrite (filter_cons_False (λ r, _ = ST_user)) by congruence.
    rewrite (filter_none (λ r, _ = ST_global)) in IH |- *;
      [simpl in *; by f_equal|..];
      intros y Hy; specialize (Hrank y Hy);
      destruct (ResourceSharing.shareType y); simpl in Hrank; (done || (exfalso; lia)).
  - rewrite (filter_cons_True (λ r, _ = ST_global)) by congruence.
    rewrite (filter_cons_False (λ r, _ = ST_group)) by congruence.
    rewrite (filter_cons_False (λ r, _ = ST_user)) by congruence.
    simpl. by f_equal.
Qed.

Lemma foldl_process_rule_global s st (l : list ResourceSharing.t) :
  foldl (process_rule s) st (filter is_global_rule l) = st.
Proof.
  revert st. induction l as [|x l IH]; intros st; [done|].
  rewrite filter_cons. destruct (decide (is_global_rule x)) as [Hg|]; [|done].
  cbn [foldl]. rewrite IH. unfold process_rule. by rewrite Hg.
Qed.

Lemma elem_of_union_rule_users s (l : list ResourceSharing.t) x :
  x ∈ ⋃ (rule_users s <$> l) ↔ ∃ r, r ∈ l ∧ x ∈ rule_users s r.
Proof.
  rewrite elem_of_union_list. split.
  - intros (X & HX & Hx). apply list_elem_of_fmap in HX as (r & -> & Hr). eauto.
  - intros (r & Hr & Hx). exists (rule_users s r). split; [|done].
    apply list_elem_of_fmap. eauto.
Qed.

Lemma seen_set_user_first s (rules : list ResourceSharing.t) :
  (process_rules s (filter is_user_rule rules ++ filter is_group_rule rules)).1
  = (process_rules s rules).1.
Proof.
  unfold process_rules. rewrite !foldl_process_rule_fst. f_equal.
  apply set_eq. intros x. rewrite !elem_of_union_rule_users. split.
  - intros (r & Hr & Hx). exists r. split; [|done].
    apply elem_of_app in Hr as [Hr|Hr]; by apply list_elem_of_filter in Hr as [_ ?].
  - intros (r & Hr & Hx). exists r. split; [|done].
    rewrite elem_of_app, !list_elem_of_filter.
    unfold rule_users, is_user_rule, is_group_rule in *.
    destruct (ResourceSharing.shareType r); [by left|by right|set_solver].
Qed.


(** ** The reverse resolver: priority merge *)

Lemma first_wins_app seen l1 l2 :
  first_wins seen (l1 ++ l2)
  = first_wins seen l1 ++ first_wins (ids_of (first_wins seen l1) ∪ seen) l2.
Proof.
  revert seen. induction l1 as [|e l1 IH]; intros seen; cbn [first_wins app].
  - f_equal. unfold ids_of. set_solver.
  - destruct (decide (entry_id e ∈ seen)); [apply IH|].
    cbn [app]. rewrite IH. do 3 f_equal.
    unfold ids_of. rewrite fmap_cons, list_to_set_cons. set_solver.
Qed.

Lemma first_wins_fresh seen l e :
  e ∈ first_wins seen l → entry_id e ∉ seen.
Proof.
  revert seen. induction l as [|c l IH]; intros seen; simpl; [intros He; by apply not_elem_of_nil in He|].
  destruct (decide (entry_id c ∈ seen)); [apply IH|].
  intros [->|He]%elem_of_cons; [done|]. apply IH in He. set_solver.
Qed.

Lemma first_wins_NoDup seen l : NoDup (entry_id <$> first_wins seen l).
Proof.
  revert seen. induction l as [|c l IH]; intros seen; simpl; [constructor|].
  destruct (decide (entry_id c ∈ seen)); [apply IH|].
  rewrite fmap_cons. constructor; [|apply IH].
  intros (e & Heq & He)%list_elem_of_fmap. apply first_wins_fresh in He.
  set_solver.
Qed.

Lemma first_wins_elem_of seen l e : e ∈ first_wins seen l → e ∈ l.
Proof.
  revert seen. induction l as [|c l IH]; intros seen; simpl; [done|].
  destruct (decide (entry_id c ∈ seen)).
  - intros He. right. by eapply IH.
  - intros [->|He]%elem_of_cons; [by left|]. right. by eapply IH.
Qed.

(** Every candidate is represented: its resource is in the merge unless
    it had been seen before. *)
Lemma first_wins_covers seen l c :
  c ∈ l → entry_id c ∈ seen ∨ entry_id c ∈ ids_of (first_wins seen l).
Proof.
  unfold ids_of. revert seen. induction l as [|e l IH]; intros seen; simpl.
  - intros He. by apply not_elem_of_nil in He.
  - intros [->|Hc]%elem_of_cons.
    + destruct (decide (entry_id e ∈ seen)); [by left|]. right. set_solver.
    + destruct (decide (entry_id e ∈ seen)); [by apply IH|].
      destruct (IH ({[entry_id e]} ∪ seen) Hc); set_solver.
Qed.

(** First writer wins: an entry of the merge is the first candidate of
    its resource. *)
Lemma first_wins_first seen l e :
  e ∈ first_wins seen l →
  ∃ l1 l2, l = l1 ++ e :: l2 ∧ ∀ c, c ∈ l1 → entry_id c ≠ entry_id e.
Proof.
  revert seen. induction l as [|c l IH]; intros seen; simpl; [intros He; by apply not_elem_of_nil in He|].
  destruct (decide (entry_id c ∈ seen)) as [Hin|Hin].
  - intros He. pose proof (first_wins_fresh _ _ _ He) as Hfresh.
    destruct (IH _ He) as (l1 & l2 & -> & Hl1).
    exists (c :: l1), l2. split; [done|].
    intros c' [->|Hc']%elem_of_cons; [congruence|by apply Hl1].
  - intros [->|He]%elem_of_cons.
    + exists [], l. split; [done|]. intros c' Hc'. by apply not_elem_of_nil in Hc'.
    + pose proof (first_wins_fresh _ _ _ He) as Hfresh.
      destruct (IH _ He) as (l1 & l2 & -> & Hl1).
      exists (c :: l1), l2. split; [done|].
      intros c' [->|Hc']%elem_of_cons; [set_solver|by apply Hl1].
Qed.

Lemma share_candidates_cons s mk share shares :
  share_candidates s mk (share :: shares)
  = share_candidates s mk [share] ++ share_candidates s mk shares.
Proof.
  unfold share_candidates. cbn [omap list_omap].
  by destruct (mk share <$> Resource_get (ResourceSharing.resourceId share) s).
Qed.

Lemma extend_twice (seen : gset string) acc l1 l2 :
  (ids_of (first_wins (ids_of (first_wins seen l1) ∪ seen) l2)
     ∪ (ids_of (first_wins seen l1) ∪ seen),
   (acc ++ first_wins seen l1)
     ++ first_wins (ids_of (first_wins seen l1) ∪ seen) l2)
  = (ids_of (first_wins seen (l1 ++ l2)) ∪ seen,
     acc ++ first_wins seen (l1 ++ l2)).
Proof.
  rewrite first_wins_app. f_equal.
  - unfold ids_of. rewrite fmap_app, list_to_set_app_L. set_solver.
  - by rewrite app_assoc.
Qed.

Lemma process_share_step s mk st share :
  (∀ share r, ResourceAccess.resource (mk share r) = r) →
  process_share s mk st share
  = (ids_of (first_wins st.1 (share_candidates s mk [share])) ∪ st.1,
     st.2 ++ first_wins st.1 (share_candidates s mk [share])).
Proof.
  intros Hmk. destruct st as [seen acc].
  unfold process_share, share_candidates. cbn [omap list_omap fst snd].
  destruct (Resource_get (ResourceSharing.resourceId share) s) as [r|] eqn:Hget;
    cbn [fmap option_fmap option_map first_wins].
  - assert (entry_id (mk share r) = ResourceSharing.resourceId share) as ->.
    { unfold entry_id. rewrite Hmk. by eapply Resource_get_resourceId. }
    destruct (decide (ResourceSharing.resourceId share ∈ seen)).
    + f_equal; [unfold ids_of; set_solver|by rewrite app_nil_r].
    + f_equal. unfold ids_of. rewrite fmap_cons, list_to_set_cons.
      assert (entry_id (mk share r) = ResourceSharing.resourceId share) as ->.
      { unfold entry_id. rewrite Hmk. by eapply Resource_get_resourceId. }
      set_solver.
  - destruct (decide (ResourceSharing.resourceId share ∈ seen));
      (f_equal; [unfold ids_of; set_solver|by rewrite app_nil_r]).
Qed.

Lemma foldl_process_share s mk st shares :
  (∀ share r, ResourceAccess.resource (mk share r) = r) →
  foldl (process_share s mk) st shares
  = (ids_of (first_wins st.1 (share_candidates s mk shares)) ∪ st.1,
     st.2 ++ first_wins st.1 (share_candidates s mk shares)).
Proof.
  intros Hmk. revert st.
  induction shares as [|share shares IH]; intros st; cbn [foldl].
  - destruct st as [seen acc]. simpl.
    f_equal; [unfold ids_of; set_solver|by rewrite app_nil_r].
  - rewrite IH, (process_share_step s mk st share Hmk). cbn [fst snd].
    rewrite (share_candidates_cons s mk share shares). apply extend_twice.
Qed.

Lemma process_global_step st r :
  process_global st r
  = (ids_of (first_wins st.1 [global_access r]) ∪ st.1,
     st.2 ++ first_wins st.1 [global_access r]).
Proof.
  destruct st as [seen acc]. unfold process_global. cbn [first_wins fst snd].
  change (entry_id (global_access r)) with (Resource.resourceId r).
  destruct (decide (Resource.resourceId r ∈ seen)).
  - f_equal; [unfold ids_of; set_solver|by rewrite app_nil_r].
  - f_equal. unfold ids_of. rewrite fmap_cons, list_to_set_cons.
    change (entry_id (global_access r)) with (Resource.resourceId r).
    set_solver.
Qed.

Lemma foldl_process_global st rs :
  foldl process_global st rs
  = (ids_of (first_wins st.1 (global_access <$> rs)) ∪ st.1,
     st.2 ++ first_wins st.1 (global_access <$> rs)).
Proof.
  revert st. induction rs as [|r rs IH]; intros st; cbn [foldl].
  - destruct st as [seen acc]. simpl.
    f_equal; [unfold ids_of; set_solver|by rewrite app_nil_r].
  - rewrite IH, process_global_step. cbn [fst snd]. rewrite fmap_cons.
    apply (extend_twice _ _ [global_access r]).
Qed.

Lemma getUserResources_merged s uid u :
  User_get uid s = Some u →
  getUserResources uid s
  = inr {| ResourceList.userId := uid;
           ResourceList.totalResources := size (ids_of (merged_by_priority s uid));
           ResourceList.resources := merged_by_priority s uid |}.
Proof.
  intros Hget. unfold getUserResources. rewrite Hget. cbv zeta.
  rewrite (foldl_process_share s direct_access) by done.
  rewrite (foldl_process_share s group_access) by done.
  rewrite foldl_process_global. cbn [fst snd].
  unfold merged_by_priority, candidates, direct_candidates, group_candidates,
    global_candidates.
  rewrite !first_wins_app. rewrite !(right_id_L ∅ (∪)). simpl.
  do 2 f_equal.
  - f_equal. unfold ids_of. rewrite !fmap_app, !list_to_set_app_L. set_solver.
  - by rewrite app_assoc.
Qed.

Lemma elem_of_share_candidates s mk shares e :
  e ∈ share_candidates s mk shares →
  ∃ share r, share ∈ shares
    ∧ Resource_get (ResourceSharing.resourceId share) s = Some r
    ∧ e = mk share r.
Proof.
  unfold share_candidates. intros (share & Hshare & He)%list_elem_of_omap.
  destruct (Resource_get (ResourceSharing.resourceId share) s) as [r|] eqn:Hget;
    [|done].
  injection He as <-. eauto.
Qed.

Lemma global_candidate_fields s uid e :
  e ∈ candidates s uid →
  ResourceAccess.accessType e = AT_global →
  ResourceAccess.permissions e = ["read"%string]
  ∧ ResourceAccess.sharedBy e = None
  ∧ ResourceAccess.sharedAt e = None
  ∧ ResourceAccess.groupId e = None.
Proof.
  unfold candidates, direct_candidates, group_candidates, global_candidates.
  rewrite !elem_of_app. intros [He|[He|He]] Hglobal.
  - apply elem_of_share_candidates in He as (share & r & _ & _ & ->). done.
  - apply elem_of_share_candidates in He as (share & r & _ & _ & ->). done.
  - apply list_elem_of_fmap in He as (r & -> & _). done.
Qed.

(** Over a store that keeps one spelling of each identifier, the
    reverse resolver merges its candidates in the order direct shares,
    group shares, global resources, the first candidate of a
    [resourceId] winning. *)
Lemma merge_of_candidates s uid u :
  User_get uid s = Some u →
  ∃ res,
    getUserResources uid s = inr res
    ∧ ResourceList.resources res
      = first_wins ∅ (direct_candidates s uid ++ group_candidates s uid
                       ++ global_candidates s)
    ∧ ResourceList.totalResources res = length (ResourceList.resources res)
    ∧ NoDup (entry_id <$> ResourceList.resources res)
    ∧ (∀ e, e ∈ ResourceList.resources res →
         ∃ l1 l2, candidates s uid = l1 ++ e :: l2
                  ∧ ∀ c, c ∈ l1 → entry_id c ≠ entry_id e)
    ∧ (∀ c, c ∈ candidates s uid →
         entry_id c ∈ (entry_id <$> ResourceList.resources res))
    ∧ (∀ e, e ∈ ResourceList.resources res →
         ResourceAccess.accessType e = AT_global →
         ResourceAccess.permissions e = ["read"%string]
         ∧ ResourceAccess.sharedBy e = None
         ∧ ResourceAccess.sharedAt e = None
         ∧ ResourceAccess.groupId e = None).
Proof.
  intros Hget. eexists. split; [by apply (getUserResources_merged s uid u)|].
  cbn [ResourceList.resources ResourceList.totalResources].
  unfold merged_by_priority. split_and!.
  - done.
  - unfold ids_of. rewrite size_list_to_set by apply first_wins_NoDup.
    by rewrite length_fmap.
  - apply first_wins_NoDup.
  - intros e He. by apply (first_wins_first ∅).
  - intros c Hc. destruct (first_wins_covers ∅ _ _ Hc) as [Hin|Hin].
    + set_solver.
    + unfold ids_of in Hin. by apply elem_of_list_to_set in Hin.
  - intros e He. apply (global_candidate_fields s uid).
    by apply first_wins_elem_of in He.
Qed.

(** On the sample store u2 reaches r3 directly (the global path to r3 is
    found later and ignored) and r1 through g1 (the share through g2 is
    found later and ignored). *)
Example merge_on_store_overlap :
  ∃ res, getUserResources "u2" store_overlap = inr res
    ∧ (λ e, (entry_id e, ResourceAccess.accessType e, ResourceAccess.groupId e))
        <$> ResourceList.resources res
      = [("r3"%string, AT_direct, None); ("r1"%string, AT_group, Some "g1"%string)]
    ∧ ResourceList.totalResources res = 2.
Proof. eexists. split; [|split]; vm_compute; reflexivity. Qed.

(** On the sample store u5 has no share at all and reaches the global
    resource r3 with the conventional read permission. *)
Example global_entry_on_store_overlap :
  ∃ res, getUserResources "u5" store_overlap = inr res
    ∧ ResourceList.resources res
      = [global_access (sample_resource "r3" "u1" true)].
Proof. eexists. split; vm_compute; reflexivity. Qed.

(** ** The grant mutator and the derived global state *)

Lemma existsb_index_insert (P : ResourceSharing.t → bool) x l :
  existsb P (index_insert x l) = P x || existsb P l.
Proof.
  induction l as [|y l IH]; simpl; [done|].
  destruct (primary_leb x y); simpl; [done|].
  rewrite IH. by destruct (P x), (P y).
Qed.

Lemma existsb_filter_other (P : ResourceSharing.t → bool)
    (Q : ResourceSharing.t → Prop) `{∀ x, Decision (Q x)} l :
  (∀ x, P x = true → Q x) →
  existsb P (filter Q l) = existsb P l.
Proof.
  intros HPQ. induction l as [|y l IH]; [done|].
  rewrite filter_cons. destruct (decide (Q y)) as [HQ|HQ]; simpl; [by rewrite IH|].
  rewrite IH. destruct (P y) eqn:HP; [|done]. by apply HPQ in HP.
Qed.

Lemma existsb_filter_none (P : ResourceSharing.t → bool)
    (Q : ResourceSharing.t → Prop) `{∀ x, Decision (Q x)} l :
  (∀ x, P x = true → ¬ Q x) →
  existsb P (filter Q l) = false.
Proof.
  intros HPQ. induction l as [|y l IH]; [done|].
  rewrite filter_cons. destruct (decide (Q y)) as [HQ|HQ]; simpl; [|done].
  rewrite IH. destruct (P y) eqn:HP; [|done]. by apply HPQ in HP.
Qed.

Lemma has_global_grant_insert rid' rule s :
  has_global_grant rid' (with_sharing (index_insert rule (sharing s)) s)
  = bool_decide (same_key rid' ST_global "global" rule) || has_global_grant rid' s.
Proof. unfold has_global_grant, key_exists. simpl. apply existsb_index_insert. Qed.

Lemma has_global_grant_delete_other rid' rid st tid s :
  ¬ (rid = rid' ∧ st = ST_global ∧ tid = "global"%string) →
  has_global_grant rid' (ResourceSharing_delete rid st tid s)
  = has_global_grant rid' s.
Proof.
  intros Hne. unfold has_global_grant, key_exists, ResourceSharing_delete. simpl.
  apply existsb_filter_other. intros x Hx%bool_decide_eq_true.
  unfold same_key in *. intros Hk. apply Hne. destruct Hx as (? & ? & ?).
  destruct Hk as (? & ? & ?). split_and!; congruence.
Qed.

Lemma has_global_grant_delete_sentinel rid s :
  has_global_grant rid (ResourceSharing_delete rid ST_global "global" s) = false.
Proof.
  unfold has_global_grant, key_exists, ResourceSharing_delete. simpl.
  apply existsb_filter_none. intros x Hx%bool_decide_eq_true. tauto.
Qed.

Lemma has_global_grant_update rid' rid b now s :
  has_global_grant rid' (Resource_update_isGlobal rid b now s)
  = has_global_grant rid' s.
Proof.
  unfold has_global_grant, key_exists, Resource_update_isGlobal.
  by destruct (Resource_get rid s).
Qed.

(** What [Resource.update] leaves in the table: the items with the key
    carry the new flag, the others are untouched. *)
Lemma elem_of_resources_update rid b now s r :
  r ∈ resources (Resource_update_isGlobal rid b now s) →
  (Resource.resourceId r = rid ∧ Resource.isGlobal r = b)
  ∨ (Resource.resourceId r ≠ rid ∧ r ∈ resources s).
Proof.
  unfold Resource_update_isGlobal.
  destruct (Resource_get rid s) as [r0|] eqn:Hget; simpl.
  - intros (r' & -> & Hr')%list_elem_of_fmap.
    destruct (bool_decide (Resource.resourceId r' = rid)) eqn:Hid.
    + left. apply bool_decide_eq_true in Hid. done.
    + right. apply bool_decide_eq_false in Hid. done.
  - intros [Hr|Hr]%elem_of_app.
    + right. split; [|done]. intros Hid.
      unfold Resource_get in Hget.
      pose proof (List.find_none _ _ Hget r (proj1 (list_elem_of_In _ _) Hr)) as Hnone.
      apply bool_decide_eq_false in Hnone. done.
    + apply list_elem_of_singleton in Hr as ->. by left.
Qed.

Lemma I1_create_rule rule s :
  ResourceSharing.shareType rule ≠ ST_global → I1 s → I1 (create_rule rule s).1.
Proof.
  intros Hne HI. unfold create_rule, ResourceSharing_create.
  destruct (key_exists _ _ _ s); [done|]. cbn [fst].
  unfold I1 in *. cbn [resources with_sharing].
  eapply Forall_impl; [exact HI|]. intros r ->.
  rewrite has_global_grant_insert, bool_decide_eq_false_2; [done|].
  unfold same_key. tauto.
Qed.

Lemma share_global_state rid sharedBy permissions now s :
  let s' := (create_rule (new_rule rid ST_global "global" sharedBy permissions now)
               (Resource_update_isGlobal rid true now s)).1 in
  has_global_grant rid s' = true
  ∧ (∀ rid', rid' ≠ rid → has_global_grant rid' s' = has_global_grant rid' s)
  ∧ (∀ r, r ∈ resources s' →
       (Resource.resourceId r = rid ∧ Resource.isGlobal r = true)
       ∨ (Resource.resourceId r ≠ rid ∧ r ∈ resources s)).
Proof.
  unfold create_rule, ResourceSharing_create. cbn [new_rule
    ResourceSharing.resourceId ResourceSharing.shareType ResourceSharing.targetId].
  destruct (key_exists rid ST_global "global"
              (Resource_update_isGlobal rid true now s)) eqn:Hkey; cbn [fst].
  - split_and!.
    + exact Hkey.
    + intros rid' _. apply has_global_grant_update.
    + intros r. apply elem_of_resources_update.
  - split_and!.
    + rewrite has_global_grant_insert, bool_decide_eq_true_2; [done|].
      by unfold same_key.
    + intros rid' Hne.
      rewrite has_global_grant_insert, bool_decide_eq_false_2.
      * apply has_global_grant_update.
      * unfold same_key. simpl. naive_solver.
    + intros r. cbn [resources with_sharing]. apply elem_of_resources_update.
Qed.

Lemma unshare_global_state rid now s :
  let s' := unshareResource rid ST_global "global" now s in
  has_global_grant rid s' = false
  ∧ (∀ rid', rid' ≠ rid → has_global_grant rid' s' = has_global_grant rid' s)
  ∧ (∀ r, r ∈ resources s' →
       (Resource.resourceId r = rid ∧ Resource.isGlobal r = false)
       ∨ (Resource.resourceId r ≠ rid ∧ r ∈ resources s)).
Proof.
  unfold unshareResource. split_and!.
  - by rewrite has_global_grant_update, has_global_grant_delete_sentinel.
  - intros rid' Hne.
    rewrite has_global_grant_update, has_global_grant_delete_other; [done|].
    naive_solver.
  - intros r Hr. by apply elem_of_resources_update in Hr.
Qed.

Lemma I1_from_state rid b s s' :
  I1 s →
  has_global_grant rid s' = b →
  (∀ rid', rid' ≠ rid → has_global_grant rid' s' = has_global_grant rid' s) →
  (∀ r, r ∈ resources s' →
     (Resource.resourceId r = rid ∧ Resource.isGlobal r = b)
     ∨ (Resource.resourceId r ≠ rid ∧ r ∈ resources s)) →
  I1 s'.
Proof.
  unfold I1. rewrite !Forall_forall. intros HI Hrid Hother Hres r Hr.
  destruct (Hres r Hr) as [[-> ->]|[Hne Hold]]; [done|].
  rewrite Hother by done. by apply HI.
Qed.

Lemma I1_shareResource rid st tid sharedBy permissions now s :
  I1 s → I1 (shareResource rid st tid sharedBy permissions now s).1.
Proof.
  intros HI. unfold shareResource.
  destruct (Resource_get rid s); [|done]. destruct st.
  - destruct (User_get tid s); [|done]. by apply I1_create_rule.
  - destruct (Group_get tid s); [|done]. by apply I1_create_rule.
  - pose proof (share_global_state rid sharedBy permissions now s) as (? & ? & ?).
    by eapply (I1_from_state rid true s).
Qed.

Lemma I1_unshareResource rid st tid now s :
  (st = ST_global → tid = "global"%string) →
  I1 s → I1 (unshareResource rid st tid now s).
Proof.
  intros Htid HI. destruct st.
  - unfold unshareResource, I1 in *. cbn [resources ResourceSharing_delete with_sharing].
    eapply Forall_impl; [exact HI|]. intros r ->.
    rewrite has_global_grant_delete_other; [done|]. naive_solver.
  - unfold unshareResource, I1 in *. cbn [resources ResourceSharing_delete with_sharing].
    eapply Forall_impl; [exact HI|]. intros r ->.
    rewrite has_global_grant_delete_other; [done|]. naive_solver.
  - rewrite Htid by done.
    pose proof (unshare_global_state rid now s) as (? & ? & ?).
    by eapply (I1_from_state rid false s).
Qed.

(** The claim as worded fails on the sample store, where I1 holds.
    First, [shareResource] of r1 with share type ['global'] is the rule
    creation run on the store that the update of the flag has left, and
    in that store, the one between the two writes, I1 is violated.
    Second, [unshareResource] of r3 with share type ['global'] and a
    target other than the sentinel deletes nothing, clears the flag and
    leaves the global grant of r3 behind: I1 is violated when the
    operation has completed. *)
Lemma C3_counterexample :
  I1 store_overlap
  ∧ shareResource "r1" ST_global "global" "u1" ["read"%string]
      "2024-01-03T00:00:00.000Z" store_overlap
    = create_rule
        (new_rule "r1" ST_global "global" "u1" ["read"%string]
           "2024-01-03T00:00:00.000Z")
        (Resource_update_isGlobal "r1" true "2024-01-03T00:00:00.000Z"
           store_overlap)
  ∧ ¬ I1 (Resource_update_isGlobal "r1" true "2024-01-03T00:00:00.000Z"
            store_overlap)
  ∧ ¬ I1 (unshareResource "r3" ST_global "r3" "2024-01-03T00:00:00.000Z"
            store_overlap)
  ∧ has_global_grant "r3"
      (unshareResource "r3" ST_global "r3" "2024-01-03T00:00:00.000Z"
         store_overlap) = true
  ∧ (Resource.isGlobal <$>
       Resource_get "r3"
         (unshareResource "r3" ST_global "r3" "2024-01-03T00:00:00.000Z"
            store_overlap)) = Some false.
Proof.
  split; [apply (bool_decide_unpack _); vm_compute; exact I|].
  split; [reflexivity|].
  split; [apply (bool_decide_unpack _); vm_compute; exact I|].
  split; [apply (bool_decide_unpack _); vm_compute; exact I|].
  split; vm_compute; reflexivity.
Qed.

(** C3, as the code has it.  On a store where I1 holds, I1 holds again
    when [shareResource] has completed, whatever its arguments and whether
    it returned or threw, and when [unshareResource] has completed,
    provided a ['global'] unshare names the sentinel target.  After a
    ['global'] share of an existing resource the grant exists and the flag
    is true; after a ['global'] unshare with the sentinel the grant is
    gone and the flag is false.  The two writes of either operation are
    separate steps. *)
Theorem C3_I1_on_completion s :
  I1 s →
  (∀ rid st tid sharedBy permissions now,
     I1 (shareResource rid st tid sharedBy permissions now s).1)
  ∧ (∀ rid st tid now,
       (st = ST_global → tid = "global"%string) →
       I1 (unshareResource rid st tid now s))
  ∧ (∀ rid tid sharedBy permissions now,
       is_Some (Resource_get rid s) →
       let s' := (shareResource rid ST_global tid sharedBy permissions now s).1 in
       has_global_grant rid s' = true
       ∧ ∀ r, r ∈ resources s' → Resource.resourceId r = rid →
              Resource.isGlobal r = true)
  ∧ (∀ rid now,
       let s' := unshareResource rid ST_global "global" now s in
       has_global_grant rid s' = false
       ∧ ∀ r, r ∈ resources s' → Resource.resourceId r = rid →
              Resource.isGlobal r = false).
Proof.
  intros HI. split_and!.
  - intros. by apply I1_shareResource.
  - intros. by apply I1_unshareResource.
  - intros rid tid sharedBy permissions now [r0 Hget]. unfold shareResource.
    rewrite Hget.
    pose proof (share_global_state rid sharedBy permissions now s) as (Hg & _ & Hres).
    split; [exact Hg|]. intros r Hr Hid.
    destruct (Hres r Hr) as [[_ ?]|[? _]]; done.
  - intros rid now.
    pose proof (unshare_global_state rid now s) as (Hg & _ & Hres).
    split; [exact Hg|]. intros r Hr Hid.
    destruct (Hres r Hr) as [[_ ?]|[? _]]; done.
Qed.

Lemma C3_I1_on_completion_witness :
  I1 store_overlap
  ∧ (∀ rid st tid sharedBy permissions now,
       I1 (shareResource rid st tid sharedBy permissions now store_overlap).1)
  ∧ (∀ rid st tid now,
       (st = ST_global → tid = "global"%string) →
       I1 (unshareResource rid st tid now store_overlap))
  ∧ (∀ rid tid sharedBy permissions now,
       is_Some (Resource_get rid store_overlap) →
       let s' := (shareResource rid ST_global tid sharedBy permissions now
                    store_overlap).1 in
       has_global_grant rid s' = true
       ∧ ∀ r, r ∈ resources s' → Resource.resourceId r = rid →
              Resource.isGlobal r = true)
  ∧ (∀ rid now,
       let s' := unshareResource rid ST_global "global" now store_overlap in
       has_global_grant rid s' = false
       ∧ ∀ r, r ∈ resources s' → Resource.resourceId r = rid →
              Resource.isGlobal r = false).
Proof.
  split; [apply (bool_decide_unpack _); vm_compute; exact I|].
  apply (C3_I1_on_completion store_overlap).
  apply (bool_decide_unpack _). vm_compute. exact I.
Defined.

(** ** Share, then unshare *)

Lemma key_exists_false rid st tid s :
  key_exists rid st tid s = false →
  ∀ y, y ∈ sharing s → ¬ same_key rid st tid y.
Proof.
  unfold key_exists. intros Hnone y Hy Hkey.
  assert (existsb (λ r, bool_decide (same_key rid st tid r)) (sharing s) = true);
    [|congruence].
  apply existsb_exists. exists y. split; [by apply list_elem_of_In|].
  by apply bool_decide_eq_true.
Qed.

Lemma delete_index_insert (Q : ResourceSharing.t → Prop)
    `{∀ x, Decision (Q x)} x l :
  ¬ Q x → (∀ y, y ∈ l → Q y) → filter Q (index_insert x l) = l.
Proof.
  intros Hx. induction l as [|y l IH]; intros Hl; simpl.
  - by rewrite filter_cons_False, filter_nil.
  - destruct (primary_leb x y).
    + rewrite filter_cons_False by done. apply filter_all. done.
    + rewrite filter_cons_True by (apply Hl; left).
      f_equal. apply IH. intros z Hz. apply Hl. by right.
Qed.

Lemma share_new_key s rid st tid sharedBy permissions now :
  key_exists rid st tid s = false →
  create_rule (new_rule rid st tid sharedBy permissions now) s
  = (with_sharing
       (index_insert (new_rule rid st tid sharedBy permissions now) (sharing s)) s,
     inr (new_rule rid st tid sharedBy permissions now)).
Proof.
  intros Hkey. unfold create_rule, ResourceSharing_create. simpl. by rewrite Hkey.
Qed.

Lemma share_existing_key s rid st tid sharedBy permissions now :
  key_exists rid st tid s = true →
  create_rule (new_rule rid st tid sharedBy permissions now) s
  = (s, inl (FailedToShareResource ItemExists)).
Proof.
  intros Hkey. unfold create_rule, ResourceSharing_create. simpl. by rewrite Hkey.
Qed.

(** The claim as worded fails on the sample store: r1 and u4 exist, u4
    already holds a direct grant on r1, so [shareResource] throws and
    changes nothing, and the [unshareResource] that follows removes the
    grant that was there before: u4 has left the access list of r1. *)
Lemma C8_counterexample :
  let shared := shareResource "r1" ST_user "u4" "u2" ["read"%string]
                  "2024-01-03T00:00:00.000Z" store_overlap in
  let after := unshareResource "r1" ST_user "u4" "2024-01-04T00:00:00.000Z"
                 shared.1 in
  is_Some (Resource_get "r1" store_overlap)
  ∧ is_Some (User_get "u4" store_overlap)
  ∧ shared = (store_overlap, inl (FailedToShareResource ItemExists))
  ∧ (∃ res, getResourceAccessList "r1" store_overlap = inr res
            ∧ AccessList.totalUsers res = 4
            ∧ ("u4"%string, AT_direct) ∈ provenance res)
  ∧ (∃ res, getResourceAccessList "r1" after = inr res
            ∧ AccessList.totalUsers res = 3
            ∧ provenance res
              = [("u1"%string, AT_group); ("u2"%string, AT_group);
                 ("u3"%string, AT_group); ("u1"%string, AT_direct)])
  ∧ getResourceAccessList "r1" after ≠ getResourceAccessList "r1" store_overlap.
Proof.
  cbv zeta.
  split; [by eexists|]. split; [by eexists|].
  split; [vm_compute; reflexivity|].
  split.
  { eexists. split; [vm_compute; reflexivity|]. split; [vm_compute; reflexivity|].
    apply (bool_decide_unpack _). vm_compute. exact I. }
  split.
  { eexists. split; [|split]; vm_compute; reflexivity. }
  vm_compute. intros Heq. discriminate Heq.
Qed.

(** C8, as the code has it.  For an existing resource and an existing
    user who holds no direct grant on it yet, [shareResource] with share
    type ['user'] succeeds and the [unshareResource] that follows gives
    back the store as it was before the share, and with it the same
    answer of [getResourceAccessList]: same [totalUsers], same entries. *)
Theorem C8_round_trip s rid uid sharedBy permissions now now' :
  is_Some (Resource_get rid s) →
  is_Some (User_get uid s) →
  key_exists rid ST_user uid s = false →
  let shared := shareResource rid ST_user uid sharedBy permissions now s in
  shared.2 = inr (new_rule rid ST_user uid sharedBy permissions now)
  ∧ unshareResource rid ST_user uid now' shared.1 = s
  ∧ getResourceAccessList rid (unshareResource rid ST_user uid now' shared.1)
    = getResourceAccessList rid s.
Proof.
  intros [r Hr] [u Hu] Hkey. cbv zeta.
  assert (Hshare : shareResource rid ST_user uid sharedBy permissions now s
          = (with_sharing
               (index_insert (new_rule rid ST_user uid sharedBy permissions now)
                  (sharing s)) s,
             inr (new_rule rid ST_user uid sharedBy permissions now))).
  { unfold shareResource. rewrite Hr, Hu. by apply share_new_key. }
  rewrite Hshare. cbn [fst snd].
  assert (Hback : unshareResource rid ST_user uid now'
            (with_sharing
               (index_insert (new_rule rid ST_user uid sharedBy permissions now)
                  (sharing s)) s) = s).
  { unfold unshareResource, ResourceSharing_delete. cbn [sharing with_sharing].
    rewrite delete_index_insert.
    - by destruct s.
    - intros Hn. apply Hn. by unfold same_key.
    - by apply key_exists_false. }
  rewrite Hback. done.
Qed.

Lemma C8_round_trip_witness :
  is_Some (Resource_get "r1" store_overlap)
  ∧ is_Some (User_get "u5" store_overlap)
  ∧ key_exists "r1" ST_user "u5" store_overlap = false
  ∧ let shared := shareResource "r1" ST_user "u5" "u1" ["read"%string]
                    "2024-01-03T00:00:00.000Z" store_overlap in
    shared.2 = inr (new_rule "r1" ST_user "u5" "u1" ["read"%string]
                      "2024-01-03T00:00:00.000Z")
    ∧ unshareResource "r1" ST_user "u5" "2024-01-04T00:00:00.000Z" shared.1
      = store_overlap
    ∧ getResourceAccessList "r1"
        (unshareResource "r1" ST_user "u5" "2024-01-04T00:00:00.000Z" shared.1)
      = getResourceAccessList "r1" store_overlap.
Proof.
  split; [by eexists|]. split; [by eexists|]. split; [reflexivity|].
  apply (C8_round_trip store_overlap "r1" "u5" "u1" ["read"%string]
           "2024-01-03T00:00:00.000Z" "2024-01-04T00:00:00.000Z");
    [by eexists|by eexists|reflexivity].
Defined.

(** ** Sharing under a key that exists *)

(** The claim as worded fails on the sample store: r1 and u4 exist and
    the rule (r1, user, u4) exists; sharing r1 with u4 again, by another
    user and with other permissions, returns an error and the rule keeps
    its [sharedBy], [sharedAt] and [permissions]. *)
Lemma C9_counterexample :
  let result := shareResource "r1" ST_user "u4" "u2" ["read"; "write"]%string
                  "2024-01-03T00:00:00.000Z" store_overlap in
  is_Some (Resource_get "r1" store_overlap)
  ∧ is_Some (User_get "u4" store_overlap)
  ∧ key_exists "r1" ST_user "u4" store_overlap = true
  ∧ result.2 = inl (FailedToShareResource ItemExists)
  ∧ filter (same_key "r1" ST_user "u4") (sharing result.1)
    = [sample_rule "r1" ST_user "u4" "u1"].
Proof.
  cbv zeta. split; [by eexists|]. split; [by eexists|].
  split; [reflexivity|]. split; vm_compute; reflexivity.
Qed.

(** C9, as the code has it.  When the resource and the target exist and
    a rule is already filed under the key, [shareResource] throws (the
    [create] of the rule fails on the key) and the sharing table is left
    as it was: nothing is overwritten. *)
Theorem C9_existing_key_fails s rid st tid sharedBy permissions now :
  is_Some (Resource_get rid s) →
  (st = ST_user → is_Some (User_get tid s)) →
  (st = ST_group → is_Some (Group_get tid s)) →
  key_exists rid st (effective_target st tid) s = true →
  let result := shareResource rid st tid sharedBy permissions now s in
  result.2 = inl (FailedToShareResource ItemExists)
  ∧ sharing result.1 = sharing s.
Proof.
  intros [r Hr] Huser Hgroup Hkey. cbv zeta. unfold shareResource. rewrite Hr.
  destruct st; cbn [effective_target] in Hkey.
  - destruct (Huser eq_refl) as [u ->]. by rewrite share_existing_key.
  - destruct (Hgroup eq_refl) as [g ->]. by rewrite share_existing_key.
  - rewrite share_existing_key.
    + cbn [fst snd]. split; [done|].
      unfold Resource_update_isGlobal. by rewrite Hr.
    + unfold key_exists, Resource_update_isGlobal in *. by rewrite Hr.
Qed.

Lemma C9_existing_key_fails_witness :
  is_Some (Resource_get "r1" store_overlap)
  ∧ is_Some (User_get "u4" store_overlap)
  ∧ key_exists "r1" ST_user (effective_target ST_user "u4") store_overlap = true
  ∧ let result := shareResource "r1" ST_user "u4" "u2" ["read"; "write"]%string
                    "2024-01-03T00:00:00.000Z" store_overlap in
    result.2 = inl (FailedToShareResource ItemExists)
    ∧ sharing result.1 = sharing store_overlap.
Proof.
  split; [by eexists|]. split; [by eexists|]. split; [reflexivity|].
  apply (C9_existing_key_fails store_overlap "r1" ST_user "u4" "u2"
           ["read"; "write"]%string "2024-01-03T00:00:00.000Z");
    [by eexists|by eexists|discriminate|reflexivity].
Defined.

(** ** Dangling references *)

Lemma foldl_filter_noop {A B} (f : A → B → A) (Q : B → Prop)
    `{∀ x, Decision (Q x)} (l : list B) (a : A) :
  (∀ a x, ¬ Q x → f a x = a) →
  foldl f a (filter Q l) = foldl f a l.
Proof.
  intros Hnoop. revert a. induction l as [|x l IH]; intros a; [done|].
  rewrite filter_cons. destruct (decide (Q x)); cbn [foldl].
  - apply IH.
  - rewrite Hnoop by done. apply IH.
Qed.

Lemma filter_comm {A} (P Q : A → Prop) `{∀ x, Decision (P x)}
    `{∀ x, Decision (Q x)} (l : list A) :
  filter P (filter Q l) = filter Q (filter P l).
Proof. rewrite !list_filter_filter. apply list_filter_iff. tauto. Qed.

Lemma filter_concat_map {A B} (Q : B → Prop) `{∀ x, Decision (Q x)}
    (f : A → list B) (l : list A) :
  concat (map (λ x, filter Q (f x)) l) = filter Q (concat (map f l)).
Proof.
  induction l as [|x l IH]; [done|]. simpl. by rewrite filter_app, IH.
Qed.

Lemma process_rule_dangling s st rule :
  ¬ ¬ dangling_user_rule s rule → process_rule s st rule = st.
Proof.
  intros Hd. destruct (decide (dangling_user_rule s rule)) as [[Ht Hu]|]; [|done].
  unfold process_rule. by rewrite Ht, Hu.
Qed.

Lemma process_share_dangling s mk st share :
  ¬ ¬ dangling_resource_rule s share → process_share s mk st share = st.
Proof.
  intros Hd. destruct (decide (dangling_resource_rule s share)) as [Hr|]; [|done].
  unfold process_share. unfold dangling_resource_rule in Hr. rewrite Hr.
  by destruct (decide (_ ∈ _)).
Qed.

Lemma forward_without_dangling s rid :
  getResourceAccessList rid (without_dangling_user_rules s)
  = getResourceAccessList rid s.
Proof.
  unfold getResourceAccessList.
  change (Resource_get rid (without_dangling_user_rules s))
    with (Resource_get rid s).
  destruct (Resource_get rid s) as [r|]; [|done].
  destruct (Resource.isGlobal r); [done|]. do 2 f_equal.
  unfold process_rules, ResourceSharing_query_primary.
  cbn [sharing without_dangling_user_rules with_sharing].
  rewrite filter_comm.
  change (process_rule (without_dangling_user_rules s)) with (process_rule s).
  apply foldl_filter_noop. intros st rule. apply process_rule_dangling.
Qed.

Lemma reverse_without_dangling s uid :
  getUserResources uid (without_dangling_resource_rules s)
  = getUserResources uid s.
Proof.
  unfold getUserResources.
  change (User_get uid (without_dangling_resource_rules s)) with (User_get uid s).
  destruct (User_get uid s) as [u|]; [|done]. cbv zeta.
  change (UserGroup_query_primary uid (without_dangling_resource_rules s))
    with (UserGroup_query_primary uid s).
  change (Resource_query_globalResources (without_dangling_resource_rules s))
    with (Resource_query_globalResources s).
  change (process_share (without_dangling_resource_rules s))
    with (process_share s).
  unfold groupShares_of, ResourceSharing_query_byTarget.
  cbn [sharing without_dangling_resource_rules with_sharing].
  rewrite filter_comm.
  rewrite (foldl_filter_noop (process_share s direct_access))
    by (intros st share; apply process_share_dangling).
  assert (Hgroups : ∀ gids,
    concat (map (λ groupId, filter (λ r, ResourceSharing.targetId r = groupId)
                   (filter (λ r, ¬ dangling_resource_rule s r) (sharing s))) gids)
    = filter (λ r, ¬ dangling_resource_rule s r)
        (concat (map (λ groupId, filter (λ r, ResourceSharing.targetId r = groupId)
                        (sharing s)) gids))).
  { intros gids. rewrite <- filter_concat_map. f_equal.
    apply map_ext. intros g. apply filter_comm. }
  rewrite Hgroups.
  rewrite (foldl_filter_noop (process_share s group_access))
    by (intros st share; apply process_share_dangling).
  done.
Qed.




(** On the sample store the grant of r1 to the deleted user u9 and the
    grant of the deleted resource r9 to u1 leave no trace: r1 is reached
    by u2 (through g1; the member row of the deleted u9 is skipped) and
    by u1, and u1 reaches r1 only. *)
Example dangling_on_store_dangling :
  (∃ res, getResourceAccessList "r1" store_dangling = inr res
          ∧ AccessList.totalUsers res = 2
          ∧ provenance res = [("u2"%string, AT_group); ("u1"%string, AT_direct)])
  ∧ (∃ res, getUserResources "u1" store_dangling = inr res
            ∧ ResourceList.totalResources res = 1
            ∧ entry_id <$> ResourceList.resources res = ["r1"%string])
  ∧ sharing (without_dangling_user_rules store_dangling)
    = [sample_rule "r1" ST_group "g1" "u1"; sample_rule "r1" ST_user "u1" "u1";
       sample_rule "r9" ST_user "u1" "u1"]
  ∧ sharing (without_dangling_resource_rules store_dangling)
    = [sample_rule "r1" ST_group "g1" "u1"; sample_rule "r1" ST_user "u1" "u1";
       sample_rule "r1" ST_user "u9" "u1"].
Proof.
  split; [eexists; (split; [|split]); vm_compute; reflexivity|].
  split; [eexists; (split; [|split]); vm_compute; reflexivity|].
  split; vm_compute; reflexivity.
Qed.

(** ** Symmetry of the two resolvers *)

(** C7.  The code run on a store in which a user and a group share the
    identifier "admin": r1 exists and is shared with the user "admin";
    u1 exists and is a member of the group "admin".  The forward resolver
    lists only "admin" for r1, yet the reverse resolver lists r1 for u1,
    as a group share: the lookup by target returns the user-type rule for
    the group of the same name. *)
Theorem C7_same_id_breaks_symmetry :
  is_Some (Resource_get "r1" store_same_id)
  ∧ is_Some (User_get "u1" store_same_id)
  ∧ primary_ordered store_same_id
  ∧ ∃ fwd rev,
      getResourceAccessList "r1" store_same_id = inr fwd
      ∧ getUserResources "u1" store_same_id = inr rev
      ∧ provenance fwd = [("admin"%string, AT_direct)]
      ∧ (λ e, (entry_id e, ResourceAccess.accessType e, ResourceAccess.groupId e))
          <$> ResourceList.resources rev
        = [("r1"%string, AT_group, Some "admin"%string)]
      ∧ ("u1"%string ∉ listed_users fwd)
      ∧ ("r1"%string ∈ listed_resources rev).
Proof.
  split; [by eexists|]. split; [by eexists|]. split; [reflexivity|].
  do 2 eexists.
  split; [vm_compute; reflexivity|]. split; [vm_compute; reflexivity|].
  split; [vm_compute; reflexivity|]. split; [vm_compute; reflexivity|].
  split; apply (bool_decide_unpack _); vm_compute; exact I.
Qed.

(** Away from such stores the two resolvers agree.  First, what each of
    them lists. *)

Lemma process_member_users s rule st m :
  list_to_set (AccessDetail.userId <$> st.2) = st.1 →
  list_to_set (AccessDetail.userId <$> (process_member s rule st m).2)
  = (process_member s rule st m).1.
Proof.
  intros Hst. unfold process_member.
  destruct (decide (UserGroup.userId m ∈ st.1)); [done|].
  destruct (User_get (UserGroup.userId m) s); [|done]. cbn [fst snd].
  rewrite fmap_app, list_to_set_app_L, Hst. set_solver.
Qed.

Lemma process_rule_users s st rule :
  list_to_set (AccessDetail.userId <$> st.2) = st.1 →
  list_to_set (AccessDetail.userId <$> (process_rule s st rule).2)
  = (process_rule s st rule).1.
Proof.
  intros Hst. unfold process_rule. destruct (ResourceSharing.shareType rule).
  - destruct (User_get (ResourceSharing.targetId rule) s); [|done]. cbn [fst snd].
    rewrite fmap_app, list_to_set_app_L, Hst. set_solver.
  - generalize (UserGroup_query_byGroup (ResourceSharing.targetId rule) s).
    intros ms. revert st Hst. induction ms as [|m ms IH]; intros st Hst; [done|].
    cbn [foldl]. apply IH. by apply process_member_users.
  - done.
Qed.

Lemma process_rules_users s rules :
  list_to_set (AccessDetail.userId <$> (process_rules s rules).2)
  = (process_rules s rules).1.
Proof.
  unfold process_rules.
  assert (Hinit : list_to_set (AccessDetail.userId <$> (∅ : gset string, @nil AccessDetail.t).2)
                  = (∅ : gset string, @nil AccessDetail.t).1) by done.
  revert Hinit. generalize (∅ : gset string, @nil AccessDetail.t).
  induction rules as [|r rules IH]; intros st Hst; [done|].
  cbn [foldl]. apply IH. by apply process_rule_users.
Qed.

Lemma elem_of_direct_users s rid uid :
  uid ∈ direct_users s rid ↔
  user_exists s uid
  ∧ ∃ rule, rule ∈ sharing s
      ∧ ResourceSharing.resourceId rule = rid
      ∧ ResourceSharing.shareType rule = ST_user
      ∧ ResourceSharing.targetId rule = uid.
Proof.
  unfold direct_users, ResourceSharing_query_primary.
  rewrite elem_of_list_to_set, list_elem_of_filter, list_elem_of_fmap.
  split.
  - intros [Hex (rule & -> & Hrule)]. split; [done|]. exists rule.
    apply list_elem_of_filter in Hrule as [Hu Hrule].
    apply list_elem_of_filter in Hrule as [Hr Hrule]. done.
  - intros [Hex (rule & Hin & Hr & Hu & Ht)]. split; [done|]. exists rule.
    split; [done|]. rewrite !list_elem_of_filter. done.
Qed.

Lemma elem_of_group_users s rid uid :
  uid ∈ group_users s rid ↔
  user_exists s uid
  ∧ ∃ rule ug, rule ∈ sharing s ∧ ug ∈ userGroups s
      ∧ ResourceSharing.resourceId rule = rid
      ∧ ResourceSharing.shareType rule = ST_group
      ∧ UserGroup.groupId ug = ResourceSharing.targetId rule
      ∧ UserGroup.userId ug = uid.
Proof.
  unfold group_users, granted_groups, members_of, ResourceSharing_query_primary,
    UserGroup_query_byGroup.
  rewrite elem_of_union_list. split.
  - intros (X & HX & Hin).
    apply list_elem_of_fmap in HX as (g & -> & Hg).
    apply list_elem_of_fmap in Hg as (rule & -> & Hrule).
    apply list_elem_of_filter in Hrule as [Hgr Hrule].
    apply list_elem_of_filter in Hrule as [Hr Hrule].
    apply elem_of_list_to_set, list_elem_of_filter in Hin as [Hex Hin].
    apply list_elem_of_fmap in Hin as (ug & -> & Hug).
    apply list_elem_of_filter in Hug as [Hgid Hug].
    split; [done|]. exists rule, ug. done.
  - intros [Hex (rule & ug & Hrule & Hug & Hr & Hgr & Hgid & Huid)].
    eexists. split.
    + apply list_elem_of_fmap. exists (ResourceSharing.targetId rule).
      split; [reflexivity|]. apply list_elem_of_fmap. exists rule.
      split; [done|]. rewrite !list_elem_of_filter. done.
    + apply elem_of_list_to_set, list_elem_of_filter. split; [done|].
      apply list_elem_of_fmap. exists ug. split; [done|].
      apply list_elem_of_filter. done.
Qed.

Lemma elem_of_groupShares s gids share :
  share ∈ groupShares_of s gids ↔
  share ∈ sharing s ∧ ResourceSharing.targetId share ∈ gids.
Proof.
  unfold groupShares_of, ResourceSharing_query_byTarget.
  induction gids as [|g gids IH]; simpl.
  - split; [intros H; by apply not_elem_of_nil in H|].
    intros [_ H]. by apply not_elem_of_nil in H.
  - rewrite elem_of_app, IH, list_elem_of_filter, elem_of_cons. naive_solver.
Qed.

Lemma elem_of_listed_resources s uid u R :
  User_get uid s = Some u →
  ∃ rev, getUserResources uid s = inr rev
    ∧ (R ∈ listed_resources rev ↔ ∃ c, c ∈ candidates s uid ∧ entry_id c = R).
Proof.
  intros Hu. eexists. split; [by apply (getUserResources_merged s uid u)|].
  unfold listed_resources, merged_by_priority. cbn [ResourceList.resources].
  split.
  - intros (c & -> & Hc)%list_elem_of_fmap. exists c. split; [|done].
    by apply first_wins_elem_of in Hc.
  - intros (c & Hc & <-). destruct (first_wins_covers ∅ _ _ Hc) as [Hin|Hin].
    + set_solver.
    + unfold ids_of in Hin. by apply elem_of_list_to_set in Hin.
Qed.

Lemma NoDup_fmap_inj {A B} (f : A → B) (l : list A) x y :
  NoDup (f <$> l) → x ∈ l → y ∈ l → f x = f y → x = y.
Proof.
  induction l as [|z l IH]; [intros _ H; by apply not_elem_of_nil in H|].
  rewrite fmap_cons, NoDup_cons. intros [Hz Hl].
  intros [->|Hx]%elem_of_cons [->|Hy]%elem_of_cons Hf; [done|..].
  - exfalso. apply Hz. rewrite Hf. apply list_elem_of_fmap. eauto.
  - exfalso. apply Hz. rewrite <- Hf. apply list_elem_of_fmap. eauto.
  - by apply IH.
Qed.

Lemma elem_of_candidates s uid R r :
  Resource_get R s = Some r →
  (∃ c, c ∈ candidates s uid ∧ entry_id c = R) ↔
  (∃ share, share ∈ sharing s
      ∧ ResourceSharing.resourceId share = R
      ∧ ResourceSharing.targetId share = uid)
  ∨ (∃ share ug, share ∈ sharing s ∧ ug ∈ userGroups s
        ∧ ResourceSharing.resourceId share = R
        ∧ UserGroup.userId ug = uid
        ∧ ResourceSharing.targetId share = UserGroup.groupId ug)
  ∨ (∃ r', r' ∈ resources s ∧ Resource.isGlobal r' = true
        ∧ Resource.resourceId r' = R).
Proof.
  intros Hr. unfold candidates, direct_candidates, group_candidates,
    global_candidates. split.
  - intros (c & Hc & Hid). rewrite !elem_of_app in Hc. destruct Hc as [Hc|[Hc|Hc]].
    + left. apply elem_of_share_candidates in Hc as (share & r' & Hs & Hget & ->).
      unfold ResourceSharing_query_byTarget in Hs.
      apply list_elem_of_filter in Hs as [Ht Hs].
      exists share. split_and!; [done| |done].
      apply Resource_get_resourceId in Hget. by rewrite <- Hid, <- Hget.
    + right; left.
      apply elem_of_share_candidates in Hc as (share & r' & Hs & Hget & ->).
      apply elem_of_groupShares in Hs as [Hs Hg].
      apply list_elem_of_fmap in Hg as (ug & Hg & Hug).
      unfold UserGroup_query_primary in Hug.
      apply list_elem_of_filter in Hug as [Huid Hug].
      exists share, ug. split_and!; [done..| |done|done].
      apply Resource_get_resourceId in Hget. by rewrite <- Hid, <- Hget.
    + right; right. apply list_elem_of_fmap in Hc as (r' & -> & Hr').
      unfold Resource_query_globalResources in Hr'.
      apply list_elem_of_filter in Hr' as [Hg Hr']. by exists r'.
  - intros [(share & Hs & Hrid & Ht)|[(share & ug & Hs & Hug & Hrid & Huid & Ht)|
                                       (r' & Hr' & Hg & Hid)]].
    + exists (direct_access share r). split; [|by eapply Resource_get_resourceId].
      rewrite !elem_of_app. left. unfold share_candidates.
      apply list_elem_of_omap. exists share. split.
      * unfold ResourceSharing_query_byTarget. by apply list_elem_of_filter.
      * by rewrite Hrid, Hr.
    + exists (group_access share r). split; [|by eapply Resource_get_resourceId].
      rewrite !elem_of_app. right; left. unfold share_candidates.
      apply list_elem_of_omap. exists share. split.
      * apply elem_of_groupShares. split; [done|]. rewrite Ht.
        apply list_elem_of_fmap. exists ug. split; [done|].
        unfold UserGroup_query_primary. by apply list_elem_of_filter.
      * by rewrite Hrid, Hr.
    + exists (global_access r'). split; [|done].
      rewrite !elem_of_app. right; right. apply list_elem_of_fmap.
      exists r'. split; [done|].
      unfold Resource_query_globalResources. by apply list_elem_of_filter.
Qed.

(** Symmetry on typed identifiers: for an existing resource and an
    existing user, in a store whose resources have distinct keys and whose
    rules target the user's identifier and the identifiers of the user's
    groups with the matching share type, the user is listed for the
    resource iff the resource is listed for the user. *)
Theorem symmetry_on_typed_targets s R U r u :
  Resource_get R s = Some r →
  User_get U s = Some u →
  NoDup (Resource.resourceId <$> resources s) →
  targets_typed_for s U →
  ∃ fwd rev,
    getResourceAccessList R s = inr fwd
    ∧ getUserResources U s = inr rev
    ∧ (U ∈ listed_users fwd ↔ R ∈ listed_resources rev).
Proof.
  intros Hr Hu Hkeys [Huser Hgroup].
  destruct (elem_of_listed_resources s U u R Hu) as (rev & Hrev & Hlisted).
  pose proof (elem_of_candidates s U R r Hr) as Hcand.
  assert (Hex : user_exists s U) by by eapply user_exists_Some.
  destruct (Resource.isGlobal r) eqn:Hg.
  - (* global: every registered user is listed, and the resource is a
       candidate of every user *)
    eexists _, rev. split; [|split; [exact Hrev|]].
    { unfold getResourceAccessList. by rewrite Hr, Hg. }
    rewrite Hlisted, Hcand. unfold listed_users. cbn [access_list AccessList.users].
    rewrite foldl_add_global_user. cbn [snd app]. split.
    + intros _. right; right. exists r. split_and!; [|done|].
      * by eapply Resource_get_elem_of.
      * by eapply Resource_get_resourceId.
    + intros _. rewrite <- list_fmap_compose.
      apply list_elem_of_fmap. exists u. split.
      * symmetry. by eapply User_get_userId.
      * unfold User_get in Hu. apply List.find_some in Hu as [Hu _].
        by apply list_elem_of_In.
  - eexists _, rev. split; [|split; [exact Hrev|]].
    { by apply (not_global_access_list s R r). }
    rewrite Hlisted, Hcand. unfold listed_users. cbn [access_list AccessList.users].
    rewrite <- (elem_of_list_to_set (C:=gset string)), process_rules_users,
      seen_set_is_union.
    unfold access_paths. rewrite union_list_cons, elem_of_union.
    fold (group_users s R).
    rewrite elem_of_direct_users, elem_of_group_users. split.
    + intros [[_ (rule & Hin & Hrid & _ & Ht)]
             |[_ (rule & ug & Hin & Hug & Hrid & _ & Hgid & Huid)]].
      * left. by exists rule.
      * right; left. by exists rule, ug.
    + intros [(share & Hs & Hrid & Ht)
             |[(share & ug & Hs & Hug & Hrid & Huid & Ht)|(r' & Hr' & Hg' & Hid)]].
      * left. split; [done|]. exists share. split_and!; try done. by apply Huser.
      * right. split; [done|]. exists share, ug. split_and!; try done.
        by apply (Hgroup share ug).
      * exfalso. assert (r' = r); [|congruence].
        apply (NoDup_fmap_inj Resource.resourceId (resources s)); [done..| |].
        -- by eapply Resource_get_elem_of.
        -- rewrite Hid. symmetry. by eapply Resource_get_resourceId.
Qed.

(** The sample store is typed for u2: the only rule that targets "u2" is a
    user-type rule and the rules that target its groups g1 and g2 are
    group-type rules. *)
Lemma symmetry_on_store_overlap :
  ∃ fwd rev,
    getResourceAccessList "r1" store_overlap = inr fwd
    ∧ getUserResources "u2" store_overlap = inr rev
    ∧ ("u2"%string ∈ listed_users fwd ↔ "r1"%string ∈ listed_resources rev).
Proof.
  apply (symmetry_on_typed_targets store_overlap "r1" "u2"
           (sample_resource "r1" "u1" false) (sample_user "u2")).
  - reflexivity.
  - reflexivity.
  - apply (bool_decide_unpack _). vm_compute. exact I.
  - split.
    + intros rule Hin Ht. cbn [sharing store_overlap] in Hin.
      repeat (apply elem_of_cons in Hin as [->|Hin]); try done.
      by apply not_elem_of_nil in Hin.
    + intros rule ug Hin Hug Hu Ht.
      cbn [sharing userGroups store_overlap] in Hin, Hug.
      repeat (apply elem_of_cons in Hug as [->|Hug]);
        try (by apply not_elem_of_nil in Hug); try done;
        (repeat (apply elem_of_cons in Hin as [->|Hin]);
         try (by apply not_elem_of_nil in Hin); done).
Qed.

(** ** The grant mutator keeps the sharing table in index order *)

Lemma String_compare_Lt_trans x y z :
  String.compare x y = Lt → String.compare y z = Lt → String.compare x z = Lt.
Proof.
  intros Hxy Hyz. apply String_as_OT.cmp_lt.
  apply String_as_OT.lt_trans with y; by apply String_as_OT.cmp_lt.
Qed.

Lemma String_ltb_trans x y z :
  String.ltb x y = true → String.ltb y z = true → String.ltb x z = true.
Proof.
  unfold String.ltb. intros Hxy Hyz.
  destruct (String.compare x y) eqn:Exy; try done.
  destruct (String.compare y z) eqn:Eyz; try done.
  by rewrite (String_compare_Lt_trans x y z).
Qed.

Lemma String_leb_trans x y z :
  String.leb x y = true → String.leb y z = true → String.leb x z = true.
Proof.
  unfold String.leb. intros Hxy Hyz.
  destruct (String.compare x y) eqn:Exy; try done.
  - apply String.compare_eq_iff in Exy as ->. done.
  - destruct (String.compare y z) eqn:Eyz; try done.
    + apply String.compare_eq_iff in Eyz as <-. by rewrite Exy.
    + by rewrite (String_compare_Lt_trans x y z).
Qed.

Lemma String_ltb_total x y :
  String.ltb x y = false → x ≠ y → String.ltb y x = true.
Proof.
  unfold String.ltb. rewrite (String.compare_antisym x y).
  destruct (String.compare y x) eqn:Eyx; simpl; try done.
  apply String.compare_eq_iff in Eyx. congruence.
Qed.

Lemma sk_leb_trans a b c :
  sk_leb a b = true → sk_leb b c = true → sk_leb a c = true.
Proof.
  unfold sk_leb.
  intros [Hab|[Hab Hab']%andb_prop]%orb_prop [Hbc|[Hbc Hbc']%andb_prop]%orb_prop;
    apply orb_true_iff;
    try apply Nat.ltb_lt in Hab; try apply Nat.eqb_eq in Hab;
    try apply Nat.ltb_lt in Hbc; try apply Nat.eqb_eq in Hbc.
  - left. apply Nat.ltb_lt. lia.
  - left. apply Nat.ltb_lt. lia.
  - left. apply Nat.ltb_lt. lia.
  - right. apply andb_true_intro. split.
    + apply Nat.eqb_eq. lia.
    + by eapply String_leb_trans.
Qed.

Lemma sk_leb_total a b : sk_leb a b = false → sk_leb b a = true.
Proof.
  unfold sk_leb.
  intros [Hlt Heq]%orb_false_elim. apply Nat.ltb_ge in Hlt.
  apply orb_true_iff.
  destruct (decide (shareType_rank (ResourceSharing.shareType a)
                    = shareType_rank (ResourceSharing.shareType b))) as [Hr|Hr].
  - right. rewrite Hr, Nat.eqb_refl in *. simpl in *.
    destruct (String.leb_total (ResourceSharing.targetId a)
                (ResourceSharing.targetId b)); [congruence|done].
  - left. apply Nat.ltb_lt. lia.
Qed.

Lemma primary_leb_trans a b c :
  primary_leb a b = true → primary_leb b c = true → primary_leb a c = true.
Proof.
  unfold primary_leb.
  intros [Hab|[Hab Hab']%andb_prop]%orb_prop [Hbc|[Hbc Hbc']%andb_prop]%orb_prop;
    apply orb_true_iff;
    try apply bool_decide_eq_true in Hab; try apply bool_decide_eq_true in Hbc.
  - left. by eapply String_ltb_trans.
  - left. by rewrite <- Hbc.
  - left. by rewrite Hab.
  - right. apply andb_true_intro. split.
    + apply bool_decide_eq_true. congruence.
    + by eapply sk_leb_trans.
Qed.

Lemma primary_leb_total a b : primary_leb a b = false → primary_leb b a = true.
Proof.
  unfold primary_leb. intros [Hlt Heq]%orb_false_elim. apply orb_true_iff.
  destruct (decide (ResourceSharing.resourceId a = ResourceSharing.resourceId b))
    as [Hr|Hr].
  - right. rewrite bool_decide_eq_true_2 in Heq by done.
    rewrite bool_decide_eq_true_2 by done. simpl in *. by apply sk_leb_total.
  - left. by apply String_ltb_total.
Qed.

Lemma index_insert_ordered x l :
  ordered_by primary_leb l = true →
  ordered_by primary_leb (index_insert x l) = true.
Proof.
  induction l as [|y l IH]; [done|].
  cbn [ordered_by index_insert]. intros [Hy Hl]%andb_prop.
  destruct (primary_leb x y) eqn:Hxy; cbn [ordered_by forallb].
  - rewrite Hxy, Hy, Hl. simpl. rewrite andb_true_r.
    apply forallb_forall. intros z Hz%list_elem_of_In.
    apply (primary_leb_trans x y z); [done|]. by apply (forallb_elem_of _ l).
  - rewrite (IH Hl), andb_true_r.
    apply forallb_forall. intros z Hz%list_elem_of_In.
    assert (Hcases : z = x ∨ z ∈ l).
    { clear -Hz. induction l as [|w l IH]; simpl in Hz.
      - apply list_elem_of_singleton in Hz. by left.
      - destruct (primary_leb x w).
        + apply elem_of_cons in Hz as [->|Hz]; [by left|by right].
        + apply elem_of_cons in Hz as [->|Hz]; [right; by left|].
          destruct (IH Hz) as [->|?]; [by left|right; by right]. }
    destruct Hcases as [->|Hz'].
    + by apply primary_leb_total.
    + by apply (forallb_elem_of _ l).
Qed.

(** [shareResource] and [unshareResource] leave the sharing table in the
    order of its primary index. *)
Theorem mutators_keep_primary_order s :
  primary_ordered s →
  (∀ rid st tid sharedBy permissions now,
     primary_ordered (shareResource rid st tid sharedBy permissions now s).1)
  ∧ (∀ rid st tid now, primary_ordered (unshareResource rid st tid now s)).
Proof.
  unfold primary_ordered. intros Hord.
  assert (Hcreate : ∀ rule s0, ordered_by primary_leb (sharing s0) = true →
            ordered_by primary_leb (sharing (create_rule rule s0).1) = true).
  { intros rule s0 H0. unfold create_rule, ResourceSharing_create.
    destruct (key_exists _ _ _ s0); [done|]. by apply index_insert_ordered. }
  assert (Hupdate : ∀ rid b now s0,
            sharing (Resource_update_isGlobal rid b now s0) = sharing s0).
  { intros. unfold Resource_update_isGlobal. by destruct (Resource_get _ _). }
  split.
  - intros. unfold shareResource. destruct (Resource_get rid s); [|done].
    destruct st.
    + destruct (User_get tid s); [|done]. by apply Hcreate.
    + destruct (Group_get tid s); [|done]. by apply Hcreate.
    + apply Hcreate. by rewrite Hupdate.
  - intros. unfold unshareResource.
    assert (ordered_by primary_leb
              (sharing (ResourceSharing_delete rid st tid s)) = true).
    { by apply ordered_by_filter. }
    destruct st; [done|done|]. by rewrite Hupdate.
Qed.

(** * Further properties of the service *)

(** ** The reports *)

Lemma Resource_get_of_elem s r :
  r ∈ resources s → is_Some (Resource_get (Resource.resourceId r) s).
Proof.
  intros Hr. unfold Resource_get.
  destruct (List.find _ (resources s)) eqn:Hfind; [by eexists|].
  apply list_elem_of_In in Hr.
  pose proof (List.find_none _ _ Hfind r Hr) as Hnone.
  apply bool_decide_eq_false in Hnone. done.
Qed.

Lemma User_get_of_elem s u :
  u ∈ users s → is_Some (User_get (User.userId u) s).
Proof.
  intros Hu. unfold User_get.
  destruct (List.find _ (users s)) eqn:Hfind; [by eexists|].
  apply list_elem_of_In in Hu.
  pose proof (List.find_none _ _ Hfind u Hu) as Hnone.
  apply bool_decide_eq_false in Hnone. done.
Qed.

Lemma getResourceAccessList_succeeds s rid :
  is_Some (Resource_get rid s) → ∃ al, getResourceAccessList rid s = inr al.
Proof.
  intros [r Hr]. unfold getResourceAccessList. rewrite Hr.
  destruct (Resource.isGlobal r); by eexists.
Qed.

Lemma getUserResources_succeeds s uid :
  is_Some (User_get uid s) → ∃ rl, getUserResources uid s = inr rl.
Proof. intros [u Hu]. unfold getUserResources. rewrite Hu. by eexists. Qed.

Lemma resources_with_user_count_loop_ok s rs results :
  (∀ r, r ∈ rs → r ∈ resources s) →
  ∃ rows,
    resources_with_user_count_loop s rs results = inr (results ++ rows)
    ∧ Forall2 (λ r row,
         ∃ al, getResourceAccessList (Resource.resourceId r) s = inr al
               ∧ row = resource_row r al) rs rows.
Proof.
  revert results. induction rs as [|r rs IH]; intros results Hin.
  - exists []. split; [by rewrite app_nil_r|constructor].
  - cbn [resources_with_user_count_loop].
    destruct (getResourceAccessList_succeeds s (Resource.resourceId r))
      as [al Hal]; [apply Resource_get_of_elem, Hin; by left|].
    rewrite Hal.
    destruct (IH (results ++ [resource_row r al])) as (rows & Hloop & Hrows);
      [intros; apply Hin; by right|].
    exists (resource_row r al :: rows). split.
    + unfold resource_row in *. rewrite Hloop, <- app_assoc. done.
    + constructor; [by exists al|done].
Qed.

Lemma users_with_resource_count_loop_ok s us results :
  (∀ u, u ∈ us → u ∈ users s) →
  ∃ rows,
    users_with_resource_count_loop s us results = inr (results ++ rows)
    ∧ Forall2 (λ u row,
         ∃ rl, getUserResources (User.userId u) s = inr rl
               ∧ row = user_row u rl) us rows.
Proof.
  revert results. induction us as [|u us IH]; intros results Hin.
  - exists []. split; [by rewrite app_nil_r|constructor].
  - cbn [users_with_resource_count_loop].
    destruct (getUserResources_succeeds s (User.userId u))
      as [rl Hrl]; [apply User_get_of_elem, Hin; by left|].
    rewrite Hrl.
    destruct (IH (results ++ [user_row u rl])) as (rows & Hloop & Hrows);
      [intros; apply Hin; by right|].
    exists (user_row u rl :: rows). split.
    + unfold user_row in *. rewrite Hloop, <- app_assoc. done.
    + constructor; [by exists rl|done].
Qed.

(** ** What the resolvers list *)

Lemma size_list_to_set_le (l : list string) :
  size (list_to_set l : gset string) ≤ length l.
Proof.
  induction l as [|x l IH]; [by rewrite list_to_set_nil, size_empty|].
  rewrite list_to_set_cons. cbn [length].
  pose proof (size_union_le {[x]} (list_to_set l : gset string)) as Hle.
  rewrite size_singleton in Hle. lia.
Qed.

Lemma user_exists_listed s uid :
  user_exists s uid → uid ∈ (User.userId <$> users s).
Proof.
  intros [u Hu]. apply list_elem_of_fmap. exists u. split.
  - symmetry. by eapply User_get_userId.
  - unfold User_get in Hu. apply List.find_some in Hu as [Hu _].
    by apply list_elem_of_In.
Qed.

Lemma elem_of_rule_users_exists s rule uid :
  uid ∈ rule_users s rule → user_exists s uid.
Proof.
  unfold rule_users, members_of. destruct (ResourceSharing.shareType rule).
  - destruct (decide (user_exists _ _)); set_solver.
  - rewrite elem_of_list_to_set, list_elem_of_filter. tauto.
  - set_solver.
Qed.

Lemma process_rules_exist s rules uid :
  uid ∈ (process_rules s rules).1 → user_exists s uid.
Proof.
  unfold process_rules. rewrite foldl_process_rule_fst, elem_of_union.
  intros [?|Hin]; [set_solver|].
  apply elem_of_union_rule_users in Hin as (r & _ & Hin).
  by eapply elem_of_rule_users_exists.
Qed.

(** What an answer of the forward resolver is made of. *)
Lemma getResourceAccessList_state s rid al :
  getResourceAccessList rid s = inr al →
  ∃ st : AccessState,
    AccessList.totalUsers al = size st.1
    ∧ AccessList.users al = st.2
    ∧ list_to_set (AccessDetail.userId <$> st.2) = st.1
    ∧ ∀ uid, uid ∈ st.1 → uid ∈ (User.userId <$> users s).
Proof.
  unfold getResourceAccessList. destruct (Resource_get rid s) as [r|]; [|done].
  destruct (Resource.isGlobal r); intros Hal; injection Hal as <-.
  - eexists. split_and!; [reflexivity|reflexivity|..];
      rewrite foldl_add_global_user; cbn [fst snd app].
    + rewrite <- list_fmap_compose. set_solver.
    + intros uid. rewrite (right_id_L ∅ (∪)). by rewrite elem_of_list_to_set.
  - eexists. split_and!; [reflexivity|reflexivity|..].
    + apply process_rules_users.
    + intros uid Hin. by eapply user_exists_listed, process_rules_exist.
Qed.

Lemma getUserResources_inr s uid rl :
  getUserResources uid s = inr rl →
  is_Some (User_get uid s)
  ∧ rl = {| ResourceList.userId := uid;
            ResourceList.totalResources := size (ids_of (merged_by_priority s uid));
            ResourceList.resources := merged_by_priority s uid |}.
Proof.
  intros Hrl. destruct (User_get uid s) as [u|] eqn:Hu.
  - rewrite (getUserResources_merged s uid u Hu) in Hrl. injection Hrl as <-.
    split; [by eexists|done].
  - unfold getUserResources in Hrl. by rewrite Hu in Hrl.
Qed.

Lemma candidate_resource_in_store s uid e :
  e ∈ candidates s uid → ResourceAccess.resource e ∈ resources s.
Proof.
  unfold candidates, direct_candidates, group_candidates, global_candidates.
  rewrite !elem_of_app. intros [He|[He|He]].
  - apply elem_of_share_candidates in He as (share & r & _ & Hget & ->).
    by eapply Resource_get_elem_of.
  - apply elem_of_share_candidates in He as (share & r & _ & Hget & ->).
    by eapply Resource_get_elem_of.
  - apply list_elem_of_fmap in He as (r & -> & Hr).
    unfold Resource_query_globalResources in Hr.
    by apply list_elem_of_filter in Hr as [_ Hr].
Qed.

(** ** The grant mutator: outcomes *)

Lemma elem_of_index_insert x l y : y ∈ index_insert x l ↔ y = x ∨ y ∈ l.
Proof.
  induction l as [|z l IH]; simpl.
  - rewrite list_elem_of_singleton. set_solver.
  - destruct (primary_leb x z).
    + rewrite elem_of_cons. done.
    + rewrite !elem_of_cons, IH. tauto.
Qed.

Lemma filter_index_insert_other (P : ResourceSharing.t → Prop)
    `{∀ x, Decision (P x)} x l :
  ¬ P x → filter P (index_insert x l) = filter P l.
Proof.
  intros Hx. induction l as [|y l IH]; simpl.
  - by rewrite filter_cons_False.
  - destruct (primary_leb x y).
    + by rewrite (filter_cons_False _ x).
    + rewrite !filter_cons, IH. done.
Qed.

Lemma Resource_get_update_other rid rid' b now s :
  rid' ≠ rid →
  Resource_get rid' (Resource_update_isGlobal rid b now s) = Resource_get rid' s.
Proof.
  intros Hne. unfold Resource_update_isGlobal.
  destruct (Resource_get rid s) as [r0|]; unfold Resource_get;
    cbn [resources with_resources].
  - induction (resources s) as [|r l IH]; [done|]. cbn [map List.find].
    destruct (bool_decide (Resource.resourceId r = rid)) eqn:Hid.
    + apply bool_decide_eq_true in Hid.
      rewrite !bool_decide_eq_false_2 by (simpl; congruence). done.
    + destruct (bool_decide (Resource.resourceId r = rid')); [done|]. done.
  - induction (resources s) as [|r l IH]; cbn [app List.find].
    + by rewrite bool_decide_eq_false_2 by (simpl; congruence).
    + destruct (bool_decide (Resource.resourceId r = rid')); [done|]. done.
Qed.

Lemma Resource_get_update_same rid b now s r :
  Resource_get rid s = Some r →
  Resource_get rid (Resource_update_isGlobal rid b now s)
  = Some (set_isGlobal b now r).
Proof.
  intros Hr. unfold Resource_update_isGlobal. rewrite Hr.
  unfold Resource_get in *. cbn [resources with_resources].
  induction (resources s) as [|r' l IH]; [done|]. cbn [map List.find] in *.
  destruct (bool_decide (Resource.resourceId r' = rid)) eqn:Hid.
  - injection Hr as ->. cbn [set_isGlobal Resource.resourceId]. by rewrite Hid.
  - rewrite Hid. by apply IH.
Qed.

Lemma Resource_get_update_missing rid b now s :
  Resource_get rid s = None →
  ∃ r, Resource_get rid (Resource_update_isGlobal rid b now s) = Some r
       ∧ Resource.isGlobal r = b.
Proof.
  intros Hr. unfold Resource_update_isGlobal. rewrite Hr.
  unfold Resource_get in *. cbn [resources with_resources].
  induction (resources s) as [|r' l IH]; cbn [app List.find] in *.
  - rewrite bool_decide_eq_true_2 by done. by eexists.
  - destruct (bool_decide (Resource.resourceId r' = rid)); [done|]. by apply IH.
Qed.

(** The resolvers read the users, the member rows, the resources and the
    sharing rules; two stores that agree on what a call reads give the
    same answer. *)
Lemma forward_ext s s' rid :
  Resource_get rid s' = Resource_get rid s →
  users s' = users s →
  userGroups s' = userGroups s →
  ResourceSharing_query_primary rid s' = ResourceSharing_query_primary rid s →
  getResourceAccessList rid s' = getResourceAccessList rid s.
Proof.
  unfold getResourceAccessList, ResourceSharing_query_primary, User_scan.
  intros -> Hu Hug ->. rewrite Hu.
  destruct (Resource_get rid s) as [r|]; [|done].
  destruct (Resource.isGlobal r); [done|]. do 2 f_equal.
  destruct s, s'. simpl in *. by subst.
Qed.

Lemma forward_ext_flag s s' rid :
  Resource.isGlobal <$> Resource_get rid s' = Resource.isGlobal <$> Resource_get rid s →
  users s' = users s →
  userGroups s' = userGroups s →
  ResourceSharing_query_primary rid s' = ResourceSharing_query_primary rid s →
  getResourceAccessList rid s' = getResourceAccessList rid s.
Proof.
  unfold getResourceAccessList, ResourceSharing_query_primary, User_scan.
  intros Hflag Hu Hug ->. rewrite Hu.
  destruct (Resource_get rid s') as [r'|], (Resource_get rid s) as [r|];
    try done. injection Hflag as ->.
  destruct (Resource.isGlobal r); [done|]. do 2 f_equal.
  destruct s, s'. simpl in *. by subst.
Qed.

Lemma Resource_get_update_flag rid b now s :
  Resource.isGlobal <$> Resource_get rid (Resource_update_isGlobal rid b now s)
  = Some b.
Proof.
  destruct (Resource_get rid s) as [r|] eqn:Hr.
  - by rewrite (Resource_get_update_same rid b now s r Hr).
  - destruct (Resource_get_update_missing rid b now s Hr) as (r & -> & <-). done.
Qed.

Lemma rule_users_ext s s' rule :
  users s' = users s → userGroups s' = userGroups s →
  rule_users s' rule = rule_users s rule.
Proof. destruct s, s'. simpl. by intros -> ->. Qed.

Lemma update_keeps_rest rid b now s :
  users (Resource_update_isGlobal rid b now s) = users s
  ∧ groups (Resource_update_isGlobal rid b now s) = groups s
  ∧ userGroups (Resource_update_isGlobal rid b now s) = userGroups s
  ∧ sharing (Resource_update_isGlobal rid b now s) = sharing s.
Proof. unfold Resource_update_isGlobal. by destruct (Resource_get rid s). Qed.

Lemma create_rule_cases rule s :
  (key_exists (ResourceSharing.resourceId rule) (ResourceSharing.shareType rule)
     (ResourceSharing.targetId rule) s = true
   ∧ create_rule rule s = (s, inl (FailedToShareResource ItemExists)))
  ∨ (key_exists (ResourceSharing.resourceId rule) (ResourceSharing.shareType rule)
       (ResourceSharing.targetId rule) s = false
     ∧ create_rule rule s
       = (with_sharing (index_insert rule (sharing s)) s, inr rule)).
Proof.
  unfold create_rule, ResourceSharing_create.
  destruct (key_exists _ _ _ s); [by left|by right].
Qed.

(** X5.  The outcomes of [shareResource].  It returns the rule exactly
    when the resource exists, the target exists (a user for ['user'], a
    group for ['group'], nothing to check for ['global']) and no rule is
    filed under the key; the rule returned carries the sentinel target for
    ['global'] and is then the one new item of the sharing table.  When it
    throws, the sharing table is as before, and so is the whole store
    unless the share type is ['global'] and the resource exists.  It
    never touches users, groups or member rows. *)
Theorem X5_share_outcomes s rid st tid sharedBy permissions now :
  let result := shareResource rid st tid sharedBy permissions now s in
  let rule := new_rule rid st (effective_target st tid) sharedBy permissions now in
  ((∃ created, result.2 = inr created) ↔
     is_Some (Resource_get rid s)
     ∧ target_exists st tid s
     ∧ key_exists rid st (effective_target st tid) s = false)
  ∧ (∀ created, result.2 = inr created →
       created = rule ∧ sharing result.1 = index_insert rule (sharing s))
  ∧ (∀ e, result.2 = inl e →
       sharing result.1 = sharing s
       ∧ (st ≠ ST_global ∨ Resource_get rid s = None → result.1 = s))
  ∧ users result.1 = users s
  ∧ groups result.1 = groups s
  ∧ userGroups result.1 = userGroups s
  ∧ (st ≠ ST_global → resources result.1 = resources s).
Proof.
  cbv zeta. unfold shareResource.
  destruct (Resource_get rid s) as [r|] eqn:Hr.
  2:{ split_and!; try done;
        [split; [by intros [? ?]|by intros [[? ?] _]] |..];
        try (intros e _; split; done). }
  destruct st; cbn [effective_target target_exists].
  - destruct (User_get tid s) as [u|] eqn:Hu.
    2:{ split_and!; try done;
          [split; [by intros [? ?]|by intros (_ & [? ?] & _)] |..];
          try (intros e _; split; done). }
    destruct (create_rule_cases
                (new_rule rid ST_user tid sharedBy permissions now) s)
      as [[Hk ->]|[Hk ->]]; cbn [new_rule ResourceSharing.resourceId
        ResourceSharing.shareType ResourceSharing.targetId] in Hk; cbn [fst snd].
    + split_and!; try done;
        [split; [by intros [? ?]|intros (_ & _ & Hk'); congruence] |..];
        try (intros e _; split; done).
    + split_and!; try done;
        [split; [intros _; split_and!; [by eexists|by eexists|done]|by eexists] |..];
        try (intros created [= <-]; done).
  - destruct (Group_get tid s) as [g|] eqn:Hg.
    2:{ split_and!; try done;
          [split; [by intros [? ?]|by intros (_ & [? ?] & _)] |..];
          try (intros e _; split; done). }
    destruct (create_rule_cases
                (new_rule rid ST_group tid sharedBy permissions now) s)
      as [[Hk ->]|[Hk ->]]; cbn [new_rule ResourceSharing.resourceId
        ResourceSharing.shareType ResourceSharing.targetId] in Hk; cbn [fst snd].
    + split_and!; try done;
        [split; [by intros [? ?]|intros (_ & _ & Hk'); congruence] |..];
        try (intros e _; split; done).
    + split_and!; try done;
        [split; [intros _; split_and!; [by eexists|by eexists|done]|by eexists] |..];
        try (intros created [= <-]; done).
  - destruct (update_keeps_rest rid true now s) as (Hus & Hgs & Hugs & Hsh).
    destruct (create_rule_cases
                (new_rule rid ST_global "global" sharedBy permissions now)
                (Resource_update_isGlobal rid true now s))
      as [[Hk ->]|[Hk ->]]; cbn [new_rule ResourceSharing.resourceId
        ResourceSharing.shareType ResourceSharing.targetId] in Hk;
      unfold key_exists in *; rewrite Hsh in Hk; cbn [fst snd].
    + split_and!; try done;
        [split; [by intros [? ?]|intros (_ & _ & Hk'); congruence] |..];
        try (intros e _; split; [done|intros [?|?]; done]).
    + split_and!; try done;
        [split; [intros _; split_and!; [by eexists|done|done]|by eexists] |..];
        try (intros created [= <-]; cbn [sharing with_sharing]; by rewrite Hsh).
Qed.

Example share_outcomes_on_store_overlap :
  (shareResource "r1" ST_user "u5" "u1" ["read"%string]
     "2024-01-03T00:00:00.000Z" store_overlap).2
  = inr (new_rule "r1" ST_user "u5" "u1" ["read"%string]
           "2024-01-03T00:00:00.000Z")
  ∧ (shareResource "r7" ST_user "u5" "u1" ["read"%string]
       "2024-01-03T00:00:00.000Z" store_overlap)
    = (store_overlap, inl (FailedToShareResource ResourceNotFound))
  ∧ (shareResource "r1" ST_group "g9" "u1" ["read"%string]
       "2024-01-03T00:00:00.000Z" store_overlap)
    = (store_overlap, inl (FailedToShareResource TargetGroupNotFound)).
Proof. split_and!; vm_compute; reflexivity. Qed.

(** ** The grant mutator and the forward resolver *)

Lemma access_set_not_global s rid r :
  Resource_get rid s = Some r →
  Resource.isGlobal r = false →
  access_set s rid = ⋃ (rule_users s <$> ResourceSharing_query_primary rid s).
Proof.
  intros Hr Hg. unfold access_set.
  rewrite (not_global_access_list s rid r Hr Hg).
  unfold listed_users. cbn [access_list AccessList.users].
  rewrite process_rules_users. unfold process_rules.
  rewrite foldl_process_rule_fst. cbn [fst]. set_solver.
Qed.

Lemma access_set_global s rid r :
  Resource_get rid s = Some r →
  Resource.isGlobal r = true →
  access_set s rid = list_to_set (User.userId <$> users s).
Proof.
  intros Hr Hg. unfold access_set, getResourceAccessList. rewrite Hr, Hg.
  unfold listed_users, User_scan. cbn [access_list AccessList.users].
  rewrite foldl_add_global_user. cbn [snd app].
  by rewrite <- list_fmap_compose.
Qed.

Lemma user_count_size s rid : user_count s rid = size (access_set s rid).
Proof.
  unfold user_count, access_set.
  destruct (getResourceAccessList rid s) as [e|al] eqn:Hal.
  - by rewrite size_empty.
  - apply getResourceAccessList_state in Hal as (st & -> & Husers & Hseen & _).
    unfold listed_users. by rewrite Husers, Hseen.
Qed.

Lemma Resource_get_ext s s' rid :
  resources s' = resources s → Resource_get rid s' = Resource_get rid s.
Proof. unfold Resource_get. by intros ->. Qed.

Lemma elem_of_access_set_not_global s rid r uid :
  Resource_get rid s = Some r →
  Resource.isGlobal r = false →
  uid ∈ access_set s rid ↔
  ∃ rule, rule ∈ sharing s ∧ ResourceSharing.resourceId rule = rid
          ∧ uid ∈ rule_users s rule.
Proof.
  intros Hr Hg. rewrite (access_set_not_global s rid r Hr Hg).
  rewrite elem_of_union_rule_users. unfold ResourceSharing_query_primary.
  split; intros (rule & Hin & Hu); exists rule.
  - apply list_elem_of_filter in Hin. tauto.
  - split; [|tauto]. apply list_elem_of_filter. tauto.
Qed.

Lemma share_success_inv s rid st tid sharedBy permissions now s' rule :
  st ≠ ST_global →
  shareResource rid st tid sharedBy permissions now s = (s', inr rule) →
  rule = new_rule rid st tid sharedBy permissions now
  ∧ target_exists st tid s
  ∧ s' = with_sharing (index_insert rule (sharing s)) s.
Proof.
  intros Hst. unfold shareResource.
  destruct (Resource_get rid s); [|done]. destruct st; [| |done].
  - cbn [target_exists]. destruct (User_get tid s); [|done].
    destruct (create_rule_cases
                (new_rule rid ST_user tid sharedBy permissions now) s)
      as [[_ ->]|[_ ->]]; [done|].
    intros [= <- <-]. split_and!; [done|by eexists|done].
  - cbn [target_exists]. destruct (Group_get tid s); [|done].
    destruct (create_rule_cases
                (new_rule rid ST_group tid sharedBy permissions now) s)
      as [[_ ->]|[_ ->]]; [done|].
    intros [= <- <-]. split_and!; [done|by eexists|done].
Qed.



Lemma unshare_keeps_rest rid st tid now s :
  users (unshareResource rid st tid now s) = users s
  ∧ groups (unshareResource rid st tid now s) = groups s
  ∧ userGroups (unshareResource rid st tid now s) = userGroups s
  ∧ sharing (unshareResource rid st tid now s)
    = filter (λ r, ¬ same_key rid st tid r) (sharing s).
Proof.
  unfold unshareResource. destruct st; try done.
  destruct (update_keeps_rest rid false now (ResourceSharing_delete rid ST_global tid s))
    as (-> & -> & -> & ->). done.
Qed.

Lemma unshare_keeps_resources rid st tid now s :
  st ≠ ST_global → resources (unshareResource rid st tid now s) = resources s.
Proof. unfold unshareResource. by destruct st. Qed.



(** ** The grant mutator leaves other resources alone *)

Lemma query_primary_after_insert rid' rule s0 :
  ResourceSharing.resourceId rule ≠ rid' →
  ResourceSharing_query_primary rid'
    (with_sharing (index_insert rule (sharing s0)) s0)
  = ResourceSharing_query_primary rid' s0.
Proof.
  intros Hne. unfold ResourceSharing_query_primary. cbn [sharing with_sharing].
  by apply filter_index_insert_other.
Qed.

Lemma forward_after_create rid' rule s0 :
  ResourceSharing.resourceId rule ≠ rid' →
  getResourceAccessList rid' (create_rule rule s0).1
  = getResourceAccessList rid' s0.
Proof.
  intros Hne. destruct (create_rule_cases rule s0) as [[_ ->]|[_ ->]]; [done|].
  cbn [fst]. apply forward_ext; [done..|]. by apply query_primary_after_insert.
Qed.

Lemma forward_after_update rid rid' b now s :
  rid' ≠ rid →
  getResourceAccessList rid' (Resource_update_isGlobal rid b now s)
  = getResourceAccessList rid' s.
Proof.
  intros Hne. destruct (update_keeps_rest rid b now s) as (Hus & _ & Hugs & Hsh).
  apply forward_ext; [by apply Resource_get_update_other|done|done|].
  unfold ResourceSharing_query_primary. by rewrite Hsh.
Qed.

Lemma forward_after_delete rid rid' st tid s :
  rid' ≠ rid →
  getResourceAccessList rid' (ResourceSharing_delete rid st tid s)
  = getResourceAccessList rid' s.
Proof.
  intros Hne. apply forward_ext; [done..|].
  unfold ResourceSharing_query_primary, ResourceSharing_delete.
  cbn [sharing with_sharing]. apply list_filter_filter_l.
  intros rule Hrid (Hrid' & _). congruence.
Qed.

Lemma forward_after_unshare s rid rid' st tid now :
  rid' ≠ rid →
  getResourceAccessList rid' (unshareResource rid st tid now s)
  = getResourceAccessList rid' s.
Proof.
  intros Hne. unfold unshareResource. destruct st.
  - by apply forward_after_delete.
  - by apply forward_after_delete.
  - rewrite forward_after_update by done. by apply forward_after_delete.
Qed.

Lemma forward_after_share s rid rid' st tid sharedBy permissions now :
  rid' ≠ rid →
  getResourceAccessList rid'
    (shareResource rid st tid sharedBy permissions now s).1
  = getResourceAccessList rid' s.
Proof.
  intros Hne. unfold shareResource. destruct (Resource_get rid s); [|done].
  destruct st.
  - destruct (User_get tid s); [|done]. by apply forward_after_create.
  - destruct (Group_get tid s); [|done]. by apply forward_after_create.
  - rewrite forward_after_create by done. by apply forward_after_update.
Qed.

(** X8.  Sharing or unsharing one resource never changes the answer of
    [getResourceAccessList] for another resource, whatever the share type
    and whether or not [shareResource] throws. *)
Theorem X8_other_resources_untouched s rid rid' st tid sharedBy permissions now :
  rid' ≠ rid →
  getResourceAccessList rid'
    (shareResource rid st tid sharedBy permissions now s).1
  = getResourceAccessList rid' s
  ∧ getResourceAccessList rid' (unshareResource rid st tid now s)
    = getResourceAccessList rid' s.
Proof.
  intros Hne. split.
  - by apply forward_after_share.
  - by apply forward_after_unshare.
Qed.

Lemma X8_other_resources_untouched_witness :
  "r3"%string ≠ "r1"%string
  ∧ getResourceAccessList "r3"
      (shareResource "r1" ST_global "x" "u1" ["read"%string]
         "2024-01-03T00:00:00.000Z" store_overlap).1
    = getResourceAccessList "r3" store_overlap
  ∧ getResourceAccessList "r3"
      (unshareResource "r1" ST_global "x" "2024-01-03T00:00:00.000Z" store_overlap)
    = getResourceAccessList "r3" store_overlap.
Proof.
  split; [discriminate|].
  apply (X8_other_resources_untouched store_overlap "r1" "r3" ST_global "x" "u1"
           ["read"%string] "2024-01-03T00:00:00.000Z").
  discriminate.
Defined.

(** ** Unsharing twice, unsharing what is not shared *)

Lemma filter_idemp {A} (P : A → Prop) `{∀ x, Decision (P x)} (l : list A) :
  filter P (filter P l) = filter P l.
Proof. apply list_filter_filter_l. tauto. Qed.

Lemma delete_absent rid st tid s :
  key_exists rid st tid s = false → ResourceSharing_delete rid st tid s = s.
Proof.
  intros Hk. unfold ResourceSharing_delete.
  rewrite filter_all by by apply key_exists_false. by destruct s.
Qed.

(** X9.  [unshareResource] is idempotent on the sharing table: a second
    call with the same key deletes nothing more.  For the share types
    ['user'] and ['group'] the second call leaves the whole store as the
    first left it; for ['global'] it leaves every answer of
    [getResourceAccessList] as the first left it. *)
Theorem X9_unshare_twice s rid st tid now now' :
  let once := unshareResource rid st tid now s in
  let twice := unshareResource rid st tid now' once in
  sharing twice = sharing once
  ∧ (∀ rid', getResourceAccessList rid' twice = getResourceAccessList rid' once)
  ∧ match st with ST_global => True | _ => twice = once end.
Proof.
  cbv zeta.
  assert (Hsh : sharing (unshareResource rid st tid now'
                           (unshareResource rid st tid now s))
                = sharing (unshareResource rid st tid now s)).
  { destruct (unshare_keeps_rest rid st tid now'
                (unshareResource rid st tid now s)) as (_ & _ & _ & ->).
    destruct (unshare_keeps_rest rid st tid now s) as (_ & _ & _ & ->).
    apply filter_idemp. }
  assert (Hsame : match st with
                  | ST_global => True
                  | _ => unshareResource rid st tid now'
                           (unshareResource rid st tid now s)
                         = unshareResource rid st tid now s
                  end).
  { destruct st; [| |done]; unfold unshareResource, ResourceSharing_delete;
      cbn [sharing with_sharing]; rewrite filter_idemp; done. }
  split_and!; [exact Hsh| |exact Hsame].
  intros rid'. destruct st; [by rewrite Hsame|by rewrite Hsame|].
  destruct (unshare_keeps_rest rid ST_global tid now'
              (unshareResource rid ST_global tid now s)) as (Hus & _ & Hugs & _).
  destruct (decide (rid' = rid)) as [->|Hne].
  - apply forward_ext_flag; [|done|done|].
    + unfold unshareResource. by rewrite !Resource_get_update_flag.
    + unfold ResourceSharing_query_primary. by rewrite Hsh.
  - by apply (forward_after_unshare _ rid).
Qed.

(** X10.  Unsharing what is not shared: for the share types ['user'] and
    ['group'], [unshareResource] on a key under which no rule is filed
    leaves the store exactly as it was. *)
Theorem X10_unshare_absent_grant s rid st tid now :
  st ≠ ST_global →
  key_exists rid st tid s = false →
  unshareResource rid st tid now s = s.
Proof.
  intros Hst Hk. unfold unshareResource.
  destruct st; [| |done]; by apply delete_absent.
Qed.

Lemma X10_unshare_absent_grant_witness :
  ST_user ≠ ST_global
  ∧ key_exists "r1" ST_user "u5" store_overlap = false
  ∧ unshareResource "r1" ST_user "u5" "2024-01-04T00:00:00.000Z" store_overlap
    = store_overlap.
Proof.
  split; [discriminate|]. split; [reflexivity|].
  apply (X10_unshare_absent_grant store_overlap "r1" ST_user "u5");
    [discriminate|reflexivity].
Defined.

(** ** Global shares *)

Lemma union_rule_users_without_global s rid tid (l : list ResourceSharing.t) :
  ⋃ (rule_users s <$> filter (λ r, ¬ same_key rid ST_global tid r) l)
  = ⋃ (rule_users s <$> l).
Proof.
  apply set_eq. intros x. rewrite !elem_of_union_rule_users. split.
  - intros (r & Hr & Hx). apply list_elem_of_filter in Hr. exists r. tauto.
  - intros (r & Hr & Hx). exists r. split; [|done].
    apply list_elem_of_filter. split; [|done].
    intros (_ & Hst & _). unfold rule_users in Hx. rewrite Hst in Hx. set_solver.
Qed.



Lemma listed_covers_candidates s uid rl c :
  getUserResources uid s = inr rl →
  c ∈ candidates s uid → entry_id c ∈ listed_resources rl.
Proof.
  intros [_ ->]%getUserResources_inr Hc.
  unfold listed_resources. cbn [ResourceList.resources].
  destruct (first_wins_covers ∅ _ _ Hc) as [Hin|Hin]; [set_solver|].
  unfold ids_of in Hin. by apply elem_of_list_to_set in Hin.
Qed.

Lemma global_candidate s uid r :
  r ∈ resources s → Resource.isGlobal r = true →
  global_access r ∈ candidates s uid.
Proof.
  intros Hr Hg. unfold candidates, global_candidates. rewrite !elem_of_app.
  right; right. apply list_elem_of_fmap. exists r. split; [done|].
  unfold Resource_query_globalResources. by apply list_elem_of_filter.
Qed.

Lemma create_rule_keeps_rest rule s0 :
  users (create_rule rule s0).1 = users s0
  ∧ userGroups (create_rule rule s0).1 = userGroups s0
  ∧ resources (create_rule rule s0).1 = resources s0.
Proof. by destruct (create_rule_cases rule s0) as [[_ ->]|[_ ->]]. Qed.

(** X13.  Round trip of a ['global'] share.  For an existing resource
    that is not global and has no global grant, [shareResource] with
    share type ['global'] followed by [unshareResource] with share type
    ['global'] and the sentinel target restores the sharing table and the
    answer of [getResourceAccessList] for every resource. *)
Theorem X13_global_round_trip s rid r tid sharedBy permissions now now' :
  Resource_get rid s = Some r →
  Resource.isGlobal r = false →
  has_global_grant rid s = false →
  let shared := shareResource rid ST_global tid sharedBy permissions now s in
  let back := unshareResource rid ST_global "global" now' shared.1 in
  shared.2 = inr (new_rule rid ST_global "global" sharedBy permissions now)
  ∧ sharing back = sharing s
  ∧ ∀ rid', getResourceAccessList rid' back = getResourceAccessList rid' s.
Proof.
  intros Hr Hg Hk shared back.
  destruct (update_keeps_rest rid true now s) as (Hus1 & _ & Hugs1 & Hsh1).
  assert (Hshared : shared
            = (with_sharing
                 (index_insert
                    (new_rule rid ST_global "global" sharedBy permissions now)
                    (sharing s))
                 (Resource_update_isGlobal rid true now s),
               inr (new_rule rid ST_global "global" sharedBy permissions now))).
  { unfold shared, shareResource. rewrite Hr.
    rewrite share_new_key; [by rewrite Hsh1|].
    unfold key_exists. by rewrite Hsh1. }
  destruct (unshare_keeps_rest rid ST_global "global" now' shared.1)
    as (Hus & _ & Hugs & Hsh). fold back in Hus, Hugs, Hsh.
  rewrite Hshared in Hus, Hugs, Hsh. cbn [fst users userGroups sharing with_sharing]
    in Hus, Hugs, Hsh.
  assert (Hback : sharing back = sharing s).
  { rewrite Hsh. apply delete_index_insert.
    - intros Hn. apply Hn. by unfold same_key.
    - by apply key_exists_false. }
  split_and!; [by rewrite Hshared|exact Hback|].
  intros rid'. destruct (decide (rid' = rid)) as [->|Hne].
  - apply forward_ext_flag.
    + unfold back, unshareResource. rewrite Resource_get_update_flag, Hr.
      by rewrite <- Hg.
    + by rewrite Hus.
    + by rewrite Hugs.
    + unfold ResourceSharing_query_primary. by rewrite Hback.
  - unfold back. rewrite forward_after_unshare by done.
    unfold shared. by apply forward_after_share.
Qed.

Lemma X13_global_round_trip_witness :
  Resource_get "r1" store_overlap = Some (sample_resource "r1" "u1" false)
  ∧ has_global_grant "r1" store_overlap = false
  ∧ let shared := shareResource "r1" ST_global "x" "u1" ["read"%string]
                    "2024-01-03T00:00:00.000Z" store_overlap in
    let back := unshareResource "r1" ST_global "global"
                  "2024-01-04T00:00:00.000Z" shared.1 in
    shared.2 = inr (new_rule "r1" ST_global "global" "u1" ["read"%string]
                      "2024-01-03T00:00:00.000Z")
    ∧ sharing back = sharing store_overlap
    ∧ ∀ rid', getResourceAccessList rid' back
              = getResourceAccessList rid' store_overlap.
Proof.
  split; [reflexivity|]. split; [reflexivity|].
  apply (X13_global_round_trip store_overlap "r1"
           (sample_resource "r1" "u1" false) "x" "u1" ["read"%string]
           "2024-01-03T00:00:00.000Z" "2024-01-04T00:00:00.000Z"); reflexivity.
Defined.

(** ** Symmetry and the two reports *)

Lemma listed_users_access_set s rid al :
  getResourceAccessList rid s = inr al →
  ∀ uid, uid ∈ listed_users al ↔ uid ∈ access_set s rid.
Proof.
  intros Hal uid. unfold access_set. rewrite Hal.
  by rewrite elem_of_list_to_set.
Qed.

Lemma listed_resources_resource_set s uid rl :
  getUserResources uid s = inr rl →
  ∀ rid, rid ∈ listed_resources rl ↔ rid ∈ resource_set s uid.
Proof.
  intros Hrl rid. unfold resource_set. rewrite Hrl.
  by rewrite elem_of_list_to_set.
Qed.

Lemma typed_store_overlap_u2 : targets_typed_for store_overlap "u2".
Proof.
  split.
  - intros rule Hin Ht. cbn [sharing store_overlap] in Hin.
    repeat (apply elem_of_cons in Hin as [->|Hin]); try done.
    by apply not_elem_of_nil in Hin.
  - intros rule ug Hin Hug Hu Ht.
    cbn [sharing userGroups store_overlap] in Hin, Hug.
    repeat (apply elem_of_cons in Hug as [->|Hug]);
      try (by apply not_elem_of_nil in Hug); try done;
      (repeat (apply elem_of_cons in Hin as [->|Hin]);
       try (by apply not_elem_of_nil in Hin); done).
Qed.

Lemma filter_ext_in {A} (P Q : A → Prop) `{∀ x, Decision (P x)}
    `{∀ x, Decision (Q x)} (l : list A) :
  (∀ x, x ∈ l → P x ↔ Q x) → filter P l = filter Q l.
Proof.
  induction l as [|x l IH]; intros Hext; [done|].
  rewrite !filter_cons.
  assert (filter P l = filter Q l) as -> by (apply IH; intros; apply Hext; by right).
  destruct (decide (P x)) as [HP|HP], (decide (Q x)) as [HQ|HQ]; try done;
    exfalso; apply (Hext x ltac:(left)) in HP || apply (Hext x ltac:(left)) in HQ;
    done.
Qed.

(** The size of a set of keys is the number of items whose key is in it. *)
Lemma size_as_filter {A} (f : A → string) (l : list A) (S : gset string) :
  NoDup (f <$> l) →
  S ⊆ list_to_set (f <$> l) →
  size S = length (filter (λ x, f x ∈ S) l).
Proof.
  revert S. induction l as [|x l IH]; intros S Hnd Hsub.
  - assert (S = ∅) as -> by set_solver. by rewrite size_empty.
  - rewrite fmap_cons in Hnd, Hsub. apply NoDup_cons in Hnd as [Hx Hnd].
    rewrite list_to_set_cons in Hsub. rewrite filter_cons.
    destruct (decide (f x ∈ S)) as [Hin|Hin].
    + assert (S = {[f x]} ∪ (S ∖ {[f x]})) as HS.
      { apply set_eq. intros y. rewrite elem_of_union, elem_of_difference,
          elem_of_singleton. destruct (decide (y = f x)) as [->|]; tauto. }
      rewrite HS at 1. rewrite size_union by set_solver. rewrite size_singleton.
      cbn [length]. f_equal. rewrite (IH (S ∖ {[f x]})); [|done|set_solver].
      f_equal. apply filter_ext_in. intros y Hy.
      rewrite elem_of_difference, elem_of_singleton.
      assert (f y ≠ f x); [|tauto].
      intros Heq. apply Hx. rewrite <- Heq. apply list_elem_of_fmap. eauto.
    + apply IH; [done|set_solver].
Qed.

Lemma sum_list_fmap_add {A} (f g : A → nat) (l : list A) :
  sum_list ((λ x, f x + g x) <$> l) = sum_list (f <$> l) + sum_list (g <$> l).
Proof.
  induction l as [|x l IH]; [done|].
  rewrite !fmap_cons. simpl. rewrite IH. lia.
Qed.

Lemma sum_indicator {B} (P : B → Prop) `{∀ b, Decision (P b)} (l : list B) :
  sum_list ((λ b, if decide (P b) then 1 else 0) <$> l) = length (filter P l).
Proof.
  induction l as [|b l IH]; [done|].
  rewrite fmap_cons, filter_cons.
  change (sum_list (?a :: ?k)) with (a + sum_list k). rewrite IH.
  destruct (decide (P b)); simpl; lia.
Qed.

(** Counting the pairs of a relation by rows or by columns. *)
Lemma double_count {A B} (P : A → B → Prop) `{∀ a b, Decision (P a b)}
    (la : list A) (lb : list B) :
  sum_list ((λ a, length (filter (P a) lb)) <$> la)
  = sum_list ((λ b, length (filter (λ a, P a b) la)) <$> lb).
Proof.
  induction la as [|a la IH].
  - induction lb as [|b lb IHb]; [done|].
    rewrite fmap_cons. change (sum_list (?a :: ?k)) with (a + sum_list k).
    by rewrite <- IHb.
  - transitivity (length (filter (P a) lb)
                  + sum_list ((λ b, length (filter (λ a, P a b) la)) <$> lb)).
    { rewrite <- IH. done. }
    rewrite <- (sum_indicator (P a) lb), <- sum_list_fmap_add.
    f_equal. apply Forall_fmap_ext_1, Forall_forall. intros b _.
    rewrite filter_cons. destruct (decide (P a b)); simpl; lia.
Qed.

Lemma typed_store_for s u :
  typed_store s → u ∈ users s → targets_typed_for s (User.userId u).
Proof.
  unfold typed_store. rewrite Forall_forall. intros Hall Hu.
  specialize (Hall u Hu). rewrite Forall_forall in Hall. split.
  - intros rule Hrule. by apply Hall.
  - intros rule ug Hrule Hug. destruct (Hall rule Hrule) as [_ Hugs].
    rewrite Forall_forall in Hugs. by apply Hugs.
Qed.

Lemma access_set_registered s rid :
  access_set s rid ⊆ list_to_set (User.userId <$> users s).
Proof.
  unfold access_set.
  destruct (getResourceAccessList rid s) as [e|al] eqn:Hal; [set_solver|].
  apply getResourceAccessList_state in Hal as (st & _ & Husers & Hseen & Hex).
  unfold listed_users. rewrite Husers, Hseen.
  intros uid Hin. apply elem_of_list_to_set. by apply Hex.
Qed.

Lemma resource_set_registered s uid :
  resource_set s uid ⊆ list_to_set (Resource.resourceId <$> resources s).
Proof.
  unfold resource_set.
  destruct (getUserResources uid s) as [e|rl] eqn:Hrl; [set_solver|].
  apply getUserResources_inr in Hrl as [_ ->].
  unfold listed_resources. cbn [ResourceList.resources].
  intros rid (e & -> & He)%elem_of_list_to_set%list_elem_of_fmap.
  apply elem_of_list_to_set, list_elem_of_fmap.
  exists (ResourceAccess.resource e). split; [done|].
  apply (candidate_resource_in_store s uid). by apply first_wins_elem_of in He.
Qed.

Lemma resource_count_size s uid : resource_count s uid = size (resource_set s uid).
Proof.
  unfold resource_count, resource_set.
  destruct (getUserResources uid s) as [e|rl] eqn:Hrl.
  - by rewrite size_empty.
  - by apply getUserResources_inr in Hrl as [_ ->].
Qed.

Lemma resources_report_counts s rows :
  getResourcesWithUserCount s = inr rows →
  ResourceCount.userCount <$> rows
  = (λ r, user_count s (Resource.resourceId r)) <$> resources s.
Proof.
  destruct (resources_with_user_count_loop_ok s (resources s) [])
    as (rows' & Hloop & Hrows); [done|].
  unfold getResourcesWithUserCount, Resource_scan. rewrite Hloop.
  intros [= <-]. clear Hloop.
  induction Hrows as [|r row rs rows (al & Hal & ->) _ IH]; [done|].
  rewrite !fmap_cons, IH. f_equal. unfold user_count. by rewrite Hal.
Qed.

Lemma users_report_counts s rows :
  getUsersWithResourceCount s = inr rows →
  UserCount.resourceCount <$> rows
  = (λ u, resource_count s (User.userId u)) <$> users s.
Proof.
  destruct (users_with_resource_count_loop_ok s (users s) [])
    as (rows' & Hloop & Hrows); [done|].
  unfold getUsersWithResourceCount, User_scan. rewrite Hloop.
  intros [= <-]. clear Hloop.
  induction Hrows as [|u row us rows (rl & Hrl & ->) _ IH]; [done|].
  rewrite !fmap_cons, IH. f_equal. unfold resource_count. by rewrite Hrl.
Qed.

(** On the sample store r1 is reached by 4 users and the global r3 by all
    5; the five users reach 2, 2, 2, 2 and 1 resources. *)
Example reports_on_store_overlap :
  ∃ rrows urows,
    getResourcesWithUserCount store_overlap = inr rrows
    ∧ getUsersWithResourceCount store_overlap = inr urows
    ∧ ResourceCount.userCount <$> rrows = [4; 5]
    ∧ UserCount.resourceCount <$> urows = [2; 2; 2; 2; 1].
Proof. eexists _, _. split_and!; vm_compute; reflexivity. Qed.

(** * The seeding script *)

Section try_in.
Context {A : Type} (same : A → A → bool) (ins : A → list A → list A).
Hypothesis ins_elem : ∀ x l y, y ∈ ins x l ↔ y = x ∨ y ∈ l.
Hypothesis same_refl : ∀ x, same x x = true.

Lemma existsb_elem (f : A → bool) l :
  existsb f l = true ↔ ∃ y, y ∈ l ∧ f y = true.
Proof.
  rewrite existsb_exists. split; intros (y & Hy & Hf); exists y;
    (split; [by apply list_elem_of_In|done]).
Qed.

Lemma try_in_keeps l x y : y ∈ l → y ∈ try_in same ins l x.
Proof.
  unfold try_in. destruct (existsb (same x) l); [done|].
  rewrite ins_elem. by right.
Qed.

Lemma try_in_new l x y : y ∈ try_in same ins l x → y = x ∨ y ∈ l.
Proof.
  unfold try_in. destruct (existsb (same x) l); [by right|].
  by rewrite ins_elem.
Qed.

Lemma try_in_covered l x : existsb (same x) (try_in same ins l x) = true.
Proof.
  unfold try_in. destruct (existsb (same x) l) eqn:E; [done|].
  apply existsb_elem. exists x. split; [|done]. apply ins_elem. by left.
Qed.

Lemma foldl_try_in_keeps xs : ∀ l y,
  y ∈ l → y ∈ foldl (try_in same ins) l xs.
Proof.
  induction xs as [|x xs IH]; intros l y Hy; simpl; [done|].
  by apply IH, try_in_keeps.
Qed.

Lemma foldl_try_in_new xs : ∀ l y,
  y ∈ foldl (try_in same ins) l xs → y ∈ l ∨ y ∈ xs.
Proof.
  induction xs as [|x xs IH]; intros l y Hy; simpl in *; [by left|].
  destruct (IH _ _ Hy) as [H|H].
  - destruct (try_in_new _ _ _ H) as [->|]; [right; by left|by left].
  - right. by right.
Qed.

Lemma foldl_try_in_covered xs : ∀ l x,
  x ∈ xs → existsb (same x) (foldl (try_in same ins) l xs) = true.
Proof.
  induction xs as [|x0 xs IH]; intros l x Hx; simpl.
  - by apply elem_of_nil in Hx.
  - apply elem_of_cons in Hx as [->|Hx]; [|by apply IH].
    pose proof (try_in_covered l x0) as Hc.
    apply existsb_elem in Hc as (y & Hy & Hs).
    apply existsb_elem. exists y. split; [|done].
    by apply foldl_try_in_keeps.
Qed.

Lemma foldl_try_in_present xs : ∀ l,
  (∀ x, x ∈ xs → existsb (same x) l = true) →
  foldl (try_in same ins) l xs = l.
Proof.
  induction xs as [|x xs IH]; intros l H; simpl; [done|].
  assert (try_in same ins l x = l) as ->.
  { unfold try_in. rewrite H; [done|by left]. }
  apply IH. intros y Hy. apply H. by right.
Qed.

Lemma foldl_try_in_again xs xs' l :
  Forall2 (λ x x', ∀ y, same x y = same x' y) xs xs' →
  foldl (try_in same ins) (foldl (try_in same ins) l xs) xs'
  = foldl (try_in same ins) l xs.
Proof.
  intros H. apply foldl_try_in_present. intros x' Hx'.
  apply list_elem_of_lookup in Hx' as [i Hi].
  destruct (Forall2_lookup_r _ _ _ _ _ H Hi) as (x & Hx & Hxx').
  assert (x ∈ xs) as Hin by (by eapply list_elem_of_lookup_2).
  pose proof (foldl_try_in_covered xs l x Hin) as Hc.
  apply existsb_elem in Hc as (y & Hy & Hs).
  apply existsb_elem. exists y. split; [done|]. by rewrite <- Hxx'.
Qed.

Lemma foldl_try_in_taken xs l x x' :
  x ∈ xs → (∀ y, same x y = same x' y) →
  existsb (same x') (foldl (try_in same ins) l xs) = true.
Proof.
  intros Hin Hxx'.
  pose proof (foldl_try_in_covered xs l x Hin) as Hc.
  apply existsb_elem in Hc as (y & Hy & Hs).
  apply existsb_elem. exists y. split; [done|]. by rewrite <- Hxx'.
Qed.
End try_in.

Lemma store_eq (a b : Store) :
  users a = users b → groups a = groups b → userGroups a = userGroups b →
  resources a = resources b → sharing a = sharing b → a = b.
Proof. destruct a, b; simpl; congruence. Qed.

(** A loop that writes one table only is a loop on that table. *)
Lemma foldl_table {A B} (f : Store → A → Store) (g : list B → A → list B)
    (get : Store → list B) (set : list B → Store → Store) :
  (∀ s x, f s x = set (g (get s) x) s) →
  (∀ l s, get (set l s) = l) →
  (∀ l l' s, set l (set l' s) = set l s) →
  (∀ s, set (get s) s = s) →
  ∀ xs s, foldl f s xs = set (foldl g (get s) xs) s.
Proof.
  intros Hf Hgs Hss Hsg xs. induction xs as [|x xs IH]; intros s; simpl.
  - by rewrite Hsg.
  - by rewrite IH, Hf, Hgs, Hss.
Qed.

Lemma member_insert_elem x l y : y ∈ member_insert x l ↔ y = x ∨ y ∈ l.
Proof.
  induction l as [|z l IH]; simpl.
  - rewrite list_elem_of_singleton. set_solver.
  - destruct (member_leb x z).
    + rewrite elem_of_cons. done.
    + rewrite !elem_of_cons, IH. tauto.
Qed.

Lemma append_item_elem {A} (x : A) l y : y ∈ append_item x l ↔ y = x ∨ y ∈ l.
Proof. unfold append_item. rewrite elem_of_app, list_elem_of_singleton. tauto. Qed.

Lemma same_user_refl x : same_user x x = true.
Proof. unfold same_user. by apply bool_decide_eq_true. Qed.
Lemma same_group_refl x : same_group x x = true.
Proof. unfold same_group. by apply bool_decide_eq_true. Qed.
Lemma same_member_refl x : same_member x x = true.
Proof. unfold same_member. by apply bool_decide_eq_true. Qed.
Lemma same_resource_refl x : same_resource x x = true.
Proof. unfold same_resource. by apply bool_decide_eq_true. Qed.
Lemma same_rule_refl x : same_rule x x = true.
Proof. unfold same_rule, same_key. by apply bool_decide_eq_true. Qed.

Lemma users_loop xs s :
  foldl (try_create User_create) s xs
  = with_users (foldl (try_in same_user append_item) (users s) xs) s.
Proof.
  apply (foldl_table _ _ users with_users); try done.
  - intros s' x. unfold try_create, User_create, try_in, same_user, append_item.
    destruct (existsb _ _); simpl; [by destruct s'|done].
  - by intros [].
Qed.

Lemma groups_loop xs s :
  foldl (try_create Group_create) s xs
  = with_groups (foldl (try_in same_group append_item) (groups s) xs) s.
Proof.
  apply (foldl_table _ _ groups with_groups); try done.
  - intros s' x. unfold try_create, Group_create, try_in, same_group, append_item.
    destruct (existsb _ _); simpl; [by destruct s'|done].
  - by intros [].
Qed.

Lemma members_loop xs s :
  foldl (try_create UserGroup_create) s xs
  = with_userGroups (foldl (try_in same_member member_insert) (userGroups s) xs) s.
Proof.
  apply (foldl_table _ _ userGroups with_userGroups); try done.
  - intros s' x. unfold try_create, UserGroup_create, try_in, same_member.
    destruct (existsb _ _); simpl; [by destruct s'|done].
  - by intros [].
Qed.

Lemma resources_loop xs s :
  foldl (try_create Resource_create) s xs
  = with_resources (foldl (try_in same_resource append_item) (resources s) xs) s.
Proof.
  apply (foldl_table _ _ resources with_resources); try done.
  - intros s' x. unfold try_create, Resource_create, try_in, same_resource,
      append_item.
    destruct (existsb _ _); simpl; [by destruct s'|done].
  - by intros [].
Qed.

Lemma rules_loop xs s :
  foldl (try_create ResourceSharing_create) s xs
  = with_sharing (foldl (try_in same_rule index_insert) (sharing s) xs) s.
Proof.
  apply (foldl_table _ _ sharing with_sharing); try done.
  - intros s' x. unfold try_create, ResourceSharing_create, key_exists, try_in,
      same_rule.
    destruct (existsb _ _); simpl; [by destruct s'|done].
  - by intros [].
Qed.

(** The five tables after [setupSampleData]. *)
Lemma setup_tables clock s :
  users (setupSampleData clock s)
  = foldl (try_in same_user append_item) (users s)
      (imap (λ i, user_item (clock i)) setup_users)
  ∧ groups (setupSampleData clock s)
    = foldl (try_in same_group append_item) (groups s)
        (imap (λ i, group_item (clock (5 + i))) setup_groups)
  ∧ userGroups (setupSampleData clock s)
    = foldl (try_in same_member member_insert) (userGroups s)
        (imap (λ i, member_item (clock (9 + i))) setup_memberships)
  ∧ resources (setupSampleData clock s)
    = foldl (try_in same_resource append_item) (resources s)
        (imap (λ i, resource_item (clock (15 + i))) setup_resources)
  ∧ sharing (setupSampleData clock s)
    = foldl (try_in same_rule index_insert) (sharing s)
        (imap (λ i, rule_item (clock (20 + i))) setup_rules).
Proof.
  unfold setupSampleData.
  rewrite users_loop, groups_loop, members_loop, resources_loop, rules_loop.
  done.
Qed.

(** X16: [setupSampleData] can be run on any store and run again.  It
    never removes or overwrites an item the store holds, and a second run
    (at any later time) changes nothing. *)
Theorem X16_setup_idempotent clock clock' s :
  let s' := setupSampleData clock s in
  setupSampleData clock' s' = s'
  ∧ (∀ u, u ∈ users s → u ∈ users s')
  ∧ (∀ g, g ∈ groups s → g ∈ groups s')
  ∧ (∀ ug, ug ∈ userGroups s → ug ∈ userGroups s')
  ∧ (∀ r, r ∈ resources s → r ∈ resources s')
  ∧ (∀ rule, rule ∈ sharing s → rule ∈ sharing s').
Proof.
  intros s'.
  destruct (setup_tables clock s) as (Hu & Hg & Hm & Hr & Hs).
  destruct (setup_tables clock' s') as (Hu' & Hg' & Hm' & Hr' & Hs').
  fold s' in Hu, Hg, Hm, Hr, Hs.
  split_and!.
  - apply store_eq.
    + rewrite Hu', Hu. apply foldl_try_in_again;
        [apply @append_item_elem|apply same_user_refl|].
      cbn. by repeat constructor.
    + rewrite Hg', Hg. apply foldl_try_in_again;
        [apply @append_item_elem|apply same_group_refl|].
      cbn. by repeat constructor.
    + rewrite Hm', Hm. apply foldl_try_in_again;
        [apply member_insert_elem|apply same_member_refl|].
      cbn. by repeat constructor.
    + rewrite Hr', Hr. apply foldl_try_in_again;
        [apply @append_item_elem|apply same_resource_refl|].
      cbn. by repeat constructor.
    + rewrite Hs', Hs. apply foldl_try_in_again;
        [apply elem_of_index_insert|apply same_rule_refl|].
      cbn. by repeat constructor.
  - intros u Hin. rewrite Hu. apply foldl_try_in_keeps; [apply @append_item_elem|done].
  - intros u Hin. rewrite Hg. apply foldl_try_in_keeps; [apply @append_item_elem|done].
  - intros u Hin. rewrite Hm. apply foldl_try_in_keeps; [apply member_insert_elem|done].
  - intros u Hin. rewrite Hr. apply foldl_try_in_keeps; [apply @append_item_elem|done].
  - intros u Hin. rewrite Hs. apply foldl_try_in_keeps; [apply elem_of_index_insert|done].
Qed.

(** X17: after [setupSampleData], on any store, every sample key is
    taken: a [create] of a sample item throws, for each of the five
    entities.  What the run added to a table are sample items, each
    stamped with the time of its [create]. *)
Theorem X17_setup_seeds clock s :
  let s' := setupSampleData clock s in
  (∀ now d, d ∈ setup_users → User_create (user_item now d) s' = None)
  ∧ (∀ now d, d ∈ setup_groups → Group_create (group_item now d) s' = None)
  ∧ (∀ now d, d ∈ setup_memberships →
       UserGroup_create (member_item now d) s' = None)
  ∧ (∀ now d, d ∈ setup_resources →
       Resource_create (resource_item now d) s' = None)
  ∧ (∀ now d, d ∈ setup_rules →
       ResourceSharing_create (rule_item now d) s' = None)
  ∧ (∀ u, u ∈ users s' →
       u ∈ users s
       ∨ ∃ i d, setup_users !! i = Some d ∧ u = user_item (clock i) d)
  ∧ (∀ g, g ∈ groups s' →
       g ∈ groups s
       ∨ ∃ i d, setup_groups !! i = Some d ∧ g = group_item (clock (5 + i)) d)
  ∧ (∀ ug, ug ∈ userGroups s' →
       ug ∈ userGroups s
       ∨ ∃ i d, setup_memberships !! i = Some d
                ∧ ug = member_item (clock (9 + i)) d)
  ∧ (∀ r, r ∈ resources s' →
       r ∈ resources s
       ∨ ∃ i d, setup_resources !! i = Some d
                ∧ r = resource_item (clock (15 + i)) d)
  ∧ (∀ rule, rule ∈ sharing s' →
       rule ∈ sharing s
       ∨ ∃ i d, setup_rules !! i = Some d ∧ rule = rule_item (clock (20 + i)) d).
Proof.
  intros s'.
  destruct (setup_tables clock s) as (Hu & Hg & Hm & Hr & Hs).
  fold s' in Hu, Hg, Hm, Hr, Hs.
  split_and!.
  - intros now d Hd. apply list_elem_of_lookup in Hd as [i Hi].
    unfold User_create. fold (same_user (user_item now d)).
    rewrite Hu.
    rewrite (foldl_try_in_taken same_user append_item (@append_item_elem _)
               same_user_refl _ _ (user_item (clock i) d) (user_item now d));
      [done| |by destruct d as [[??]?]].
    by apply (elem_of_lookup_imap_2 (λ i, user_item (clock i))).
  - intros now d Hd. apply list_elem_of_lookup in Hd as [i Hi].
    unfold Group_create. fold (same_group (group_item now d)).
    rewrite Hg.
    rewrite (foldl_try_in_taken same_group append_item (@append_item_elem _)
               same_group_refl _ _ (group_item (clock (5 + i)) d)
               (group_item now d));
      [done| |by destruct d as [[??]?]].
    by apply (elem_of_lookup_imap_2 (λ i, group_item (clock (5 + i)))).
  - intros now d Hd. apply list_elem_of_lookup in Hd as [i Hi].
    unfold UserGroup_create. fold (same_member (member_item now d)).
    rewrite Hm.
    rewrite (foldl_try_in_taken same_member member_insert member_insert_elem
               same_member_refl _ _ (member_item (clock (9 + i)) d)
               (member_item now d));
      [done| |by destruct d as [??]].
    by apply (elem_of_lookup_imap_2 (λ i, member_item (clock (9 + i)))).
  - intros now d Hd. apply list_elem_of_lookup in Hd as [i Hi].
    unfold Resource_create. fold (same_resource (resource_item now d)).
    rewrite Hr.
    rewrite (foldl_try_in_taken same_resource append_item (@append_item_elem _)
               same_resource_refl _ _ (resource_item (clock (15 + i)) d)
               (resource_item now d));
      [done| |by destruct d as [[[[[??]?]?]?]?]].
    by apply (elem_of_lookup_imap_2 (λ i, resource_item (clock (15 + i)))).
  - intros now d Hd. apply list_elem_of_lookup in Hd as [i Hi].
    unfold ResourceSharing_create, key_exists.
    fold (same_rule (rule_item now d)).
    rewrite Hs.
    rewrite (foldl_try_in_taken same_rule index_insert elem_of_index_insert
               same_rule_refl _ _ (rule_item (clock (20 + i)) d)
               (rule_item now d));
      [done| |by destruct d as [[[[??]?]?]?]].
    by apply (elem_of_lookup_imap_2 (λ i, rule_item (clock (20 + i)))).
  - intros u Hin. rewrite Hu in Hin.
    apply (foldl_try_in_new same_user append_item (@append_item_elem _)) in Hin as [?|Hin]; [by left|].
    right. apply elem_of_lookup_imap_1 in Hin as (i & d & -> & Hi). eauto.
  - intros u Hin. rewrite Hg in Hin.
    apply (foldl_try_in_new same_group append_item (@append_item_elem _)) in Hin as [?|Hin]; [by left|].
    right. apply elem_of_lookup_imap_1 in Hin as (i & d & -> & Hi). eauto.
  - intros u Hin. rewrite Hm in Hin.
    apply (foldl_try_in_new same_member member_insert member_insert_elem) in Hin as [?|Hin]; [by left|].
    right. apply elem_of_lookup_imap_1 in Hin as (i & d & -> & Hi). eauto.
  - intros u Hin. rewrite Hr in Hin.
    apply (foldl_try_in_new same_resource append_item (@append_item_elem _)) in Hin as [?|Hin]; [by left|].
    right. apply elem_of_lookup_imap_1 in Hin as (i & d & -> & Hi). eauto.
  - intros u Hin. rewrite Hs in Hin.
    apply (foldl_try_in_new same_rule index_insert elem_of_index_insert) in Hin as [?|Hin]; [by left|].
    right. apply elem_of_lookup_imap_1 in Hin as (i & d & -> & Hi). eauto.
Qed.

(** The scenarios the seeding script prints, on a store seeded from
    nothing: resource1 reaches the two developers, resource3 is global
    and reaches the five users, and user1 reaches resource4 (direct),
    resource1 (group) and resource3 (global). *)
Example seeded_scenarios :
  let s := setupSampleData (λ _, "2024-01-01T00:00:00.000Z") empty_store in
  user_count s "resource1" = 2
  ∧ user_count s "resource3" = 5
  ∧ resource_count s "user1" = 3
  ∧ Dynamo.cleanupSampleData whole_pages s = empty_store.
Proof. vm_compute. done. Qed.

(** * Users, members and resources come and go *)

Lemma user_exists_iff s x : user_exists s x ↔ x ∈ User.userId <$> users s.
Proof.
  split; [apply user_exists_listed|].
  intros (u & -> & Hu)%list_elem_of_fmap. by apply User_get_of_elem.
Qed.

Lemma elem_of_rule_users s rule x :
  x ∈ rule_users s rule ↔ user_exists s x ∧ rule_reaches (userGroups s) rule x.
Proof.
  unfold rule_users, rule_reaches, members_of, UserGroup_query_byGroup.
  destruct (ResourceSharing.shareType rule).
  - destruct (decide (user_exists s (ResourceSharing.targetId rule))) as [He|He].
    + rewrite elem_of_singleton. split; [by intros ->|by intros [_ ->]].
    + rewrite elem_of_empty. split; [done|]. intros [Hx <-]. done.
  - rewrite elem_of_list_to_set, list_elem_of_filter, list_elem_of_fmap.
    split.
    + intros [He (ug & -> & Hug)]. apply list_elem_of_filter in Hug as [Hg Hug].
      split; [done|]. by exists ug.
    + intros [He (ug & Hug & Hg & <-)]. split; [done|]. exists ug.
      split; [done|]. by apply list_elem_of_filter.
  - rewrite elem_of_empty. tauto.
Qed.

Lemma access_set_missing s rid : Resource_get rid s = None → access_set s rid = ∅.
Proof. intros H. unfold access_set, getResourceAccessList. by rewrite H. Qed.

(** Who [getResourceAccessList] lists, on any store. *)
Lemma elem_of_access_set s rid x :
  x ∈ access_set s rid ↔
  ∃ r, Resource_get rid s = Some r ∧ user_exists s x
       ∧ (Resource.isGlobal r = true
          ∨ ∃ rule, rule ∈ sharing s ∧ ResourceSharing.resourceId rule = rid
                    ∧ rule_reaches (userGroups s) rule x).
Proof.
  destruct (Resource_get rid s) as [r|] eqn:Hr.
  - destruct (Resource.isGlobal r) eqn:Hg.
    + rewrite (access_set_global s rid r Hr Hg), elem_of_list_to_set,
        <- user_exists_iff.
      split; [intros ?; exists r; tauto|by intros (? & _ & ? & _)].
    + rewrite (elem_of_access_set_not_global s rid r x Hr Hg). split.
      * intros (rule & Hin & Hrid & [He Hre]%elem_of_rule_users).
        exists r. split_and!; [done..|]. right. by exists rule.
      * intros (r' & [= <-] & He & [Hg'|(rule & Hin & Hrid & Hre)]);
          [congruence|].
        exists rule. split_and!; [done..|]. by apply elem_of_rule_users.
  - rewrite (access_set_missing s rid Hr), elem_of_empty.
    split; [done|by intros (? & ? & _)].
Qed.

Lemma elem_of_granted_groups s rid g :
  g ∈ granted_groups s rid ↔
  ∃ rule, rule ∈ sharing s ∧ ResourceSharing.resourceId rule = rid
          ∧ ResourceSharing.shareType rule = ST_group
          ∧ ResourceSharing.targetId rule = g.
Proof.
  unfold granted_groups, ResourceSharing_query_primary.
  rewrite list_elem_of_fmap. split.
  - intros (rule & -> & [Hst [Hrid Hin]%list_elem_of_filter]%list_elem_of_filter).
    by exists rule.
  - intros (rule & Hin & Hrid & Hst & <-). exists rule. split; [done|].
    apply list_elem_of_filter. split; [done|]. by apply list_elem_of_filter.
Qed.

Lemma existsb_false_elem {A} (f : A → bool) l :
  existsb f l = false ↔ ∀ y, y ∈ l → f y = false.
Proof.
  split.
  - intros H y Hy. destruct (f y) eqn:Hf; [|done].
    rewrite <- H. symmetry. apply existsb_exists. exists y.
    split; [by apply list_elem_of_In|done].
  - intros H. destruct (existsb f l) eqn:E; [|done].
    apply existsb_exists in E as (y & Hy & Hf).
    rewrite H in Hf; [done|by apply list_elem_of_In].
Qed.






(** The resolvers read four tables; the table of groups is not one. *)
Lemma resolvers_ext s s' :
  users s' = users s → userGroups s' = userGroups s →
  resources s' = resources s → sharing s' = sharing s →
  (∀ rid, getResourceAccessList rid s' = getResourceAccessList rid s)
  ∧ (∀ uid, getUserResources uid s' = getUserResources uid s).
Proof.
  destruct s, s'. cbn [users userGroups resources sharing].
  intros -> -> -> ->. done.
Qed.

(** X22.  Deleting a group revokes nothing.  The two resolvers never
    read the table of groups: after [Group.delete], and after
    [Group.create], [getResourceAccessList] and [getUserResources] answer
    as before for every resource and user, so the members of a deleted
    group keep the access its grants gave them.  Only new grants are
    refused: [shareResource] to the deleted group throws ['Target group
    not found'] on every registered resource. *)
Theorem X22_group_delete_revokes_nothing s gid :
  let s' := Group_delete gid s in
  (∀ rid, getResourceAccessList rid s' = getResourceAccessList rid s)
  ∧ (∀ uid, getUserResources uid s' = getUserResources uid s)
  ∧ (∀ item s'', Group_create item s = Some s'' →
       (∀ rid, getResourceAccessList rid s'' = getResourceAccessList rid s)
       ∧ (∀ uid, getUserResources uid s'' = getUserResources uid s))
  ∧ (∀ rid sharedBy permissions now,
       is_Some (Resource_get rid s) →
       shareResource rid ST_group gid sharedBy permissions now s'
       = (s', inl (FailedToShareResource TargetGroupNotFound))).
Proof.
  intros s'. split_and!.
  - by apply resolvers_ext.
  - by apply resolvers_ext.
  - intros item s'' Hc. unfold Group_create in Hc.
    destruct (existsb _ _); [done|]. injection Hc as <-. by apply resolvers_ext.
  - intros rid sharedBy permissions now [r Hr]. unfold shareResource.
    change (Resource_get rid s') with (Resource_get rid s). rewrite Hr.
    destruct (Group_get gid s') as [g|] eqn:Hg; [|done].
    unfold Group_get in Hg. apply List.find_some in Hg as [Hin Hk].
    apply bool_decide_eq_true in Hk. apply list_elem_of_In in Hin.
    unfold s', Group_delete in Hin. cbn [groups with_groups] in Hin.
    by apply list_elem_of_filter in Hin as [Hne _].
Qed.

Lemma find_snoc {A} (f : A → bool) l x :
  List.find f (l ++ [x])
  = match List.find f l with
    | Some y => Some y
    | None => if f x then Some x else None
    end.
Proof.
  induction l as [|y l IH]; simpl; [done|]. destruct (f y); [done|apply IH].
Qed.

(** X24.  The two resolver routes.  GET /resource/:id/access-list
    answers 200 with the result of [getResourceAccessList] when the
    resource is registered, and otherwise 404 with the error ['Failed to
    get resource access list: Resource not found']; GET
    /resource/user/:id/resources does the same for a user, with ['Failed
    to get user resources: User not found'].  Neither answers 500. *)
Theorem X24_resolver_routes conflict s id :
  (is_Some (Resource_get id s) →
     ∃ accessList, getResourceAccessList id s = inr accessList
                   ∧ get_access_list conflict id s = Json 200 accessList)
  ∧ (Resource_get id s = None →
       get_access_list conflict id s
       = JsonError 404 "Failed to get resource access list: Resource not found")
  ∧ (is_Some (User_get id s) →
       ∃ userResources, getUserResources id s = inr userResources
                        ∧ get_user_resources conflict id s = Json 200 userResources)
  ∧ (User_get id s = None →
       get_user_resources conflict id s
       = JsonError 404 "Failed to get user resources: User not found").
Proof.
  split_and!.
  - intros Hr. destruct (getResourceAccessList_succeeds s id Hr) as [al Hal].
    exists al. split; [done|]. unfold get_access_list. by rewrite Hal.
  - intros Hr. unfold get_access_list, getResourceAccessList. by rewrite Hr.
  - intros Hu. destruct (getUserResources_succeeds s id Hu) as [rl Hrl].
    exists rl. split; [done|]. unfold get_user_resources. by rewrite Hrl.
  - intros Hu. unfold get_user_resources, getUserResources. by rewrite Hu.
Qed.

(** * The service over the store as served *)

(** The sample stores of this part are built through the service: each
    of these calls of [shareResource] returns its rule. *)
Example sample_shares_return :
  (∃ rule, (Dynamo.shareResource "r1" ST_user "U2" "u1" ["read"]
              "2024-01-03T00:00:00.000Z"
              (Dynamo.shareResource "r1" ST_group "g1" "u1" ["read"]
                 "2024-01-02T00:00:00.000Z"
                 {| users := sample_user <$> ["u1"; "u2"];
                    groups := [sample_group "g1"];
                    userGroups := [sample_member "u2" "g1"];
                    resources := [sample_resource "r1" "u1" false];
                    sharing := [] |}).1).2 = inr rule
           ∧ ResourceSharing.targetId rule = "U2"%string)
  ∧ (∃ rule, (Dynamo.shareResource "R1" ST_user "u1" "u1" ["read"]
                "2024-01-02T00:00:00.000Z"
                {| users := [sample_user "u1"];
                   groups := [sample_group "g1"];
                   userGroups := [sample_member "u1" "g1"];
                   resources := [sample_resource "r1" "u1" false];
                   sharing := [] |}).2 = inr rule
             ∧ ResourceSharing.resourceId rule = "R1"%string).
Proof. split; eexists; split; vm_compute; reflexivity. Qed.

(** C4.  The code run past one page of users.  Six users are registered
    and r3 has been shared globally through [shareResource]; the first
    page of the scan holds four users.  [getResourceAccessList] answers
    with [accessType] ['global'], and with [totalUsers] 4 and the four
    users of the page: u5 and u6, whom [User.get] finds, are not
    counted. *)
Theorem C4_global_list_stops_at_one_page :
  length (users store_six_users) = 6
  ∧ Forall (λ uid, is_Some (Dynamo.User_get uid store_six_users))
      ["u1"; "u2"; "u3"; "u4"; "u5"; "u6"]%string
  ∧ Resource.isGlobal <$> Dynamo.Resource_get "r3" store_six_users = Some true
  ∧ ∃ al,
      Dynamo.getResourceAccessList four_users_a_page "r3" store_six_users = inr al
      ∧ AccessList.accessType al = LT_global
      ∧ AccessList.totalUsers al = 4
      ∧ listed_users al = ["u1"; "u2"; "u3"; "u4"]%string.
Proof.
  split_and!; [reflexivity| |reflexivity|].
  - repeat constructor; by eexists.
  - eexists. split_and!; vm_compute; reflexivity.
Qed.

(** C5.  The code run on one user under two spellings.  The registered
    user u2 is reached through the group g1, whose member row reads
    ['u2'], and through a direct grant whose target reads ['U2'];
    [User.get] finds the same user for both.  The two paths overlap in
    that one user and reach nobody else, yet [totalUsers] is 2: the
    [Set] of the resolver holds the two strings. *)
Theorem C5_one_user_counted_twice :
  Dynamo.User_get "U2" store_user_two_spellings = Some (sample_user "u2")
  ∧ Dynamo.User_get "u2" store_user_two_spellings = Some (sample_user "u2")
  ∧ ∃ al,
      Dynamo.getResourceAccessList whole_pages "r1" store_user_two_spellings
      = inr al
      ∧ provenance al = [("u2"%string, AT_group); ("U2"%string, AT_direct)]
      ∧ AccessDetail.user <$> AccessList.users al
        = [sample_user "u2"; sample_user "u2"]
      ∧ AccessList.totalUsers al = 2.
Proof.
  split_and!; [reflexivity|reflexivity|].
  eexists. split_and!; vm_compute; reflexivity.
Qed.

(** C6.  The code run on one resource under two spellings.  The one
    resource r1 is shared with the user u1 under the identifier ['R1']
    and with the group g1 of u1 under ['r1']; [Resource.get] finds the
    same resource for both.  [getUserResources] lists r1 twice, as a
    direct and as a group share, and [totalResources] is 2: the [Set] of
    the resolver holds the two strings. *)
Theorem C6_one_resource_listed_twice :
  length (resources store_resource_two_spellings) = 1
  ∧ Dynamo.Resource_get "R1" store_resource_two_spellings
    = Some (sample_resource "r1" "u1" false)
  ∧ Dynamo.Resource_get "r1" store_resource_two_spellings
    = Some (sample_resource "r1" "u1" false)
  ∧ ∃ rl,
      Dynamo.getUserResources whole_pages "u1" store_resource_two_spellings
      = inr rl
      ∧ (λ e, (ResourceAccess.resource e, ResourceAccess.accessType e))
          <$> ResourceList.resources rl
        = [(sample_resource "r1" "u1" false, AT_direct);
           (sample_resource "r1" "u1" false, AT_group)]
      ∧ ¬ NoDup (listed_resources rl)
      ∧ ResourceList.totalResources rl = 2.
Proof.
  split_and!; [reflexivity|reflexivity|reflexivity|].
  eexists. split_and!; [vm_compute; reflexivity|vm_compute; reflexivity| |
                        vm_compute; reflexivity].
  intros Hnd. vm_compute in Hnd. apply NoDup_cons in Hnd as [Hnd _].
  apply Hnd. by left.
Qed.

(** ** Reads of the store as served *)

Lemma key_eq_refl a : Dynamo.key_eq a a.
Proof. done. Qed.

Lemma elem_of_first_page {A} pg r (l : list A) x :
  x ∈ Dynamo.first_page pg r l → x ∈ l.
Proof.
  unfold Dynamo.first_page. intros Hx.
  rewrite <- (take_drop (pg r) l). apply elem_of_app. by left.
Qed.

Lemma first_page_prefix {A} pg r (l : list A) :
  ∃ rest, l = Dynamo.first_page pg r l ++ rest.
Proof. exists (drop (pg r) l). unfold Dynamo.first_page. by rewrite take_drop. Qed.

Lemma first_page_all {A} pg r (l : list A) :
  length l ≤ pg r → Dynamo.first_page pg r l = l.
Proof. unfold Dynamo.first_page. apply take_ge. Qed.

Lemma elem_of_insert_by {A} (leb : A → A → bool) x l y :
  y ∈ Dynamo.insert_by leb x l ↔ y = x ∨ y ∈ l.
Proof.
  induction l as [|z l IH]; simpl.
  - rewrite list_elem_of_singleton. set_solver.
  - destruct (leb x z).
    + rewrite elem_of_cons. done.
    + rewrite !elem_of_cons, IH. tauto.
Qed.

Lemma elem_of_index_sort {A} (leb : A → A → bool) l y :
  y ∈ Dynamo.index_sort leb l ↔ y ∈ l.
Proof.
  unfold Dynamo.index_sort. induction l as [|x l IH]; simpl; [done|].
  rewrite elem_of_insert_by, elem_of_cons, IH. done.
Qed.

Lemma Dynamo_User_get_of_elem s u :
  u ∈ users s → is_Some (Dynamo.User_get (User.userId u) s).
Proof.
  intros Hu. unfold Dynamo.User_get.
  destruct (List.find _ (users s)) eqn:Hfind; [by eexists|].
  apply list_elem_of_In in Hu.
  pose proof (List.find_none _ _ Hfind u Hu) as Hnone.
  apply bool_decide_eq_false in Hnone. by destruct Hnone.
Qed.

Lemma Dynamo_Resource_get_of_elem s r :
  r ∈ resources s → is_Some (Dynamo.Resource_get (Resource.resourceId r) s).
Proof.
  intros Hr. unfold Dynamo.Resource_get.
  destruct (List.find _ (resources s)) eqn:Hfind; [by eexists|].
  apply list_elem_of_In in Hr.
  pose proof (List.find_none _ _ Hfind r Hr) as Hnone.
  apply bool_decide_eq_false in Hnone. by destruct Hnone.
Qed.

Lemma Dynamo_Resource_get_Some s rid r :
  Dynamo.Resource_get rid s = Some r →
  r ∈ resources s ∧ Dynamo.key_eq (Resource.resourceId r) rid.
Proof.
  unfold Dynamo.Resource_get. intros [Hin Hk]%List.find_some.
  split; [by apply list_elem_of_In|by apply bool_decide_eq_true in Hk].
Qed.

Lemma Dynamo_User_get_Some s uid u :
  Dynamo.User_get uid s = Some u →
  u ∈ users s ∧ Dynamo.key_eq (User.userId u) uid.
Proof.
  unfold Dynamo.User_get. intros [Hin Hk]%List.find_some.
  split; [by apply list_elem_of_In|by apply bool_decide_eq_true in Hk].
Qed.

Lemma Dynamo_getResourceAccessList_succeeds pg s rid :
  is_Some (Dynamo.Resource_get rid s) →
  ∃ al, Dynamo.getResourceAccessList pg rid s = inr al.
Proof.
  intros [r Hr]. unfold Dynamo.getResourceAccessList. rewrite Hr.
  destruct (Resource.isGlobal r); by eexists.
Qed.

Lemma Dynamo_getUserResources_succeeds pg s uid :
  is_Some (Dynamo.User_get uid s) →
  ∃ rl, Dynamo.getUserResources pg uid s = inr rl.
Proof. intros [u Hu]. unfold Dynamo.getUserResources. rewrite Hu. by eexists. Qed.

(** ** The reports over the store as served *)

Lemma Dynamo_resources_loop_ok pg s rs results :
  (∀ r, r ∈ rs → r ∈ resources s) →
  ∃ rows,
    Dynamo.resources_with_user_count_loop pg s rs results = inr (results ++ rows)
    ∧ Forall2 (λ r row,
         ∃ al, Dynamo.getResourceAccessList pg (Resource.resourceId r) s = inr al
               ∧ row = resource_row r al) rs rows.
Proof.
  revert results. induction rs as [|r rs IH]; intros results Hin.
  - exists []. split; [by rewrite app_nil_r|constructor].
  - cbn [Dynamo.resources_with_user_count_loop].
    destruct (Dynamo_getResourceAccessList_succeeds pg s (Resource.resourceId r))
      as [al Hal].
    { apply Dynamo_Resource_get_of_elem, Hin. by left. }
    rewrite Hal.
    destruct (IH (results ++ [resource_row r al])) as (rows & Hrows & Hall).
    { intros r' Hr'. apply Hin. by right. }
    exists (resource_row r al :: rows). split.
    + by rewrite Hrows, <- app_assoc.
    + constructor; [by exists al|done].
Qed.

Lemma Dynamo_users_loop_ok pg s us results :
  (∀ u, u ∈ us → u ∈ users s) →
  ∃ rows,
    Dynamo.users_with_resource_count_loop pg s us results = inr (results ++ rows)
    ∧ Forall2 (λ u row,
         ∃ rl, Dynamo.getUserResources pg (User.userId u) s = inr rl
               ∧ row = user_row u rl) us rows.
Proof.
  revert results. induction us as [|u us IH]; intros results Hin.
  - exists []. split; [by rewrite app_nil_r|constructor].
  - cbn [Dynamo.users_with_resource_count_loop].
    destruct (Dynamo_getUserResources_succeeds pg s (User.userId u)) as [rl Hrl].
    { apply Dynamo_User_get_of_elem, Hin. by left. }
    rewrite Hrl.
    destruct (IH (results ++ [user_row u rl])) as (rows & Hrows & Hall).
    { intros u' Hu'. apply Hin. by right. }
    exists (user_row u rl :: rows). split.
    + by rewrite Hrows, <- app_assoc.
    + constructor; [by exists rl|done].
Qed.

(** X1.  [getResourcesWithUserCount] never throws: every resource the
    scan returns is found again by the resolver.  It returns one row for
    each resource of the first page of the scan, in the order of the
    scan, and none for the resources of the table after that page; the
    row of a resource carries the [totalUsers] and the [accessType] that
    [getResourceAccessList] gives for its [resourceId]. *)
Theorem X1_resources_report pg s :
  ∃ rows,
    Dynamo.getResourcesWithUserCount pg s = inr rows
    ∧ ResourceCount.resource <$> rows = take (pg Dynamo.Scan_resources) (resources s)
    ∧ length rows = min (pg Dynamo.Scan_resources) (length (resources s))
    ∧ Forall (λ row,
         ∃ al, Dynamo.getResourceAccessList pg
                 (Resource.resourceId (ResourceCount.resource row)) s = inr al
               ∧ ResourceCount.userCount row = AccessList.totalUsers al
               ∧ ResourceCount.accessType row = AccessList.accessType al) rows.
Proof.
  unfold Dynamo.getResourcesWithUserCount.
  destruct (Dynamo_resources_loop_ok pg s (Dynamo.Resource_scan pg s) [])
    as (rows & Hrows & Hall).
  { intros r. apply elem_of_first_page. }
  exists rows. cbn [app] in Hrows.
  assert (Hres : ResourceCount.resource <$> rows = Dynamo.Resource_scan pg s).
  { clear Hrows. induction Hall as [|r row rs rows (al & _ & ->) _ IH]; [done|].
    cbn. by rewrite IH. }
  split_and!; [done|done|..].
  - rewrite <- (length_fmap ResourceCount.resource), Hres.
    unfold Dynamo.Resource_scan, Dynamo.first_page. apply length_take.
  - clear Hrows Hres. induction Hall as [|r row rs rows (al & Hal & ->) _ IH];
      constructor; [|done].
    exists al. done.
Qed.

(** X2.  [getUsersWithResourceCount] never throws either; it returns one
    row for each user of the first page of the scan, in the order of the
    scan, with the [totalResources] that [getUserResources] gives for the
    [userId], and no row for the users after that page. *)
Theorem X2_users_report pg s :
  ∃ rows,
    Dynamo.getUsersWithResourceCount pg s = inr rows
    ∧ UserCount.user <$> rows = take (pg Dynamo.Scan_users) (users s)
    ∧ length rows = min (pg Dynamo.Scan_users) (length (users s))
    ∧ Forall (λ row,
         ∃ rl, Dynamo.getUserResources pg
                 (User.userId (UserCount.user row)) s = inr rl
               ∧ UserCount.resourceCount row = ResourceList.totalResources rl)
        rows.
Proof.
  unfold Dynamo.getUsersWithResourceCount.
  destruct (Dynamo_users_loop_ok pg s (Dynamo.User_scan pg s) [])
    as (rows & Hrows & Hall).
  { intros u. apply elem_of_first_page. }
  exists rows. cbn [app] in Hrows.
  assert (Hres : UserCount.user <$> rows = Dynamo.User_scan pg s).
  { clear Hrows. induction Hall as [|u row us rows (rl & _ & ->) _ IH]; [done|].
    cbn. by rewrite IH. }
  split_and!; [done|done|..].
  - rewrite <- (length_fmap UserCount.user), Hres.
    unfold Dynamo.User_scan, Dynamo.first_page. apply length_take.
  - clear Hrows Hres. induction Hall as [|u row us rows (rl & Hrl & ->) _ IH];
      constructor; [|done].
    exists rl. done.
Qed.

(** ** What the resolvers list over the store as served *)

Lemma Dynamo_process_member_invariant s rule st m :
  forward_invariant s st → forward_invariant s (Dynamo.process_member s rule st m).
Proof.
  intros [Hset Hall]. unfold Dynamo.process_member.
  destruct (decide (UserGroup.userId m ∈ st.1)); [done|].
  destruct (Dynamo.User_get (UserGroup.userId m) s) as [u|] eqn:Hu; [|done].
  split; cbn [fst snd].
  - rewrite fmap_app, list_to_set_app_L, Hset. set_solver.
  - intros e [He|He]%elem_of_app; [by apply Hall|].
    by apply list_elem_of_singleton in He as ->.
Qed.

Lemma Dynamo_process_rule_invariant pg s st rule :
  forward_invariant s st → forward_invariant s (Dynamo.process_rule pg s st rule).
Proof.
  intros Hst. unfold Dynamo.process_rule.
  destruct (ResourceSharing.shareType rule).
  - destruct (Dynamo.User_get (ResourceSharing.targetId rule) s) as [u|] eqn:Hu;
      [|done].
    destruct Hst as [Hset Hall]. split; cbn [fst snd].
    + rewrite fmap_app, list_to_set_app_L, Hset. set_solver.
    + intros e [He|He]%elem_of_app; [by apply Hall|].
      by apply list_elem_of_singleton in He as ->.
  - generalize (Dynamo.UserGroup_query_byGroup pg (ResourceSharing.targetId rule) s).
    intros ms. revert st Hst. induction ms as [|m ms IH]; intros st Hst; [done|].
    cbn [foldl]. apply IH. by apply Dynamo_process_member_invariant.
  - done.
Qed.

Lemma Dynamo_process_rules_invariant pg s rules : ∀ st,
  forward_invariant s st →
  forward_invariant s (foldl (Dynamo.process_rule pg s) st rules).
Proof.
  induction rules as [|rule rules IH]; intros st Hst; [done|].
  cbn [foldl]. apply IH. by apply Dynamo_process_rule_invariant.
Qed.

(** X3.  What an answer of [getResourceAccessList] is made of.
    [totalUsers] is the number of different [userId] strings among the
    entries, so it never exceeds the number of entries; every entry
    names a user that [User.get] finds.  The entries of a ['global']
    answer are one per user of the first page of the scan of the users,
    in the order of the scan; an entry of a ['specific'] answer carries
    the item that [User.get] returns for its [userId]. *)
Theorem X3_access_list_invariants pg s rid al :
  Dynamo.getResourceAccessList pg rid s = inr al →
  AccessList.totalUsers al = size (list_to_set (listed_users al) : gset string)
  ∧ AccessList.totalUsers al ≤ length (AccessList.users al)
  ∧ (∀ e, e ∈ AccessList.users al →
       is_Some (Dynamo.User_get (AccessDetail.userId e) s))
  ∧ (AccessList.accessType al = LT_global →
       AccessList.users al
       = global_detail <$> take (pg Dynamo.Scan_users) (users s))
  ∧ (AccessList.accessType al = LT_specific →
       ∀ e, e ∈ AccessList.users al →
         Dynamo.User_get (AccessDetail.userId e) s = Some (AccessDetail.user e)).
Proof.
  unfold Dynamo.getResourceAccessList.
  destruct (Dynamo.Resource_get rid s) as [r|]; [|done].
  destruct (Resource.isGlobal r); intros [= <-];
    unfold listed_users; cbn [access_list AccessList.totalUsers AccessList.users
                                AccessList.accessType].
  - rewrite foldl_add_global_user. cbn [fst snd app].
    rewrite <- list_fmap_compose.
    assert (Hids : AccessDetail.userId ∘ global_detail = User.userId) by done.
    rewrite Hids, (right_id_L ∅ (∪)).
    split_and!; [done| |..|done|done].
    + rewrite length_fmap, <- (length_fmap User.userId). apply size_list_to_set_le.
    + intros e (u & -> & Hu)%list_elem_of_fmap.
      apply Dynamo_User_get_of_elem. by apply elem_of_first_page in Hu.
  - destruct (Dynamo_process_rules_invariant pg s
                (Dynamo.ResourceSharing_query_primary pg rid s) (∅, []))
      as [Hset Hall].
    { split; [done|]. intros e He. by apply elem_of_nil in He. }
    split_and!; [by rewrite Hset| |..|done|done].
    + rewrite <- Hset, <- (length_fmap AccessDetail.userId).
      apply size_list_to_set_le.
    + intros e He. rewrite (Hall e He). by eexists.
Qed.

Lemma X3_access_list_invariants_witness :
  ∃ al,
    Dynamo.getResourceAccessList whole_pages "r1" store_user_two_spellings = inr al
    ∧ AccessList.totalUsers al = size (list_to_set (listed_users al) : gset string)
    ∧ AccessList.totalUsers al ≤ length (AccessList.users al)
    ∧ (∀ e, e ∈ AccessList.users al →
         is_Some (Dynamo.User_get (AccessDetail.userId e) store_user_two_spellings))
    ∧ (AccessList.accessType al = LT_global →
         AccessList.users al
         = global_detail <$> take (whole_pages Dynamo.Scan_users)
                               (users store_user_two_spellings))
    ∧ (AccessList.accessType al = LT_specific →
         ∀ e, e ∈ AccessList.users al →
           Dynamo.User_get (AccessDetail.userId e) store_user_two_spellings
           = Some (AccessDetail.user e)).
Proof.
  eexists. split; [vm_compute; reflexivity|].
  apply (X3_access_list_invariants whole_pages store_user_two_spellings "r1").
  vm_compute. reflexivity.
Defined.

Lemma Dynamo_process_share_invariant s mk st share :
  (∀ sh r, ResourceAccess.resource (mk sh r) = r) →
  reverse_invariant s st →
  reverse_invariant s (Dynamo.process_share s mk st share).
Proof.
  intros Hmk (Hsize & Hkeys & Hres). unfold Dynamo.process_share.
  destruct (decide (ResourceSharing.resourceId share ∈ st.1)) as [Hin|Hin];
    [done|].
  destruct (Dynamo.Resource_get (ResourceSharing.resourceId share) s)
    as [r|] eqn:Hr; [|done].
  apply Dynamo_Resource_get_Some in Hr as [Hr Hk].
  split_and!; cbn [fst snd].
  - rewrite size_union by set_solver.
    rewrite size_singleton, length_app, Hsize. cbn [length]. lia.
  - intros x [->%elem_of_singleton|Hx]%elem_of_union.
    + exists (mk share r). split; [apply elem_of_app; right; by left|].
      unfold entry_id. by rewrite Hmk.
    + destruct (Hkeys x Hx) as (e & He & Hke). exists e.
      split; [apply elem_of_app; by left|done].
  - intros e [He|He]%elem_of_app; [by apply Hres|].
    apply list_elem_of_singleton in He as ->. by rewrite Hmk.
Qed.

Lemma Dynamo_process_global_invariant s st r :
  r ∈ resources s →
  reverse_invariant s st → reverse_invariant s (process_global st r).
Proof.
  intros Hr (Hsize & Hkeys & Hres). unfold process_global.
  destruct (decide (Resource.resourceId r ∈ st.1)) as [Hin|Hin]; [done|].
  split_and!; cbn [fst snd].
  - rewrite size_union by set_solver.
    rewrite size_singleton, length_app, Hsize. cbn [length]. lia.
  - intros x [->%elem_of_singleton|Hx]%elem_of_union.
    + exists (global_access r). split; [apply elem_of_app; right; by left|done].
    + destruct (Hkeys x Hx) as (e & He & Hke). exists e.
      split; [apply elem_of_app; by left|done].
  - intros e [He|He]%elem_of_app; [by apply Hres|].
    by apply list_elem_of_singleton in He as ->.
Qed.

Lemma Dynamo_foldl_process_share_invariant s mk shares : ∀ st,
  (∀ sh r, ResourceAccess.resource (mk sh r) = r) →
  reverse_invariant s st →
  reverse_invariant s (foldl (Dynamo.process_share s mk) st shares).
Proof.
  induction shares as [|share shares IH]; intros st Hmk Hst; [done|].
  cbn [foldl]. apply IH; [done|]. by apply Dynamo_process_share_invariant.
Qed.

Lemma Dynamo_foldl_process_global_invariant s rs : ∀ st,
  (∀ r, r ∈ rs → r ∈ resources s) →
  reverse_invariant s st → reverse_invariant s (foldl process_global st rs).
Proof.
  induction rs as [|r rs IH]; intros st Hin Hst; [done|].
  cbn [foldl]. apply IH; [intros r' Hr'; apply Hin; by right|].
  apply Dynamo_process_global_invariant; [apply Hin; by left|done].
Qed.

Lemma Dynamo_process_share_grows s mk st share :
  st.1 ⊆ (Dynamo.process_share s mk st share).1
  ∧ (is_Some (Dynamo.Resource_get (ResourceSharing.resourceId share) s) →
     ResourceSharing.resourceId share ∈ (Dynamo.process_share s mk st share).1).
Proof.
  unfold Dynamo.process_share.
  destruct (decide (ResourceSharing.resourceId share ∈ st.1)) as [Hin|Hin];
    [done|].
  destruct (Dynamo.Resource_get (ResourceSharing.resourceId share) s) as [r|].
  - cbn [fst]. set_solver.
  - split; [done|]. by intros [? ?].
Qed.

Lemma Dynamo_foldl_process_share_grows s mk shares : ∀ st,
  st.1 ⊆ (foldl (Dynamo.process_share s mk) st shares).1
  ∧ ∀ share, share ∈ shares →
      is_Some (Dynamo.Resource_get (ResourceSharing.resourceId share) s) →
      ResourceSharing.resourceId share
      ∈ (foldl (Dynamo.process_share s mk) st shares).1.
Proof.
  induction shares as [|sh shares IH]; intros st; cbn [foldl].
  - split; [done|]. intros share Hsh. by apply elem_of_nil in Hsh.
  - destruct (IH (Dynamo.process_share s mk st sh)) as [Hsub Hall].
    destruct (Dynamo_process_share_grows s mk st sh) as [Hsub1 Hin1].
    split; [set_solver|].
    intros share [->|Hsh]%elem_of_cons Hget; [|by apply Hall].
    apply Hsub. by apply Hin1.
Qed.

Lemma foldl_process_global_grows rs : ∀ st,
  st.1 ⊆ (foldl process_global st rs).1
  ∧ ∀ r, r ∈ rs → Resource.resourceId r ∈ (foldl process_global st rs).1.
Proof.
  induction rs as [|r0 rs IH]; intros st; cbn [foldl].
  - split; [done|]. intros r Hr. by apply elem_of_nil in Hr.
  - destruct (IH (process_global st r0)) as [Hsub Hall].
    assert (H1 : st.1 ⊆ (process_global st r0).1
                 ∧ Resource.resourceId r0 ∈ (process_global st r0).1).
    { unfold process_global.
      destruct (decide (Resource.resourceId r0 ∈ st.1)); [done|].
      cbn [fst]. set_solver. }
    destruct H1 as [Hsub1 Hin1]. split; [set_solver|].
    intros r [->|Hr]%elem_of_cons; [by apply Hsub|by apply Hall].
Qed.

(** X4.  What an answer of [getUserResources] is made of.
    [totalResources] is the number of entries; every entry carries a
    resource of the resources table.  Every resource that the query of
    the global resources returns is listed, and so is every resource
    that [Resource.get] finds for a rule that the query by target returns
    for the user's identifier; the entry may carry the identifier in
    another spelling. *)
Theorem X4_resource_list_invariants pg s uid rl :
  Dynamo.getUserResources pg uid s = inr rl →
  ResourceList.totalResources rl = length (ResourceList.resources rl)
  ∧ (∀ e, e ∈ ResourceList.resources rl →
       ResourceAccess.resource e ∈ resources s)
  ∧ (∀ r, r ∈ Dynamo.Resource_query_globalResources pg s →
       ∃ e, e ∈ ResourceList.resources rl
            ∧ Dynamo.key_eq (entry_id e) (Resource.resourceId r))
  ∧ (∀ share, share ∈ Dynamo.ResourceSharing_query_byTarget pg uid s →
       is_Some (Dynamo.Resource_get (ResourceSharing.resourceId share) s) →
       ∃ e, e ∈ ResourceList.resources rl
            ∧ Dynamo.key_eq (entry_id e) (ResourceSharing.resourceId share)).
Proof.
  unfold Dynamo.getUserResources.
  destruct (Dynamo.User_get uid s) as [u|]; [|done]. cbv zeta. intros [= <-].
  cbn [ResourceList.totalResources ResourceList.resources].
  set (direct := Dynamo.ResourceSharing_query_byTarget pg uid s).
  set (grouped := Dynamo.groupShares_of pg s _).
  set (globals := Dynamo.Resource_query_globalResources pg s).
  set (st1 := foldl (Dynamo.process_share s direct_access) (∅, []) direct).
  set (st2 := foldl (Dynamo.process_share s group_access) st1 grouped).
  set (st3 := foldl process_global st2 globals).
  assert (H1 : reverse_invariant s st1).
  { apply Dynamo_foldl_process_share_invariant; [done|].
    split_and!; [done|set_solver|]. intros e He. by apply elem_of_nil in He. }
  assert (H2 : reverse_invariant s st2)
    by (by apply Dynamo_foldl_process_share_invariant).
  assert (H3 : reverse_invariant s st3).
  { apply Dynamo_foldl_process_global_invariant; [|done].
    intros r Hr. unfold globals, Dynamo.Resource_query_globalResources in Hr.
    apply elem_of_first_page, elem_of_index_sort in Hr.
    by apply list_elem_of_filter in Hr as [_ ?]. }
  destruct H3 as (Hsize & Hkeys & Hres).
  destruct (Dynamo_foldl_process_share_grows s direct_access direct (∅, []))
    as [_ Hd].
  destruct (Dynamo_foldl_process_share_grows s group_access grouped st1)
    as [Hs12 _].
  destruct (foldl_process_global_grows globals st2) as [Hs23 Hg].
  split_and!; [done|done|..].
  - intros r Hr. apply Hkeys, Hg, Hr.
  - intros share Hsh Hget. apply Hkeys, Hs23, Hs12, Hd; done.
Qed.

Lemma X4_resource_list_invariants_witness :
  ∃ rl,
    Dynamo.getUserResources whole_pages "u1" store_resource_two_spellings = inr rl
    ∧ ResourceList.totalResources rl = length (ResourceList.resources rl)
    ∧ (∀ e, e ∈ ResourceList.resources rl →
         ResourceAccess.resource e ∈ resources store_resource_two_spellings)
    ∧ (∀ r, r ∈ Dynamo.Resource_query_globalResources whole_pages
                  store_resource_two_spellings →
         ∃ e, e ∈ ResourceList.resources rl
              ∧ Dynamo.key_eq (entry_id e) (Resource.resourceId r))
    ∧ (∀ share, share ∈ Dynamo.ResourceSharing_query_byTarget whole_pages "u1"
                          store_resource_two_spellings →
         is_Some (Dynamo.Resource_get (ResourceSharing.resourceId share)
                    store_resource_two_spellings) →
         ∃ e, e ∈ ResourceList.resources rl
              ∧ Dynamo.key_eq (entry_id e) (ResourceSharing.resourceId share)).
Proof.
  eexists. split; [vm_compute; reflexivity|].
  apply (X4_resource_list_invariants whole_pages store_resource_two_spellings "u1").
  vm_compute. reflexivity.
Defined.

(** ** A global share over the store as served *)

Lemma find_map_stable {A} (p : A → bool) (f : A → A) l :
  (∀ x, p (f x) = p x) →
  List.find p (map f l) = f <$> List.find p l.
Proof.
  intros Hp. induction l as [|x l IH]; [done|]. cbn [map List.find].
  rewrite Hp. destruct (p x); [done|apply IH].
Qed.

Lemma Dynamo_update_flag rid b now s :
  is_Some (Dynamo.Resource_get rid s) →
  Resource.isGlobal <$> Dynamo.Resource_get rid
                          (Dynamo.Resource_update_isGlobal rid b now s)
  = Some b.
Proof.
  intros [r Hr]. unfold Dynamo.Resource_update_isGlobal. rewrite Hr.
  unfold Dynamo.Resource_get at 1. cbn [resources with_resources].
  rewrite find_map_stable.
  - fold (Dynamo.Resource_get rid s). rewrite Hr. cbn.
    apply Dynamo_Resource_get_Some in Hr as [_ Hk].
    by rewrite bool_decide_eq_true_2.
  - intros x.
    destruct (bool_decide (Dynamo.key_eq (Resource.resourceId x) rid)) eqn:E;
      [cbn [set_isGlobal Resource.resourceId]|]; exact E.
Qed.

Lemma Dynamo_create_rule_keeps rule s :
  users (Dynamo.create_rule rule s).1 = users s
  ∧ groups (Dynamo.create_rule rule s).1 = groups s
  ∧ userGroups (Dynamo.create_rule rule s).1 = userGroups s
  ∧ resources (Dynamo.create_rule rule s).1 = resources s.
Proof.
  unfold Dynamo.create_rule, Dynamo.ResourceSharing_create.
  by destruct (existsb _ _).
Qed.

Lemma Dynamo_update_keeps rid b now s :
  users (Dynamo.Resource_update_isGlobal rid b now s) = users s
  ∧ userGroups (Dynamo.Resource_update_isGlobal rid b now s) = userGroups s
  ∧ sharing (Dynamo.Resource_update_isGlobal rid b now s) = sharing s.
Proof. unfold Dynamo.Resource_update_isGlobal. by destruct (Dynamo.Resource_get _ _). Qed.

Lemma Dynamo_global_resources_listed pg s uid rl :
  Dynamo.getUserResources pg uid s = inr rl →
  ∀ r, r ∈ Dynamo.Resource_query_globalResources pg s →
    ∃ e, e ∈ ResourceList.resources rl
         ∧ Dynamo.key_eq (entry_id e) (Resource.resourceId r).
Proof.
  unfold Dynamo.getUserResources.
  destruct (Dynamo.User_get uid s) as [u|]; [|done]. cbv zeta. intros [= <-].
  cbn [ResourceList.resources].
  set (globals := Dynamo.Resource_query_globalResources pg s).
  set (st2 := foldl (Dynamo.process_share s group_access) _ _).
  assert (H2 : reverse_invariant s st2).
  { apply Dynamo_foldl_process_share_invariant; [done|].
    apply Dynamo_foldl_process_share_invariant; [done|].
    split_and!; [done|set_solver|]. intros e He. by apply elem_of_nil in He. }
  assert (H3 : reverse_invariant s (foldl process_global st2 globals)).
  { apply Dynamo_foldl_process_global_invariant; [|done].
    intros r Hr. unfold globals, Dynamo.Resource_query_globalResources in Hr.
    apply elem_of_first_page, elem_of_index_sort in Hr.
    by apply list_elem_of_filter in Hr as [_ ?]. }
  destruct H3 as (_ & Hkeys & _).
  destruct (foldl_process_global_grows globals st2) as [_ Hg].
  intros r Hr. apply Hkeys, Hg, Hr.
Qed.

(** X12.  A ['global'] share of a resource that [Resource.get] finds
    always leaves it global, whether [shareResource] returns or throws
    (a global grant may exist already).  [getResourceAccessList] then
    answers with [accessType] ['global'] and lists the users of the
    first page of the scan of the users, one entry each and no user
    after that page; [getUserResources] lists the resource for every
    registered user as long as the first page of the query of the global
    resources holds it. *)
Theorem X12_global_share_opens pg s rid tid sharedBy permissions now :
  is_Some (Dynamo.Resource_get rid s) →
  let s' := (Dynamo.shareResource rid ST_global tid sharedBy permissions now s).1 in
  (∃ r, Dynamo.Resource_get rid s' = Some r ∧ Resource.isGlobal r = true)
  ∧ (∃ al, Dynamo.getResourceAccessList pg rid s' = inr al
           ∧ AccessList.accessType al = LT_global
           ∧ listed_users al
             = User.userId <$> take (pg Dynamo.Scan_users) (users s))
  ∧ ∀ uid, is_Some (Dynamo.User_get uid s) →
      ∃ rl, Dynamo.getUserResources pg uid s' = inr rl
            ∧ ∀ r, Dynamo.Resource_get rid s' = Some r →
                r ∈ Dynamo.Resource_query_globalResources pg s' →
                ∃ e, e ∈ ResourceList.resources rl
                     ∧ Dynamo.key_eq (entry_id e) rid.
Proof.
  intros Hget. cbv zeta. unfold Dynamo.shareResource.
  destruct Hget as [r0 Hr0]. rewrite Hr0.
  set (s1 := Dynamo.Resource_update_isGlobal rid true now s).
  set (rule := new_rule rid ST_global "global" sharedBy permissions now).
  set (s' := (Dynamo.create_rule rule s1).1).
  destruct (Dynamo_create_rule_keeps rule s1) as (Hus & _ & _ & Hres).
  destruct (Dynamo_update_keeps rid true now s) as (Hus1 & _ & _).
  fold s' in Hus, Hres. fold s1 in Hus1.
  assert (Hflag : Resource.isGlobal <$> Dynamo.Resource_get rid s' = Some true).
  { unfold Dynamo.Resource_get. rewrite Hres.
    apply Dynamo_update_flag. by exists r0. }
  destruct (Dynamo.Resource_get rid s') as [r|] eqn:Hr; [|done].
  injection Hflag as Hg.
  split_and!.
  - by exists r.
  - eexists. split; [unfold Dynamo.getResourceAccessList; by rewrite Hr, Hg|].
    split; [done|]. unfold listed_users. cbn [access_list AccessList.users].
    rewrite foldl_add_global_user. cbn [snd app].
    rewrite <- list_fmap_compose. unfold Dynamo.User_scan, Dynamo.first_page.
    by rewrite Hus, Hus1.
  - intros uid Hu.
    destruct (Dynamo_getUserResources_succeeds pg s' uid) as [rl Hrl].
    { unfold Dynamo.User_get. by rewrite Hus, Hus1. }
    exists rl. split; [done|]. intros r' Hr' Hin.
    destruct (Dynamo_global_resources_listed pg s' uid rl Hrl r' Hin)
      as (e & He & Hk).
    exists e. split; [done|]. injection Hr' as <-.
    apply Dynamo_Resource_get_Some in Hr as [_ Hk'].
    unfold Dynamo.key_eq in *. congruence.
Qed.

Lemma X12_global_share_opens_witness :
  is_Some (Dynamo.Resource_get "R3" store_six_users)
  ∧ let s' := (Dynamo.shareResource "R3" ST_global "anything" "u1" ["read"]
                 "2024-01-05T00:00:00.000Z" store_six_users).1 in
    (∃ r, Dynamo.Resource_get "R3" s' = Some r ∧ Resource.isGlobal r = true)
    ∧ (∃ al, Dynamo.getResourceAccessList four_users_a_page "R3" s' = inr al
             ∧ AccessList.accessType al = LT_global
             ∧ listed_users al
               = User.userId <$> take (four_users_a_page Dynamo.Scan_users)
                                   (users store_six_users))
    ∧ ∀ uid, is_Some (Dynamo.User_get uid store_six_users) →
        ∃ rl, Dynamo.getUserResources four_users_a_page uid s' = inr rl
              ∧ ∀ r, Dynamo.Resource_get "R3" s' = Some r →
                  r ∈ Dynamo.Resource_query_globalResources four_users_a_page s' →
                  ∃ e, e ∈ ResourceList.resources rl
                       ∧ Dynamo.key_eq (entry_id e) "R3".
Proof.
  assert (Hr : is_Some (Dynamo.Resource_get "R3" store_six_users)) by (by eexists).
  split; [exact Hr|].
  apply (X12_global_share_opens four_users_a_page store_six_users "R3"
           "anything" "u1" ["read"] "2024-01-05T00:00:00.000Z" Hr).
Defined.

(** ** The cleaning script over the store as served *)

(** Deleting, one after the other, what each item of a list names
    leaves the items that none of them names. *)
Lemma foldl_delete {A} (del : A → A → Prop) `{∀ x y, Decision (del x y)} ys :
  ∀ (acc : list A) x,
    x ∈ foldl (λ acc y, filter (λ x, ¬ del y x) acc) acc ys
    ↔ x ∈ acc ∧ ∀ y, y ∈ ys → ¬ del y x.
Proof.
  induction ys as [|y ys IH]; intros acc x; cbn [foldl].
  - split; [intros Hx; split; [done|]; intros y Hy; by apply elem_of_nil in Hy
           |by intros [? _]].
  - rewrite IH, list_elem_of_filter. split.
    + intros [[Hn Hx] Hall]. split; [done|].
      intros y' [->|Hy']%elem_of_cons; [done|by apply Hall].
    + intros [Hx Hall]. split_and!; [apply Hall; by left|done|].
      intros y' Hy'. apply Hall. by right.
Qed.

Lemma Dynamo_rules_cleanup xs s :
  foldl (λ s rule,
      Dynamo.ResourceSharing_delete (ResourceSharing.resourceId rule)
        (ResourceSharing.shareType rule) (ResourceSharing.targetId rule) s) s xs
  = with_sharing
      (foldl (λ acc y, filter (λ x,
                ¬ Dynamo.same_key (ResourceSharing.resourceId y)
                    (ResourceSharing.shareType y) (ResourceSharing.targetId y) x)
                acc) (sharing s) xs) s.
Proof.
  apply (foldl_table _ _ sharing with_sharing); try done. by intros [].
Qed.

Lemma Dynamo_resources_cleanup xs s :
  foldl (λ s resource, Dynamo.Resource_delete (Resource.resourceId resource) s) s xs
  = with_resources
      (foldl (λ acc y, filter (λ x,
                ¬ Dynamo.key_eq (Resource.resourceId x) (Resource.resourceId y)) acc)
         (resources s) xs) s.
Proof.
  apply (foldl_table _ _ resources with_resources); try done. by intros [].
Qed.

Lemma Dynamo_members_cleanup xs s :
  foldl (λ s membership,
      Dynamo.UserGroup_delete (UserGroup.userId membership)
        (UserGroup.groupId membership) s) s xs
  = with_userGroups
      (foldl (λ acc y, filter (λ x,
                ¬ (Dynamo.key_eq (UserGroup.userId x) (UserGroup.userId y)
                   ∧ Dynamo.key_eq (UserGroup.groupId x) (UserGroup.groupId y)))
                acc) (userGroups s) xs) s.
Proof.
  apply (foldl_table _ _ userGroups with_userGroups); try done. by intros [].
Qed.

Lemma Dynamo_groups_cleanup xs s :
  foldl (λ s group, Dynamo.Group_delete (Group.groupId group) s) s xs
  = with_groups
      (foldl (λ acc y, filter (λ x,
                ¬ Dynamo.key_eq (Group.groupId x) (Group.groupId y)) acc)
         (groups s) xs) s.
Proof.
  apply (foldl_table _ _ groups with_groups); try done. by intros [].
Qed.

Lemma Dynamo_users_cleanup xs s :
  foldl (λ s user, Dynamo.User_delete (User.userId user) s) s xs
  = with_users
      (foldl (λ acc y, filter (λ x,
                ¬ Dynamo.key_eq (User.userId x) (User.userId y)) acc)
         (users s) xs) s.
Proof.
  apply (foldl_table _ _ users with_users); try done. by intros [].
Qed.

Lemma nil_of_no_elem {A} (l : list A) : (∀ x, x ∉ l) → l = [].
Proof. destruct l as [|x l]; [done|]. intros H. destruct (H x). by left. Qed.

(** X18.  [cleanupSampleData] deletes of each table the items filed
    under the key of an item of the first page of its scan, and leaves
    the others: a table that goes beyond one page is not emptied.  When
    each of the five tables fits the first page of its scan, the store
    is left empty, whatever it held. *)
Theorem X18_cleanup_first_pages pg s :
  let s' := Dynamo.cleanupSampleData pg s in
  (∀ x, x ∈ sharing s' ↔
        x ∈ sharing s
        ∧ ∀ y, y ∈ take (pg Dynamo.Scan_sharing) (sharing s) →
            ¬ Dynamo.same_key (ResourceSharing.resourceId y)
                (ResourceSharing.shareType y) (ResourceSharing.targetId y) x)
  ∧ (∀ x, x ∈ resources s' ↔
          x ∈ resources s
          ∧ ∀ y, y ∈ take (pg Dynamo.Scan_resources) (resources s) →
              ¬ Dynamo.key_eq (Resource.resourceId x) (Resource.resourceId y))
  ∧ (∀ x, x ∈ userGroups s' ↔
          x ∈ userGroups s
          ∧ ∀ y, y ∈ take (pg Dynamo.Scan_members) (userGroups s) →
              ¬ (Dynamo.key_eq (UserGroup.userId x) (UserGroup.userId y)
                 ∧ Dynamo.key_eq (UserGroup.groupId x) (UserGroup.groupId y)))
  ∧ (∀ x, x ∈ groups s' ↔
          x ∈ groups s
          ∧ ∀ y, y ∈ take (pg Dynamo.Scan_groups) (groups s) →
              ¬ Dynamo.key_eq (Group.groupId x) (Group.groupId y))
  ∧ (∀ x, x ∈ users s' ↔
          x ∈ users s
          ∧ ∀ y, y ∈ take (pg Dynamo.Scan_users) (users s) →
              ¬ Dynamo.key_eq (User.userId x) (User.userId y))
  ∧ (length (sharing s) ≤ pg Dynamo.Scan_sharing →
     length (resources s) ≤ pg Dynamo.Scan_resources →
     length (userGroups s) ≤ pg Dynamo.Scan_members →
     length (groups s) ≤ pg Dynamo.Scan_groups →
     length (users s) ≤ pg Dynamo.Scan_users →
     s' = empty_store).
Proof.
  cbv zeta. unfold Dynamo.cleanupSampleData, Dynamo.first_page.
  rewrite Dynamo_rules_cleanup. cbv zeta.
  rewrite Dynamo_resources_cleanup. cbn [resources with_sharing].
  rewrite Dynamo_members_cleanup. cbn [userGroups with_resources with_sharing].
  rewrite Dynamo_groups_cleanup.
  cbn [groups with_userGroups with_resources with_sharing].
  rewrite Dynamo_users_cleanup.
  cbn [users sharing resources userGroups groups with_users with_groups
         with_userGroups with_resources with_sharing].
  assert (H1 := foldl_delete
    (λ y x, Dynamo.same_key (ResourceSharing.resourceId y)
              (ResourceSharing.shareType y) (ResourceSharing.targetId y) x)
    (take (pg Dynamo.Scan_sharing) (sharing s)) (sharing s)).
  assert (H2 := foldl_delete
    (λ y x, Dynamo.key_eq (Resource.resourceId x) (Resource.resourceId y))
    (take (pg Dynamo.Scan_resources) (resources s)) (resources s)).
  assert (H3 := foldl_delete
    (λ y x, Dynamo.key_eq (UserGroup.userId x) (UserGroup.userId y)
            ∧ Dynamo.key_eq (UserGroup.groupId x) (UserGroup.groupId y))
    (take (pg Dynamo.Scan_members) (userGroups s)) (userGroups s)).
  assert (H4 := foldl_delete
    (λ y x, Dynamo.key_eq (Group.groupId x) (Group.groupId y))
    (take (pg Dynamo.Scan_groups) (groups s)) (groups s)).
  assert (H5 := foldl_delete
    (λ y x, Dynamo.key_eq (User.userId x) (User.userId y))
    (take (pg Dynamo.Scan_users) (users s)) (users s)).
  cbv beta in H1, H2, H3, H4, H5.
  split_and!; [exact H1|exact H2|exact H3|exact H4|exact H5|].
  intros L1 L2 L3 L4 L5. apply store_eq;
    cbn [users sharing resources userGroups groups empty_store];
    apply nil_of_no_elem; intros x.
  - intros [Hx Hall]%H5. rewrite take_ge in Hall by done. by apply (Hall x).
  - intros [Hx Hall]%H4. rewrite take_ge in Hall by done. by apply (Hall x).
  - intros [Hx Hall]%H3. rewrite take_ge in Hall by done. by apply (Hall x).
  - intros [Hx Hall]%H2. rewrite take_ge in Hall by done. by apply (Hall x).
  - intros [Hx Hall]%H1. rewrite take_ge in Hall by done.
    apply (Hall x Hx). by unfold Dynamo.same_key.
Qed.

(** Six users and pages of four: the cleaning leaves two users. *)
Example cleanup_on_store_six_users :
  users (Dynamo.cleanupSampleData four_users_a_page store_six_users)
  = sample_user <$> ["u5"; "u6"]%string.
Proof. vm_compute. reflexivity. Qed.

(** ** A new resource over the store as served *)

Lemma Dynamo_process_member_grows s rule st m :
  st.1 ⊆ (Dynamo.process_member s rule st m).1
  ∧ (is_Some (Dynamo.User_get (UserGroup.userId m) s) →
     UserGroup.userId m ∈ (Dynamo.process_member s rule st m).1).
Proof.
  unfold Dynamo.process_member.
  destruct (decide (UserGroup.userId m ∈ st.1)) as [Hin|Hin]; [done|].
  destruct (Dynamo.User_get (UserGroup.userId m) s) as [u|].
  - cbn [fst]. set_solver.
  - split; [done|]. by intros [? ?].
Qed.

Lemma Dynamo_foldl_process_member_grows s rule ms : ∀ st,
  st.1 ⊆ (foldl (Dynamo.process_member s rule) st ms).1
  ∧ ∀ m, m ∈ ms → is_Some (Dynamo.User_get (UserGroup.userId m) s) →
      UserGroup.userId m ∈ (foldl (Dynamo.process_member s rule) st ms).1.
Proof.
  induction ms as [|m0 ms IH]; intros st; cbn [foldl].
  - split; [done|]. intros m Hm. by apply elem_of_nil in Hm.
  - destruct (IH (Dynamo.process_member s rule st m0)) as [Hsub Hall].
    destruct (Dynamo_process_member_grows s rule st m0) as [Hsub1 Hin1].
    split; [set_solver|].
    intros m [->|Hm]%elem_of_cons Hget; [|by apply Hall].
    apply Hsub. by apply Hin1.
Qed.

Lemma Dynamo_process_rule_grows pg s st rule :
  st.1 ⊆ (Dynamo.process_rule pg s st rule).1
  ∧ rule_seen pg s rule (Dynamo.process_rule pg s st rule).1.
Proof.
  unfold Dynamo.process_rule, rule_seen.
  destruct (ResourceSharing.shareType rule).
  - destruct (Dynamo.User_get (ResourceSharing.targetId rule) s) as [u|].
    + cbn [fst]. split; [set_solver|]. split; [|done]. intros _ _. set_solver.
    + split; [done|]. split; [|done]. by intros _ [? ?].
  - destruct (Dynamo_foldl_process_member_grows s rule
                (Dynamo.UserGroup_query_byGroup pg (ResourceSharing.targetId rule) s)
                st) as [Hsub Hall].
    split; [done|]. split; [done|]. intros _. exact Hall.
  - done.
Qed.

Lemma rule_seen_mono pg s rule (X Y : gset string) :
  X ⊆ Y → rule_seen pg s rule X → rule_seen pg s rule Y.
Proof.
  intros Hsub [Hu Hg]. split.
  - intros Hst Hget. apply Hsub. by apply Hu.
  - intros Hst m Hm Hget. apply Hsub. by apply Hg.
Qed.

Lemma Dynamo_foldl_process_rule_grows pg s rules : ∀ st,
  st.1 ⊆ (foldl (Dynamo.process_rule pg s) st rules).1
  ∧ ∀ rule, rule ∈ rules →
      rule_seen pg s rule (foldl (Dynamo.process_rule pg s) st rules).1.
Proof.
  induction rules as [|rule0 rules IH]; intros st; cbn [foldl].
  - split; [done|]. intros rule Hr. by apply elem_of_nil in Hr.
  - destruct (IH (Dynamo.process_rule pg s st rule0)) as [Hsub Hall].
    destruct (Dynamo_process_rule_grows pg s st rule0) as [Hsub1 Hseen1].
    split; [set_solver|].
    intros rule [->|Hr]%elem_of_cons; [|by apply Hall].
    by apply (rule_seen_mono pg s rule0 _ _ Hsub).
Qed.

Lemma Dynamo_forward_ext pg s s' rid :
  Dynamo.Resource_get rid s' = Dynamo.Resource_get rid s →
  users s' = users s →
  userGroups s' = userGroups s →
  sharing s' = sharing s →
  Dynamo.getResourceAccessList pg rid s' = Dynamo.getResourceAccessList pg rid s.
Proof.
  unfold Dynamo.getResourceAccessList, Dynamo.ResourceSharing_query_primary,
    Dynamo.User_scan.
  intros -> Hu Hug ->. rewrite Hu.
  destruct (Dynamo.Resource_get rid s) as [r|]; [|done].
  destruct (Resource.isGlobal r); [done|]. do 2 f_equal.
  destruct s, s'. simpl in *. by subst.
Qed.

(** X23.  A new resource.  POST /resources with its four required
    fields and an identifier whose key is free answers 201 and writes
    the resource and nothing else.  A resource created with [isGlobal]
    true is answered as ['global'], with the users of the first page of
    the scan, although no grant of type ['global'] exists.  One created
    without it is answered as ['specific'] from the rules that are filed
    under its key already, those a deleted resource of the same key left
    behind: the registered target of each user-type rule and the
    registered members of the group of each group-type rule are listed,
    and nobody is when there is no such rule.  The answer for a resource
    of another key does not change. *)
Theorem X23_new_resource pg s body now rid :
  ResourceBody.resourceId body = Some rid →
  missing (ResourceBody.resourceId body) = false →
  missing (ResourceBody.name body) = false →
  missing (ResourceBody.type body) = false →
  missing (ResourceBody.ownerId body) = false →
  Dynamo.Resource_get rid s = None →
  ∃ item s',
    Dynamo.post_resources body now s = (Json 201 item, s')
    ∧ resources s' = resources s ++ [item]
    ∧ users s' = users s ∧ groups s' = groups s
    ∧ userGroups s' = userGroups s ∧ sharing s' = sharing s
    ∧ Dynamo.Resource_get rid s' = Some item
    ∧ Resource.isGlobal item = default false (ResourceBody.isGlobal body)
    ∧ (∃ al,
         Dynamo.getResourceAccessList pg rid s' = inr al
         ∧ (Resource.isGlobal item = true →
              AccessList.accessType al = LT_global
              ∧ listed_users al
                = User.userId <$> take (pg Dynamo.Scan_users) (users s))
         ∧ (Resource.isGlobal item = false →
              AccessList.accessType al = LT_specific
              ∧ (∀ rule, rule ∈ Dynamo.ResourceSharing_query_primary pg rid s →
                   rule_seen pg s rule (list_to_set (listed_users al)))
              ∧ (Dynamo.ResourceSharing_query_primary pg rid s = [] →
                   AccessList.users al = [])))
    ∧ ∀ rid', ¬ Dynamo.key_eq rid' rid →
        Dynamo.getResourceAccessList pg rid' s'
        = Dynamo.getResourceAccessList pg rid' s.
Proof.
  intros Hrid Hm1 Hm2 Hm3 Hm4 Hfree.
  unfold Dynamo.post_resources. rewrite Hm1, Hm2, Hm3, Hm4. cbn [orb].
  set (item := Resource.mk _ _ _ _ _ _ _ _).
  assert (Hitem : Resource.resourceId item = rid).
  { unfold item. cbn [Resource.resourceId]. by rewrite Hrid. }
  unfold Dynamo.Resource_create.
  assert (existsb (λ r, bool_decide (Dynamo.key_eq (Resource.resourceId r)
                                       (Resource.resourceId item)))
            (resources s) = false) as ->.
  { apply existsb_false_elem. intros r Hr. apply bool_decide_eq_false.
    rewrite Hitem. intros Hk. apply list_elem_of_In in Hr.
    unfold Dynamo.Resource_get in Hfree.
    pose proof (List.find_none _ _ Hfree r Hr) as Hnone.
    by apply bool_decide_eq_false in Hnone. }
  set (s' := with_resources (resources s ++ [item]) s).
  assert (Hget : Dynamo.Resource_get rid s' = Some item).
  { unfold Dynamo.Resource_get, s'. cbn [resources with_resources].
    rewrite find_snoc. fold (Dynamo.Resource_get rid s). rewrite Hfree.
    rewrite bool_decide_eq_true_2; [done|]. by rewrite Hitem. }
  exists item, s'. split_and!; try done.
  - unfold Dynamo.getResourceAccessList. rewrite Hget.
    destruct (Resource.isGlobal item) eqn:Hg.
    + eexists. split; [reflexivity|]. split; [|done]. intros _.
      split; [done|]. unfold listed_users. cbn [access_list AccessList.users].
      rewrite foldl_add_global_user. cbn [snd app].
      by rewrite <- list_fmap_compose.
    + eexists. split; [reflexivity|]. split; [done|]. intros _.
      split; [done|].
      change (Dynamo.ResourceSharing_query_primary pg rid s')
        with (Dynamo.ResourceSharing_query_primary pg rid s).
      assert (Hfun : Dynamo.process_rule pg s' = Dynamo.process_rule pg s) by done.
      rewrite Hfun. unfold listed_users. cbn [access_list AccessList.users].
      set (rules := Dynamo.ResourceSharing_query_primary pg rid s).
      destruct (Dynamo_process_rules_invariant pg s rules (∅, [])) as [Hset _].
      { split; [done|]. intros e He. by apply elem_of_nil in He. }
      destruct (Dynamo_foldl_process_rule_grows pg s rules (∅, [])) as [_ Hall].
      split.
      * intros rule Hr. rewrite Hset. by apply Hall.
      * intros ->. done.
  - intros rid' Hne. apply Dynamo_forward_ext; try done.
    unfold Dynamo.Resource_get, s'. cbn [resources with_resources].
    rewrite find_snoc. destruct (List.find _ (resources s)); [done|].
    rewrite bool_decide_eq_false_2; [done|]. rewrite Hitem.
    intros Hk. apply Hne. done.
Qed.

Lemma X23_new_resource_witness :
  let s := Dynamo.Resource_delete "r1" store_overlap in
  let body := {| ResourceBody.resourceId := Some "R1"%string;
                 ResourceBody.name := Some "Notes"%string;
                 ResourceBody.description := None;
                 ResourceBody.type := Some "document"%string;
                 ResourceBody.ownerId := Some "u1"%string;
                 ResourceBody.isGlobal := None |} in
  Dynamo.Resource_get "R1" s = None
  ∧ ∃ item s',
      Dynamo.post_resources body "2024-01-05T00:00:00.000Z" s = (Json 201 item, s')
      ∧ resources s' = resources s ++ [item]
      ∧ users s' = users s ∧ groups s' = groups s
      ∧ userGroups s' = userGroups s ∧ sharing s' = sharing s
      ∧ Dynamo.Resource_get "R1" s' = Some item
      ∧ Resource.isGlobal item = default false (ResourceBody.isGlobal body)
      ∧ (∃ al,
           Dynamo.getResourceAccessList whole_pages "R1" s' = inr al
           ∧ (Resource.isGlobal item = true →
                AccessList.accessType al = LT_global
                ∧ listed_users al
                  = User.userId <$> take (whole_pages Dynamo.Scan_users) (users s))
           ∧ (Resource.isGlobal item = false →
                AccessList.accessType al = LT_specific
                ∧ (∀ rule,
                     rule ∈ Dynamo.ResourceSharing_query_primary whole_pages "R1" s →
                     rule_seen whole_pages s rule (list_to_set (listed_users al)))
                ∧ (Dynamo.ResourceSharing_query_primary whole_pages "R1" s = [] →
                     AccessList.users al = [])))
      ∧ ∀ rid', ¬ Dynamo.key_eq rid' "R1" →
          Dynamo.getResourceAccessList whole_pages rid' s'
          = Dynamo.getResourceAccessList whole_pages rid' s.
Proof.
  intros s body. split; [reflexivity|].
  apply (X23_new_resource whole_pages s body "2024-01-05T00:00:00.000Z" "R1");
    reflexivity.
Defined.

(** The resource r1 of the sample store is deleted and a resource is
    created under ['R1']: the four users that the rules of r1 reached
    are listed again, u1 twice. *)
Example stale_rules_on_store_overlap :
  let s := Dynamo.Resource_delete "r1" store_overlap in
  let body := {| ResourceBody.resourceId := Some "R1"%string;
                 ResourceBody.name := Some "Notes"%string;
                 ResourceBody.description := None;
                 ResourceBody.type := Some "document"%string;
                 ResourceBody.ownerId := Some "u1"%string;
                 ResourceBody.isGlobal := None |} in
  ∃ al,
    Dynamo.getResourceAccessList whole_pages "R1"
      (Dynamo.post_resources body "2024-01-05T00:00:00.000Z" s).2 = inr al
    ∧ listed_users al = ["u1"; "u2"; "u3"; "u1"; "u4"]%string
    ∧ AccessList.totalUsers al = 4.
Proof. eexists. split_and!; vm_compute; reflexivity. Qed.

(** ** The pass of the forward resolver over the store as served *)

Lemma first_seen_from_app seen l1 l2 :
  first_seen_from seen (l1 ++ l2)
  = first_seen_from seen l1 ++ first_seen_from (seen ∪ list_to_set l1) l2.
Proof.
  revert seen. induction l1 as [|x l1 IH]; intros seen; simpl.
  - f_equal. set_solver.
  - destruct (decide (x ∈ seen)) as [Hx|Hx].
    + rewrite IH. do 2 f_equal. set_solver.
    + simpl. rewrite IH. do 3 f_equal. set_solver.
Qed.

Lemma list_to_set_first_seen_from (seen : gset string) l :
  list_to_set (first_seen_from seen l) ∪ seen = list_to_set l ∪ seen.
Proof.
  revert seen. induction l as [|x l IH]; intros seen; simpl; [done|].
  destruct (decide (x ∈ seen)) as [Hx|Hx].
  - rewrite IH. clear IH. set_solver.
  - rewrite list_to_set_cons. apply set_eq. intros y.
    assert (H := proj1 (set_eq _ _) (IH ({[ x ]} ∪ seen)) y). clear IH.
    set_unfold. tauto.
Qed.

Lemma found_Some s uid u : Dynamo.User_get uid s = Some u → found s uid.
Proof. intros H. unfold found. by rewrite H. Qed.

Lemma found_None s uid : Dynamo.User_get uid s = None → ¬ found s uid.
Proof. intros H [u Hu]. congruence. Qed.

(** The primary index returns the rules of a resource sorted by share
    type, whatever the order of the table. *)
Lemma sk_leb_rank a b :
  Dynamo.sk_leb a b = true → rank_leb a b = true.
Proof.
  unfold Dynamo.sk_leb, rank_leb. cbv zeta.
  intros [H|[H _]%andb_prop]%orb_prop; apply Nat.leb_le.
  - apply Nat.ltb_lt in H. lia.
  - apply Nat.eqb_eq in H. lia.
Qed.

Lemma sk_leb_rank_false a b :
  Dynamo.sk_leb a b = false → rank_leb b a = true.
Proof.
  unfold Dynamo.sk_leb, rank_leb. cbv zeta.
  intros [H _]%orb_false_elim. apply Nat.leb_le.
  apply Nat.ltb_ge in H. lia.
Qed.

Lemma rank_leb_trans a b c :
  rank_leb a b = true → rank_leb b c = true → rank_leb a c = true.
Proof.
  unfold rank_leb. intros H1%Nat.leb_le H2%Nat.leb_le. apply Nat.leb_le. lia.
Qed.

Lemma insert_by_rank_ordered x l :
  ordered_by rank_leb l = true →
  ordered_by rank_leb (Dynamo.insert_by Dynamo.sk_leb x l) = true.
Proof.
  induction l as [|y l IH]; [done|].
  cbn [ordered_by Dynamo.insert_by]. intros [Hy Hl]%andb_prop.
  destruct (Dynamo.sk_leb x y) eqn:E.
  - cbn [ordered_by forallb]. rewrite Hy, Hl, (sk_leb_rank _ _ E). cbn.
    rewrite andb_true_r. apply forallb_forall. intros z Hz%list_elem_of_In.
    apply (rank_leb_trans x y z); [by apply sk_leb_rank|].
    by apply (forallb_elem_of _ l).
  - cbn [ordered_by]. rewrite (IH Hl), andb_true_r.
    apply forallb_forall. intros z Hz%list_elem_of_In.
    apply elem_of_insert_by in Hz as [->|Hz].
    + by apply sk_leb_rank_false.
    + by apply (forallb_elem_of _ l).
Qed.

Lemma index_sort_rank_ordered l :
  ordered_by rank_leb (Dynamo.index_sort Dynamo.sk_leb l) = true.
Proof.
  induction l as [|x l IH]; [done|]. by apply insert_by_rank_ordered.
Qed.

Lemma ordered_by_take {A} (leb : A → A → bool) n (l : list A) :
  ordered_by leb l = true → ordered_by leb (take n l) = true.
Proof.
  revert n. induction l as [|x l IH]; intros [|n]; try done.
  cbn [ordered_by take]. intros [Hx Hl]%andb_prop.
  rewrite (IH n Hl), andb_true_r.
  apply forallb_forall. intros y Hy%list_elem_of_In.
  apply (forallb_elem_of _ l); [done|].
  by apply (elem_of_first_page (λ _, n) Dynamo.Scan_users).
Qed.

Lemma Dynamo_query_primary_rank_ordered pg s rid :
  ordered_by rank_leb (Dynamo.ResourceSharing_query_primary pg rid s) = true.
Proof.
  unfold Dynamo.ResourceSharing_query_primary, Dynamo.first_page.
  apply ordered_by_take, index_sort_rank_ordered.
Qed.

Lemma Dynamo_foldl_process_rule_global pg s st (l : list ResourceSharing.t) :
  foldl (Dynamo.process_rule pg s) st (filter is_global_rule l) = st.
Proof.
  revert st. induction l as [|x l IH]; intros st; [done|].
  rewrite filter_cons. destruct (decide (is_global_rule x)) as [Hg|]; [|done].
  cbn [foldl]. rewrite IH. unfold Dynamo.process_rule. by rewrite Hg.
Qed.

(** The [Set] after a loop. *)
Lemma Dynamo_foldl_process_member_fst s rule ms : ∀ st,
  (foldl (Dynamo.process_member s rule) st ms).1
  = st.1 ∪ list_to_set (filter (found s) (UserGroup.userId <$> ms)).
Proof.
  induction ms as [|m ms IH]; intros st; cbn [foldl]; [set_solver|].
  rewrite IH, fmap_cons. unfold Dynamo.process_member.
  destruct (decide (UserGroup.userId m ∈ st.1)) as [Hin|Hin].
  - rewrite filter_cons. destruct (decide (found s _)); set_solver.
  - destruct (Dynamo.User_get (UserGroup.userId m) s) as [u|] eqn:Hu.
    + rewrite filter_cons_True by eauto using found_Some. set_solver.
    + by rewrite filter_cons_False by eauto using found_None.
Qed.

Lemma Dynamo_process_rule_fst pg s st rule :
  (Dynamo.process_rule pg s st rule).1 = st.1 ∪ rule_reach pg s rule.
Proof.
  unfold Dynamo.process_rule, rule_reach.
  destruct (ResourceSharing.shareType rule).
  - destruct (Dynamo.User_get (ResourceSharing.targetId rule) s) eqn:E; simpl.
    + rewrite decide_True by eauto using found_Some. set_solver.
    + rewrite decide_False by eauto using found_None. set_solver.
  - apply Dynamo_foldl_process_member_fst.
  - set_solver.
Qed.

Lemma Dynamo_foldl_process_rule_fst pg s rules : ∀ st,
  (foldl (Dynamo.process_rule pg s) st rules).1
  = st.1 ∪ ⋃ (rule_reach pg s <$> rules).
Proof.
  induction rules as [|r rules IH]; intros st; simpl; [set_solver|].
  rewrite IH, Dynamo_process_rule_fst. set_solver.
Qed.

Lemma elem_of_union_rule_reach pg s (l : list ResourceSharing.t) x :
  x ∈ ⋃ (rule_reach pg s <$> l) ↔ ∃ r, r ∈ l ∧ x ∈ rule_reach pg s r.
Proof.
  rewrite elem_of_union_list. split.
  - intros (X & HX & Hx). apply list_elem_of_fmap in HX as (r & -> & Hr). eauto.
  - intros (r & Hr & Hx). exists (rule_reach pg s r). split; [|done].
    apply list_elem_of_fmap. eauto.
Qed.

Lemma Dynamo_seen_set_user_first pg s (rules : list ResourceSharing.t) :
  (foldl (Dynamo.process_rule pg s) (∅, [])
     (filter is_user_rule rules ++ filter is_group_rule rules)).1
  = (foldl (Dynamo.process_rule pg s) (∅, []) rules).1.
Proof.
  rewrite !Dynamo_foldl_process_rule_fst. f_equal.
  apply set_eq. intros x. rewrite !elem_of_union_rule_reach. split.
  - intros (r & Hr & Hx). exists r. split; [|done].
    apply elem_of_app in Hr as [Hr|Hr]; by apply list_elem_of_filter in Hr as [_ ?].
  - intros (r & Hr & Hx). exists r. split; [|done].
    rewrite elem_of_app, !list_elem_of_filter.
    unfold rule_reach, is_user_rule, is_group_rule in *.
    destruct (ResourceSharing.shareType r); [by left|by right|set_solver].
Qed.

(** The entries after a loop. *)
Lemma Dynamo_foldl_process_member_provenance s rule ms : ∀ st,
  state_provenance (foldl (Dynamo.process_member s rule) st ms)
  = state_provenance st
    ++ ((λ u, (u, AT_group))
        <$> first_seen_from st.1
              (filter (found s) (UserGroup.userId <$> ms))).
Proof.
  induction ms as [|m ms IH]; intros st; cbn [foldl].
  - by rewrite app_nil_r.
  - rewrite IH, fmap_cons. unfold Dynamo.process_member.
    destruct (decide (UserGroup.userId m ∈ st.1)) as [Hin|Hin].
    + destruct (decide (found s (UserGroup.userId m))) as [He|He].
      * rewrite filter_cons_True by done. cbn [first_seen_from].
        by rewrite decide_True.
      * by rewrite filter_cons_False.
    + destruct (Dynamo.User_get (UserGroup.userId m) s) as [u|] eqn:Hu.
      * rewrite filter_cons_True by eauto using found_Some.
        cbn [first_seen_from]. rewrite decide_False by done.
        unfold state_provenance. cbn [fst snd].
        by rewrite fmap_app, <- app_assoc.
      * by rewrite filter_cons_False by eauto using found_None.
Qed.

Lemma Dynamo_foldl_group_rules_provenance pg s (rules : list ResourceSharing.t) :
  ∀ st,
  Forall is_group_rule rules →
  state_provenance (foldl (Dynamo.process_rule pg s) st rules)
  = state_provenance st
    ++ ((λ u, (u, AT_group))
        <$> first_seen_from st.1
              (concat ((λ rule,
                          filter (found s)
                            (UserGroup.userId <$>
                               Dynamo.UserGroup_query_byGroup pg
                                 (ResourceSharing.targetId rule) s))
                       <$> rules))).
Proof.
  induction rules as [|rule rules IH]; intros st Hall; cbn [foldl].
  - by rewrite app_nil_r.
  - apply Forall_cons in Hall as [Hg Hall]. rewrite (IH _ Hall).
    unfold Dynamo.process_rule. rewrite Hg.
    rewrite Dynamo_foldl_process_member_provenance,
      Dynamo_foldl_process_member_fst.
    rewrite fmap_cons. cbn [concat].
    by rewrite first_seen_from_app, fmap_app, app_assoc.
Qed.

Lemma Dynamo_foldl_user_rules_provenance pg s (rules : list ResourceSharing.t) :
  ∀ st,
  Forall is_user_rule rules →
  state_provenance (foldl (Dynamo.process_rule pg s) st rules)
  = state_provenance st
    ++ ((λ u, (u, AT_direct))
        <$> filter (found s) (ResourceSharing.targetId <$> rules)).
Proof.
  induction rules as [|rule rules IH]; intros st Hall; cbn [foldl].
  - by rewrite app_nil_r.
  - apply Forall_cons in Hall as [Hu Hall]. rewrite (IH _ Hall), fmap_cons.
    unfold Dynamo.process_rule. rewrite Hu.
    destruct (Dynamo.User_get (ResourceSharing.targetId rule) s) as [u|] eqn:Hget.
    + rewrite filter_cons_True by eauto using found_Some.
      unfold state_provenance. cbn [fst snd].
      by rewrite fmap_app, <- app_assoc.
    + by rewrite filter_cons_False by eauto using found_None.
Qed.

Lemma Dynamo_foldl_process_member_entries s rule ms : ∀ st e,
  e ∈ (foldl (Dynamo.process_member s rule) st ms).2 →
  e ∈ st.2
  ∨ ∃ m u, m ∈ ms ∧ Dynamo.User_get (UserGroup.userId m) s = Some u
           ∧ e = group_detail rule m u.
Proof.
  induction ms as [|m ms IH]; intros st e He; cbn [foldl] in He; [by left|].
  apply IH in He as [He|(m' & u & Hm' & Hu & ->)].
  - unfold Dynamo.process_member in He.
    destruct (decide (UserGroup.userId m ∈ st.1)); [by left|].
    destruct (Dynamo.User_get (UserGroup.userId m) s) as [u|] eqn:Hu; [|by left].
    cbn [snd] in He. apply elem_of_app in He as [He|He]; [by left|].
    apply list_elem_of_singleton in He as ->. right. exists m, u.
    split; [by left|done].
  - right. exists m', u. split; [by right|done].
Qed.

Lemma Dynamo_process_rule_entries pg s st rule e :
  e ∈ (Dynamo.process_rule pg s st rule).2 →
  e ∈ st.2 ∨ entry_of_grant pg s rule e.
Proof.
  unfold Dynamo.process_rule, entry_of_grant.
  destruct (ResourceSharing.shareType rule) eqn:Hst.
  - destruct (Dynamo.User_get (ResourceSharing.targetId rule) s) as [u|] eqn:Hu;
      [|by left].
    cbn [snd]. intros [He|He]%elem_of_app; [by left|].
    apply list_elem_of_singleton in He as ->. right. by cbn.
  - intros [He|(m & u & Hm & Hu & ->)]%Dynamo_foldl_process_member_entries;
      [by left|right].
    cbn. split_and!; try done. by exists m.
  - by left.
Qed.

Lemma Dynamo_foldl_process_rule_entries pg s (rules : list ResourceSharing.t) :
  ∀ st e,
  e ∈ (foldl (Dynamo.process_rule pg s) st rules).2 →
  e ∈ st.2 ∨ ∃ rule, rule ∈ rules ∧ entry_of_grant pg s rule e.
Proof.
  induction rules as [|rule rules IH]; intros st e He; cbn [foldl] in He;
    [by left|].
  apply IH in He as [He|(rule' & Hin & Hj)].
  - apply Dynamo_process_rule_entries in He as [He|He]; [by left|].
    right. exists rule. split; [by left|done].
  - right. exists rule'. split; [by right|done].
Qed.



(** The pass on the sample store: u1 and u2 through g1, u3 through g2 (u2
    was seen), then the direct entries of u1 (seen, listed again) and
    u4; four users. *)
Example pass_on_store_overlap :
  first_seen (group_reach whole_pages store_overlap "r1")
  = ["u1"; "u2"; "u3"]%string
  ∧ direct_reach whole_pages store_overlap "r1" = ["u1"; "u4"]%string
  ∧ (∃ al, Dynamo.getResourceAccessList whole_pages "r1" store_overlap = inr al
           ∧ AccessList.totalUsers al = 4).
Proof. split_and!; [vm_compute; done..|]. eexists. split; vm_compute; done. Qed.

(** The order of the pass is the order of the index and not the order
    in which the rules were written: here the user-type rule was created
    first, and the group-type rule is processed first. *)
Example pass_on_store_resource_two_spellings :
  ResourceSharing.shareType <$> sharing store_resource_two_spellings
  = [ST_user; ST_group]
  ∧ ResourceSharing.shareType
      <$> Dynamo.ResourceSharing_query_primary whole_pages "r1"
            store_resource_two_spellings
    = [ST_group; ST_user]
  ∧ ∃ al,
      Dynamo.getResourceAccessList whole_pages "r1" store_resource_two_spellings
      = inr al
      ∧ provenance al = [("u1"%string, AT_group); ("u1"%string, AT_direct)]
      ∧ AccessList.totalUsers al = 1.
Proof.
  split_and!; [vm_compute; done..|]. eexists. split_and!; vm_compute; done.
Qed.

(** * The two models agree on a well-kept store *)

Lemma find_ext_in {A} (p q : A → bool) l :
  (∀ x, x ∈ l → p x = q x) → List.find p l = List.find q l.
Proof.
  induction l as [|x l IH]; intros Hext; [done|]. cbn [List.find].
  rewrite (Hext x) by by left.
  destruct (q x); [done|]. apply IH. intros y Hy. apply Hext. by right.
Qed.

Lemma foldl_ext_in {A B} (f g : A → B → A) l : ∀ a,
  (∀ a x, x ∈ l → f a x = g a x) → foldl f a l = foldl g a l.
Proof.
  induction l as [|x l IH]; intros a Hext; [done|]. cbn [foldl].
  rewrite (Hext a x) by by left. apply IH. intros a' y Hy. apply Hext. by right.
Qed.

Lemma key_eq_lower_case a b :
  lower_case a → lower_case b → Dynamo.key_eq a b ↔ a = b.
Proof. unfold lower_case, Dynamo.key_eq. intros -> ->. done. Qed.

Lemma index_sort_ordered {A} (leb : A → A → bool) l :
  ordered_by leb l = true → Dynamo.index_sort leb l = l.
Proof.
  unfold Dynamo.index_sort. induction l as [|x l IH]; [done|].
  cbn [ordered_by foldr]. intros [Hx Hl]%andb_prop. rewrite (IH Hl).
  destruct l as [|y l]; [done|]. cbn [Dynamo.insert_by].
  cbn [forallb] in Hx. apply andb_prop in Hx as [-> _]. done.
Qed.

Lemma String_ltb_leb a b : String.ltb a b = true → String.leb a b = true.
Proof. unfold String.ltb, String.leb. by destruct (String.compare a b). Qed.

Lemma String_leb_refl a : String.leb a a = true.
Proof.
  unfold String.leb. pose proof (String.compare_antisym a a) as Hanti.
  destruct (String.compare a a); [done|done|discriminate Hanti].
Qed.

Lemma query_whole {A} pg r (table : list A) (P : A → Prop)
    `{∀ x, Decision (P x)} (leb : A → A → bool) :
  length table ≤ pg r →
  ordered_by leb (filter P table) = true →
  Dynamo.first_page pg r (Dynamo.index_sort leb (filter P table))
  = filter P table.
Proof.
  intros Hlen Hord. rewrite index_sort_ordered by done.
  apply first_page_all. pose proof (length_filter P table). lia.
Qed.

Section agree.
Context (pg : Dynamo.Pages) (s : Store).
Hypothesis Hone : one_spelling s.
Hypothesis Hord : in_index_order s.
Hypothesis Hpage : within_a_page pg s.

Lemma agree_User_get uid :
  lower_case uid → Dynamo.User_get uid s = User_get uid s.
Proof.
  intros Hl. destruct Hone as (Hu & _). rewrite Forall_forall in Hu.
  apply find_ext_in. intros u Hin. apply bool_decide_ext.
  by apply key_eq_lower_case; [apply Hu|].
Qed.

Lemma agree_Resource_get rid :
  lower_case rid → Dynamo.Resource_get rid s = Resource_get rid s.
Proof.
  intros Hl. destruct Hone as (_ & _ & Hr & _). rewrite Forall_forall in Hr.
  apply find_ext_in. intros r Hin. apply bool_decide_ext.
  by apply key_eq_lower_case; [apply Hr|].
Qed.

Lemma agree_User_scan : Dynamo.User_scan pg s = User_scan s.
Proof. apply first_page_all. apply (Hpage Dynamo.Scan_users). Qed.

Lemma agree_Resource_scan : Dynamo.Resource_scan pg s = Resource_scan s.
Proof. apply first_page_all. apply (Hpage Dynamo.Scan_resources). Qed.

Lemma agree_query_globalResources :
  Dynamo.Resource_query_globalResources pg s = Resource_query_globalResources s.
Proof.
  unfold Dynamo.Resource_query_globalResources, Resource_query_globalResources.
  apply query_whole; [apply (Hpage Dynamo.Query_globalResources)|].
  apply ordered_by_filter. apply Hord.
Qed.

Lemma agree_query_primary rid :
  lower_case rid →
  Dynamo.ResourceSharing_query_primary pg rid s
  = ResourceSharing_query_primary rid s.
Proof.
  intros Hl. destruct Hone as (_ & _ & _ & Hs). rewrite Forall_forall in Hs.
  unfold Dynamo.ResourceSharing_query_primary, ResourceSharing_query_primary.
  rewrite (filter_ext_in _ (λ r, ResourceSharing.resourceId r = rid)).
  2:{ intros r Hr. apply key_eq_lower_case; [apply (Hs r Hr)|done]. }
  apply query_whole; [apply Hpage|].
  apply (ordered_by_weaken primary_leb); [|apply ordered_by_filter, Hord].
  intros x y [Hx Hinx]%list_elem_of_filter [Hy Hiny]%list_elem_of_filter.
  unfold primary_leb, sk_leb, Dynamo.sk_leb.
  rewrite Hx, Hy, String_ltb_irrefl, bool_decide_eq_true_2 by done.
  destruct (Hs x Hinx) as [_ ->]. destruct (Hs y Hiny) as [_ ->]. done.
Qed.

Lemma agree_query_byTarget tid :
  lower_case tid →
  Dynamo.ResourceSharing_query_byTarget pg tid s
  = ResourceSharing_query_byTarget tid s.
Proof.
  intros Hl. destruct Hone as (_ & _ & _ & Hs). rewrite Forall_forall in Hs.
  unfold Dynamo.ResourceSharing_query_byTarget, ResourceSharing_query_byTarget.
  rewrite (filter_ext_in _ (λ r, ResourceSharing.targetId r = tid)).
  2:{ intros r Hr. apply key_eq_lower_case; [apply (Hs r Hr)|done]. }
  apply query_whole; [apply Hpage|].
  apply (ordered_by_weaken primary_leb); [|apply ordered_by_filter, Hord].
  intros x y [Hx Hinx]%list_elem_of_filter [Hy Hiny]%list_elem_of_filter.
  unfold primary_leb, Dynamo.by_key.
  destruct (Hs x Hinx) as [-> _]. destruct (Hs y Hiny) as [-> _].
  intros [Hlt|[Heq _]%andb_prop]%orb_prop.
  - by apply String_ltb_leb.
  - apply bool_decide_eq_true in Heq as ->. apply String_leb_refl.
Qed.

Lemma agree_members_primary uid :
  lower_case uid →
  Dynamo.UserGroup_query_primary pg uid s = UserGroup_query_primary uid s.
Proof.
  intros Hl. destruct Hone as (_ & Hm & _). rewrite Forall_forall in Hm.
  unfold Dynamo.UserGroup_query_primary, UserGroup_query_primary.
  rewrite (filter_ext_in _ (λ ug, UserGroup.userId ug = uid)).
  2:{ intros ug Hug. apply key_eq_lower_case; [apply (Hm ug Hug)|done]. }
  apply query_whole; [apply Hpage|].
  apply (ordered_by_weaken member_leb); [|apply ordered_by_filter, Hord].
  intros x y [Hx Hinx]%list_elem_of_filter [Hy Hiny]%list_elem_of_filter.
  unfold member_leb, Dynamo.by_key.
  rewrite Hx, Hy, String_ltb_irrefl, bool_decide_eq_true_2 by done.
  destruct (Hm x Hinx) as [_ ->]. destruct (Hm y Hiny) as [_ ->]. done.
Qed.

Lemma agree_members_byGroup gid :
  lower_case gid →
  Dynamo.UserGroup_query_byGroup pg gid s = UserGroup_query_byGroup gid s.
Proof.
  intros Hl. destruct Hone as (_ & Hm & _). rewrite Forall_forall in Hm.
  unfold Dynamo.UserGroup_query_byGroup, UserGroup_query_byGroup.
  rewrite (filter_ext_in _ (λ ug, UserGroup.groupId ug = gid)).
  2:{ intros ug Hug. apply key_eq_lower_case; [apply (Hm ug Hug)|done]. }
  apply query_whole; [apply Hpage|].
  apply (ordered_by_weaken member_leb); [|apply ordered_by_filter, Hord].
  intros x y [Hx Hinx]%list_elem_of_filter [Hy Hiny]%list_elem_of_filter.
  unfold member_leb, Dynamo.by_key.
  destruct (Hm x Hinx) as [-> _]. destruct (Hm y Hiny) as [-> _].
  intros [Hlt|[Heq _]%andb_prop]%orb_prop.
  - by apply String_ltb_leb.
  - apply bool_decide_eq_true in Heq as ->. apply String_leb_refl.
Qed.
End agree.

Section agree_resolvers.
Context (pg : Dynamo.Pages) (s : Store).
Hypothesis Hone : one_spelling s.
Hypothesis Hord : in_index_order s.
Hypothesis Hpage : within_a_page pg s.

Lemma agree_process_member rule st m :
  m ∈ userGroups s →
  Dynamo.process_member s rule st m = process_member s rule st m.
Proof.
  intros Hm. unfold Dynamo.process_member, process_member.
  destruct Hone as (_ & Hms & _). rewrite Forall_forall in Hms.
  rewrite (agree_User_get s Hone) by apply (Hms m Hm). done.
Qed.

Lemma agree_process_rule st rule :
  rule ∈ sharing s →
  Dynamo.process_rule pg s st rule = process_rule s st rule.
Proof.
  intros Hr. unfold Dynamo.process_rule, process_rule.
  destruct Hone as (_ & _ & _ & Hs). rewrite Forall_forall in Hs.
  destruct (Hs rule Hr) as [_ Ht].
  destruct (ResourceSharing.shareType rule); [| |done].
  - by rewrite (agree_User_get s Hone).
  - rewrite (agree_members_byGroup pg s Hone Hord Hpage) by done.
    apply foldl_ext_in. intros a m Hm. apply agree_process_member.
    unfold UserGroup_query_byGroup in Hm. by apply list_elem_of_filter in Hm as [_ ?].
Qed.

Lemma agree_process_share mk st share :
  share ∈ sharing s →
  Dynamo.process_share s mk st share = process_share s mk st share.
Proof.
  intros Hsh. unfold Dynamo.process_share, process_share.
  destruct Hone as (_ & _ & _ & Hs). rewrite Forall_forall in Hs.
  destruct (Hs share Hsh) as [Hr _].
  by rewrite (agree_Resource_get s Hone).
Qed.

(** Forward: on a well-kept store the answer over the store as served is
    the answer of the first part. *)
Lemma agree_getResourceAccessList rid :
  lower_case rid →
  Dynamo.getResourceAccessList pg rid s = getResourceAccessList rid s.
Proof.
  intros Hl. unfold Dynamo.getResourceAccessList, getResourceAccessList.
  rewrite (agree_Resource_get s Hone) by done.
  rewrite (agree_User_scan pg s Hpage).
  rewrite (agree_query_primary pg s Hone Hord Hpage) by done.
  destruct (Resource_get rid s) as [r|]; [|done].
  destruct (Resource.isGlobal r); [done|]. do 2 f_equal.
  unfold process_rules. apply foldl_ext_in. intros a rule Hr.
  apply agree_process_rule. unfold ResourceSharing_query_primary in Hr.
  by apply list_elem_of_filter in Hr as [_ ?].
Qed.

(** Reverse. *)
Lemma agree_getUserResources uid :
  lower_case uid →
  Dynamo.getUserResources pg uid s = getUserResources uid s.
Proof.
  intros Hl. unfold Dynamo.getUserResources, getUserResources.
  rewrite (agree_User_get s Hone) by done.
  destruct (User_get uid s) as [u|]; [|done]. cbv zeta.
  rewrite (agree_members_primary pg s Hone Hord Hpage) by done.
  rewrite (agree_query_byTarget pg s Hone Hord Hpage) by done.
  rewrite (agree_query_globalResources pg s Hord Hpage).
  assert (Hgs : Dynamo.groupShares_of pg s
                  (map UserGroup.groupId (UserGroup_query_primary uid s))
                = groupShares_of s
                    (map UserGroup.groupId (UserGroup_query_primary uid s))).
  { unfold Dynamo.groupShares_of, groupShares_of. f_equal.
    apply map_ext_in. intros g Hg. apply List.in_map_iff in Hg as (ug & <- & Hug).
    apply (agree_query_byTarget pg s Hone Hord Hpage).
    apply list_elem_of_In in Hug. unfold UserGroup_query_primary in Hug.
    apply list_elem_of_filter in Hug as [_ Hug].
    destruct Hone as (_ & Hms & _). rewrite Forall_forall in Hms.
    apply (Hms ug Hug). }
  rewrite Hgs.
  assert (Hfold : ∀ mk st shares,
            (∀ share, share ∈ shares → share ∈ sharing s) →
            foldl (Dynamo.process_share s mk) st shares
            = foldl (process_share s mk) st shares).
  { intros mk st shares Hin. apply foldl_ext_in. intros a share Hsh.
    apply agree_process_share. by apply Hin. }
  rewrite !Hfold; [done|..]; intros share Hsh;
    first [ by apply elem_of_groupShares in Hsh as [? _]
          | unfold ResourceSharing_query_byTarget in Hsh;
            by apply list_elem_of_filter in Hsh as [_ ?] ].
Qed.

Lemma agree_resources_loop rs : ∀ results,
  (∀ r, r ∈ rs → r ∈ resources s) →
  Dynamo.resources_with_user_count_loop pg s rs results
  = resources_with_user_count_loop s rs results.
Proof.
  induction rs as [|r rs IH]; intros results Hin; [done|].
  cbn [Dynamo.resources_with_user_count_loop resources_with_user_count_loop].
  destruct Hone as (_ & _ & Hr & _). rewrite Forall_forall in Hr.
  rewrite agree_getResourceAccessList by (apply Hr, Hin; by left).
  destruct (getResourceAccessList (Resource.resourceId r) s); [done|].
  apply IH. intros r' Hr'. apply Hin. by right.
Qed.

Lemma agree_users_loop us : ∀ results,
  (∀ u, u ∈ us → u ∈ users s) →
  Dynamo.users_with_resource_count_loop pg s us results
  = users_with_resource_count_loop s us results.
Proof.
  induction us as [|u us IH]; intros results Hin; [done|].
  cbn [Dynamo.users_with_resource_count_loop users_with_resource_count_loop].
  destruct Hone as (Hu & _). rewrite Forall_forall in Hu.
  rewrite agree_getUserResources by (apply Hu, Hin; by left).
  destruct (getUserResources (User.userId u) s); [done|].
  apply IH. intros u' Hu'. apply Hin. by right.
Qed.

Lemma agree_reports :
  Dynamo.getResourcesWithUserCount pg s = getResourcesWithUserCount s
  ∧ Dynamo.getUsersWithResourceCount pg s = getUsersWithResourceCount s.
Proof.
  unfold Dynamo.getResourcesWithUserCount, getResourcesWithUserCount,
    Dynamo.getUsersWithResourceCount, getUsersWithResourceCount.
  rewrite (agree_Resource_scan pg s Hpage), (agree_User_scan pg s Hpage).
  split; [by apply agree_resources_loop|by apply agree_users_loop].
Qed.
End agree_resolvers.

(** Over the store of the first part the two reports count the same
    pairs of a user and a resource. *)
Lemma reports_count_the_same_pairs s rrows urows :
  NoDup (User.userId <$> users s) →
  NoDup (Resource.resourceId <$> resources s) →
  typed_store s →
  getResourcesWithUserCount s = inr rrows →
  getUsersWithResourceCount s = inr urows →
  sum_list (ResourceCount.userCount <$> rrows)
  = sum_list (UserCount.resourceCount <$> urows).
Proof.
  intros Husers Hresources Htyped Hr Hu.
  rewrite (resources_report_counts s rrows Hr), (users_report_counts s urows Hu).
  transitivity
    (sum_list ((λ r, length (filter (λ u, User.userId u
                                           ∈ access_set s (Resource.resourceId r))
                               (users s))) <$> resources s)).
  { f_equal. apply Forall_fmap_ext_1, Forall_forall. intros r _.
    rewrite user_count_size.
    apply (size_as_filter User.userId); [done|apply access_set_registered]. }
  rewrite (double_count
             (λ r u, User.userId u ∈ access_set s (Resource.resourceId r))).
  f_equal. apply Forall_fmap_ext_1, Forall_forall. intros u Hin.
  rewrite resource_count_size.
  rewrite (size_as_filter Resource.resourceId (resources s));
    [|done|apply resource_set_registered].
  f_equal. apply filter_ext_in. intros r Hrin.
  destruct (Resource_get_of_elem s r Hrin) as [r0 Hr0].
  destruct (User_get_of_elem s u Hin) as [u0 Hu0].
  destruct (symmetry_on_typed_targets s (Resource.resourceId r) (User.userId u)
              r0 u0 Hr0 Hu0 Hresources (typed_store_for s u Htyped Hin))
    as (fwd & rev & Hfwd & Hrev & Hiff).
  rewrite <- (listed_users_access_set s _ fwd Hfwd).
  by rewrite <- (listed_resources_resource_set s _ rev Hrev).
Qed.

Lemma within_a_page_store_overlap : within_a_page whole_pages store_overlap.
Proof. intros r. unfold whole_pages. cbn. lia. Qed.





(** Past one page the two reports part.  Of six users the scan returns
    four; r3 is not global and is shared with u6.  The report of the
    resources counts u6, whom [User.get] finds; the report of the users
    has no row for u6. *)
Example reports_past_one_page :
  let s := with_sharing [sample_rule "r3" ST_user "u6" "u1"]
             (with_resources [sample_resource "r3" "u1" false] store_six_users) in
  (∃ rrows, Dynamo.getResourcesWithUserCount four_users_a_page s = inr rrows
            ∧ ResourceCount.userCount <$> rrows = [1])
  ∧ ∃ urows, Dynamo.getUsersWithResourceCount four_users_a_page s = inr urows
             ∧ UserCount.resourceCount <$> urows = [0; 0; 0; 0].
Proof. split; eexists; split; vm_compute; reflexivity. Qed.
